(** * Raseed: the receipt parser and the views of [app (2).py]

    The first part of the development embeds the four functions of the
    fallback parser, [extract_amounts_from_text], [extract_tax_from_text],
    [extract_items_from_text] and [parse_receipt_with_fallback], together
    with the parts of the Python run time they rest on: [str] values as
    sequences of code points, the backtracking matcher of the [re]
    module, binary64 [float] arithmetic (through the Standard Library's
    [SpecFloat]), [float(str)] and [round(x, 2)].

    The second part embeds more of the file: the password functions
    [hash_password] and [verify_password] (with UTF-8, SHA-256, HMAC and
    PBKDF2), the table of [get_language_text], and the views [get_stats],
    [create_wallet_pass], [logout], [update_language], [login] and
    [signup] (with [create_or_update_user]) over Python values, a session
    and a database taken as a parameter. *)

From Stdlib Require Import String Ascii.
From Stdlib Require Import ZArith List Bool Lia.
From Stdlib Require Import Permutation Sorted.
From Stdlib Require Import SpecFloat.
From Stdlib.Strings Require Byte.
Import ListNotations.
Local Open Scope Z_scope.

(** ** Text *)

(** A Python [str] is a sequence of Unicode code points. *)
Definition char := Z.
Definition text := list char.

(** ASCII literals of the source, as code points. *)
Definition str (s : string) : text :=
  map (fun a => Z.of_N (N_of_ascii a)) (list_ascii_of_string s).

Definition NL : char := 10.          (* '\n' *)
Definition DOLLAR : char := 36.      (* '$' *)
Definition COMMA : char := 44.       (* ',' *)
Definition HYPHEN : char := 45.      (* '-' *)
Definition DOT : char := 46.         (* '.' *)
Definition COLON : char := 58.       (* ':' *)
Definition UNDERSCORE : char := 95.  (* '_' *)
Definition POUND : char := 163.      (* U+00A3 *)
Definition EURO : char := 8364.      (* U+20AC *)

(** [str.isspace] on one code point ([Py_UNICODE_ISSPACE]); the same test
    decides [\s] of a [str] pattern and what [str.strip] removes. *)
Definition is_space (c : char) : bool :=
  ((9 <=? c) && (c <=? 13)) || ((28 <=? c) && (c <=? 32))
  || (c =? 133) || (c =? 160) || (c =? 5760)
  || ((8192 <=? c) && (c <=? 8202)) || (c =? 8232) || (c =? 8233)
  || (c =? 8239) || (c =? 8287) || (c =? 12288).

(** The Unicode character database is not part of the repository.  What
    the parser needs of it beyond ASCII is taken as a parameter: the
    decimal value of a code point ([Py_UNICODE_TODECIMAL], category Nd)
    and whether it is alphanumeric ([str.isalnum]).  The two laws hold of
    every version of the database. *)
Record unicode_db : Type := {
  uni_decimal : char -> option Z;
  uni_alnum : char -> bool;
  uni_decimal_range :
    forall c d, uni_decimal c = Some d -> 0 <= d <= 9;
  uni_decimal_not_space :
    forall c d, uni_decimal c = Some d -> is_space c = false
}.

(** The database cut down to ASCII: no code point above 127 is a digit or
    a letter.  The definitions below consult the database on code points
    above 127 only, so on ASCII text every database gives the same
    result. *)
Definition ascii_db : unicode_db.
Proof.
  refine {| uni_decimal := fun _ => None; uni_alnum := fun _ => false |};
    intros; discriminate.
Defined.

Section Unicode.
Variable db : unicode_db.

(** Decimal value of a code point, [None] when it is not a digit. *)
Definition decimal_value (c : char) : option Z :=
  if c <? 128 then
    (if (48 <=? c) && (c <=? 57) then Some (c - 48) else None)
  else uni_decimal db c.

(** [\d] of a [str] pattern: any Unicode decimal digit. *)
Definition is_decimal (c : char) : bool :=
  match decimal_value c with Some _ => true | None => false end.

Definition is_alnum (c : char) : bool :=
  if c <? 128 then
    ((48 <=? c) && (c <=? 57)) || ((65 <=? c) && (c <=? 90))
    || ((97 <=? c) && (c <=? 122))
  else uni_alnum db c || is_decimal c.

(** [\w] of a [str] pattern: alphanumeric or the underscore. *)
Definition is_word (c : char) : bool := is_alnum c || (c =? UNDERSCORE).
End Unicode.

(** [sre_lower_unicode] as far as it can yield an ASCII letter: the
    upper-case ASCII letters, U+0130 (to [i]) and U+212A (to [k]). *)
Definition lower (c : char) : char :=
  if (65 <=? c) && (c <=? 90) then c + 32
  else if c =? 304 then 105
  else if c =? 8490 then 107
  else c.

(** A cased literal [l] (given in lower case) under [re.IGNORECASE]: the
    subject character matches when its lower case is [l]; [s] also
    matches U+017F and [i] U+0131 (the compiler's case fixes). *)
Definition matches_nocase (l c : char) : bool :=
  (lower c =? l) || ((l =? 115) && (c =? 383)) || ((l =? 105) && (c =? 305)).

(** ** Regular expressions of the [re] module *)

Inductive cclass : Type :=
| CAny                  (* [.], without DOTALL: anything but a newline *)
| CDigit                (* [\d] *)
| CSpace                (* [\s] *)
| CLit (c : char)       (* a literal character *)
| CLitI (c : char)      (* a lower-case literal under IGNORECASE *)
| CSet (cs : list char) (* [[...]] of uncased literals *).

Inductive regex : Type :=
| REmpty
| RChar (c : cclass)
| RSeq (r1 r2 : regex)
| RAlt (r1 r2 : regex)
| RRep (r : regex) (lo : nat) (hi : option nat) (greedy : bool)
| RGroup (i : nat) (r : regex)
| RWordB               (* [\b] *).

(** The matcher's cursor: the character before it (for [\b]), the text
    still to read, and the groups closed so far. *)
Record mstate : Type := {
  before : option char;
  rest : text;
  groups : list (nat * text)
}.

Definition group (i : nat) (gs : list (nat * text)) : text :=
  match find (fun g => Nat.eqb (fst g) i) gs with
  | Some g => snd g
  | None => []          (* a group that took no part reads as '' *)
  end.

Notation "a <|> b" :=
  (match a with Some x => Some x | None => b end)
  (at level 60, right associativity, only parsing).

Section Matcher.
Variable db : unicode_db.

Definition in_class (k : cclass) (c : char) : bool :=
  match k with
  | CAny => negb (c =? NL)
  | CDigit => is_decimal db c
  | CSpace => is_space c
  | CLit l => c =? l
  | CLitI l => matches_nocase l c
  | CSet cs => existsb (Z.eqb c) cs
  end.

Definition word_before (st : mstate) : bool :=
  match before st with Some c => is_word db c | None => false end.
Definition word_after (st : mstate) : bool :=
  match rest st with c :: _ => is_word db c | [] => false end.

(** What was read between two cursors of one run. *)
Definition taken (st st' : mstate) : text :=
  firstn (length (rest st) - length (rest st')) (rest st).

Definition advanced (st st' : mstate) : bool :=
  (length (rest st') <? length (rest st))%nat.

Section Run.
Context {R : Type}.

(** [r{lo,hi}]: greedy tries one more round before the continuation,
    lazy the continuation first.  A round must consume text, as every
    repeated body of the source's patterns does; [fuel] bounds the
    rounds by the length of the text left. *)
Fixpoint rounds (body : (mstate -> option R) -> mstate -> option R)
    (fuel lo : nat) (hi : option nat) (greedy : bool)
    (k : mstate -> option R) (st : mstate) : option R :=
  match fuel with
  | O => if Nat.eqb lo 0 then k st else None
  | S fuel' =>
      let again (_ : unit) :=
        match hi with
        | Some O => None
        | _ =>
            body (fun st' =>
                    if advanced st st'
                    then rounds body fuel' (Nat.pred lo)
                           (option_map Nat.pred hi) greedy k st'
                    else None) st
        end in
      let stop (_ : unit) := if Nat.eqb lo 0 then k st else None in
      if greedy then again tt <|> stop tt else stop tt <|> again tt
  end.

(** The backtracking matcher, in continuation-passing style: [k] is
    what remains to match; alternatives are tried left to right. *)
Fixpoint run (r : regex) (k : mstate -> option R) (st : mstate)
    : option R :=
  match r with
  | REmpty => k st
  | RChar c =>
      match rest st with
      | a :: s =>
          if in_class c a
          then k {| before := Some a; rest := s; groups := groups st |}
          else None
      | [] => None
      end
  | RSeq r1 r2 => run r1 (run r2 k) st
  | RAlt r1 r2 => run r1 k st <|> run r2 k st
  | RRep r lo hi greedy =>
      rounds (run r) (S (length (rest st))) lo hi greedy k st
  | RGroup i r =>
      run r (fun st' =>
               k {| before := before st'; rest := rest st';
                    groups := (i, taken st st') :: groups st' |}) st
  | RWordB => if xorb (word_before st) (word_after st) then k st else None
  end.
End Run.

(** One attempt at the cursor: the state after the leftmost-first match. *)
Definition match_here (r : regex) (prev : option char) (s : text)
    : option mstate :=
  run r Some {| before := prev; rest := s; groups := [] |}.

(** The scan of [re.findall]: non-overlapping matches from left to
    right; after a match the scan resumes where it ended (one character
    further after an empty match). *)
Fixpoint scan (r : regex) (fuel : nat) (prev : option char) (s : text)
    : list (list (nat * text)) :=
  match fuel with
  | O => []
  | S fuel' =>
      let skip (_ : unit) :=
        match s with
        | [] => []
        | c :: s' => scan r fuel' (Some c) s'
        end in
      match match_here r prev s with
      | Some st' =>
          groups st' ::
            (if (length (rest st') <? length s)%nat
             then scan r fuel' (before st') (rest st')
             else skip tt)
      | None => skip tt
      end
  end.

Definition finditer (r : regex) (s : text) : list (list (nat * text)) :=
  scan r (S (length s)) None s.

(** [re.findall] for a pattern with one group, and with two. *)
Definition findall1 (r : regex) (s : text) : list text :=
  map (group 1) (finditer r s).
Definition findall2 (r : regex) (s : text) : list (text * text) :=
  map (fun gs => (group 1 gs, group 2 gs)) (finditer r s).
End Matcher.

(** ** The patterns of the source *)

Definition lit (c : char) : regex := RChar (CLit c).

(** A keyword under IGNORECASE. *)
Definition word_i (s : string) : regex :=
  fold_right (fun c r => RSeq (RChar (CLitI c)) r) REmpty (str s).

Definition star (r : regex) : regex := RRep r 0 None true.
Definition plus (r : regex) : regex := RRep r 1 None true.
Definition plus_lazy (r : regex) : regex := RRep r 1 None false.
Definition opt (r : regex) : regex := RRep r 0 (Some 1%nat) true.
Definition times (n : nat) (r : regex) : regex := RRep r n (Some n) true.
Definition between (lo hi : nat) (r : regex) : regex :=
  RRep r lo (Some hi) true.

Definition digit : regex := RChar CDigit.
Definition ws : regex := star (RChar CSpace).           (* \s* *)
Definition currency : regex := RChar (CSet [DOLLAR; POUND; EURO]).
Definition money : regex :=                              (* \d+\.\d{2} *)
  RSeq (plus digit) (RSeq (lit DOT) (times 2 digit)).

Fixpoint alt (rs : list regex) : regex :=
  match rs with
  | [] => REmpty
  | [r] => r
  | r :: rs' => RAlt r (alt rs')
  end.

Fixpoint cat (rs : list regex) : regex :=
  match rs with
  | [] => REmpty
  | [r] => r
  | r :: rs' => RSeq r (cat rs')
  end.

(** [amount_patterns], in the order of the source (all IGNORECASE). *)
Definition amount_patterns : list regex :=
  [ (* (?:total|amount|balance|due)\s*:?\s*[\$\£\€]?\s*(\d+\.\d{2}) *)
    cat [alt [word_i "total"; word_i "amount"; word_i "balance"; word_i "due"];
         ws; opt (lit COLON); ws; opt currency; ws; RGroup 1 money];
    (* [\$\£\€](\d+\.\d{2})\b *)
    cat [currency; RGroup 1 money; RWordB];
    (* \b(\d+\.\d{2})\s*[\$\£\€] *)
    cat [RWordB; RGroup 1 money; ws; currency];
    (* (?:subtotal|sub-total)\s*[\$\£\€]?\s*(\d+\.\d{2}) *)
    cat [alt [word_i "subtotal";
              cat [word_i "sub"; lit HYPHEN; word_i "total"]];
         ws; opt currency; ws; RGroup 1 money];
    (* \b(\d{1,3}(?:,\d{3})*\.\d{2})\b *)
    cat [RWordB;
         RGroup 1 (cat [between 1 3 digit;
                        star (RSeq (lit COMMA) (times 3 digit));
                        lit DOT; times 2 digit]);
         RWordB] ].

Definition tax_word : regex :=
  alt [word_i "tax"; word_i "gst"; word_i "vat"; word_i "hst"].

(** [tax_patterns], in the order of the source (all IGNORECASE). *)
Definition tax_patterns : list regex :=
  [ (* (?:tax|gst|vat|hst)\s*[\$\£\€]?\s*(\d+\.\d{2}) *)
    cat [tax_word; ws; opt currency; ws; RGroup 1 money];
    (* (?:tax|gst|vat|hst)\s*:?\s*[\$\£\€]?\s*(\d+\.\d{2}) *)
    cat [tax_word; ws; opt (lit COLON); ws; opt currency; ws; RGroup 1 money];
    (* [\$\£\€](\d+\.\d{2})\s*(?:tax|gst|vat|hst) *)
    cat [currency; RGroup 1 money; ws; tax_word] ].

(** [item_pattern]: (.+?)\s+([\$\£\€]?\s*\d+\.\d{2})\b, case-sensitive. *)
Definition item_pattern : regex :=
  cat [RGroup 1 (plus_lazy (RChar CAny));
       plus (RChar CSpace);
       RGroup 2 (cat [opt currency; ws; money]);
       RWordB].

(** ** Exceptions *)

Inductive exn : Type := ValueError | IndexError.

(** A computation that returns a value or raises. *)
Definition result (A : Type) : Type := (exn + A)%type.

Definition ret {A : Type} (a : A) : result A := inr a.
Definition raise {A : Type} (e : exn) : result A := inl e.
Definition bind {A B : Type} (m : result A) (k : A -> result B) : result B :=
  match m with
  | inl e => inl e
  | inr a => k a
  end.

Notation "x <- m ;; k" := (bind m (fun x => k))
  (at level 61, m at next level, right associativity).

(** [try: body / except ValueError: handler]; other exceptions go through. *)
Definition try_except_ValueError {A : Type} (body handler : result A)
    : result A :=
  match body with
  | inl ValueError => handler
  | other => other
  end.

(** A [for] loop that threads an accumulator and may raise. *)
Fixpoint for_each {A B : Type} (xs : list A) (acc : B)
    (body : B -> A -> result B) : result B :=
  match xs with
  | [] => ret acc
  | x :: xs' => acc' <- body acc x ;; for_each xs' acc' body
  end.

(** [xs[0]]. *)
Definition index0 {A : Type} (xs : list A) : result A :=
  match xs with
  | x :: _ => ret x
  | [] => raise IndexError
  end.

(** ** Floats *)

(** A Python [float] is an IEEE 754 binary64 number. *)
Definition prec : Z := 53.
Definition emax : Z := 1024.
Definition float : Type := spec_float.

Definition fadd : float -> float -> float := SFadd prec emax.
Definition fsub : float -> float -> float := SFsub prec emax.
Definition flt : float -> float -> bool := SFltb.
Definition fle : float -> float -> bool := SFleb.
Definition feq : float -> float -> bool := SFeqb.
Definition fzero : float := S754_zero false.

(** The binary64 number nearest to [n / d] (ties to even), with the sign
    [neg]: what [strtod] returns for a decimal numeral. *)
Definition float_of_ratio (neg : bool) (n : Z) (d : positive) : float :=
  match n with
  | Zpos _ =>
      let '(mz, ez, lz) := SFdiv_core_binary prec emax n 0 (Zpos d) 0 in
      binary_round_aux prec emax neg mz ez lz
  | _ => S754_zero neg
  end.

(** [float(0)], the only [int] the parser ever adds to a [float]. *)
Definition float_of_int (z : Z) : float := binary_normalize prec emax z 0 false.

(** The float nearest to [n] hundredths: the literal [45.67] is
    [cents 4567]. *)
Definition cents (n : Z) : float := float_of_ratio false n 100.

(** The float literals of the source. *)
Definition lit_0_01 : float := cents 1.              (* 0.01 *)
Definition lit_99999_99 : float := cents 9999999.    (* 99999.99 *)

(** [round(x, 2)] on a float: the exact value of [x] is rounded to two
    decimals, ties to even ([_Py_dg_dtoa], mode 3), and the decimal is
    read back ([_Py_dg_strtod]).  Zeros, infinities and NaN round to
    themselves.  For two digits the read-back cannot overflow: a finite
    binary64 number above [2^53] is an integer. *)
Definition round_half_even (a : Z) (b : positive) : Z :=
  let (q, r) := Z.div_eucl a (Zpos b) in
  match 2 * r ?= Zpos b with
  | Lt => q
  | Gt => q + 1
  | Eq => if Z.even q then q else q + 1
  end.

Definition hundredths (m : positive) (e : Z) : Z :=
  match e with
  | Zneg k => round_half_even (Zpos m * 100) (2 ^ k)%positive
  | _ => Zpos m * 100 * 2 ^ e
  end.

Definition round2 (x : float) : float :=
  match x with
  | S754_finite s m e => float_of_ratio s (hundredths m e) 100
  | _ => x
  end.

(** The numbers of the parser: the [int] literal [0] and floats. *)
Inductive number : Type :=
| Int (z : Z)
| Float (f : float).

(** [n + f] for a float [f] is a float. *)
Definition add_float (n : number) (f : float) : float :=
  match n with
  | Int z => fadd (float_of_int z) f
  | Float g => fadd g f
  end.

(** [round(n, 2)]: an [int] rounds to itself. *)
Definition round2_number (n : number) : number :=
  match n with
  | Int z => Int z
  | Float f => Float (round2 f)
  end.

(** [sum(prices)]: from the [int] 0, left to right, as the language
    reference defines it.  (CPython from 3.12 on compensates the rounding
    errors of a float sum; for the sums of the worked examples below,
    which are exact or have two terms, the result is the same.) *)
Definition py_sum (prices : list float) : number :=
  fold_left (fun acc p => Float (add_float acc p)) prices (Int 0).

(** [set(l)] keeps one of each value; [sorted(_, reverse=True)] orders
    them with [<] alone, stably.  The values are pairwise different, so
    the order in which the set is walked does not show in the result. *)
Fixpoint py_set (l : list float) : list float :=
  match l with
  | [] => []
  | x :: l' => x :: filter (fun y => negb (feq x y)) (py_set l')
  end.

Fixpoint insert_desc (x : float) (l : list float) : list float :=
  match l with
  | [] => [x]
  | y :: l' => if flt x y then y :: insert_desc x l' else x :: l
  end.

Definition sorted_reverse (l : list float) : list float :=
  fold_right insert_desc [] l.

(** ** String methods *)

(** [s.replace(c, '')] for a one-character [c]. *)
Definition remove_char (c : char) (s : text) : text :=
  filter (fun x => negb (x =? c)) s.

Fixpoint lstrip (s : text) : text :=
  match s with
  | c :: s' => if is_space c then lstrip s' else s
  | [] => []
  end.

(** [s.strip()]. *)
Definition strip (s : text) : text := rev (lstrip (rev (lstrip s))).

(** [s.split('\n')]. *)
Fixpoint split_lines (s : text) : list text :=
  match s with
  | [] => [[]]
  | c :: s' =>
      if c =? NL then [] :: split_lines s'
      else match split_lines s' with
           | l :: ls => (c :: l) :: ls
           | [] => [[c]]
           end
  end.

(** ** [float(str)] *)

Section FloatOfStr.
Variable db : unicode_db.

(** [_PyUnicode_TransformDecimalAndSpaceToASCII]: beyond ASCII, white
    space becomes a blank, a decimal digit its ASCII digit, anything
    else a question mark. *)
Definition to_ascii (c : char) : char :=
  if c <? 128 then c
  else if is_space c then 32
  else match uni_decimal db c with
       | Some d => 48 + d
       | None => 63
       end.

(** [Py_ISSPACE]. *)
Definition is_ascii_space (c : char) : bool :=
  ((9 <=? c) && (c <=? 13)) || (c =? 32).

Fixpoint lstrip_ascii (s : text) : text :=
  match s with
  | c :: s' => if is_ascii_space c then lstrip_ascii s' else s
  | [] => []
  end.

(** The value of a run of ASCII digits, [None] on any other character. *)
Fixpoint digits_value (acc : Z) (s : text) : option Z :=
  match s with
  | [] => Some acc
  | c :: s' =>
      if (48 <=? c) && (c <=? 57)
      then digits_value (10 * acc + (c - 48)) s'
      else None
  end.

(** The text before the first dot, and the text after it when there is
    one. *)
Fixpoint split_dot (s : text) : text * option text :=
  match s with
  | [] => ([], None)
  | c :: s' =>
      if c =? DOT then ([], Some s')
      else let (a, b) := split_dot s' in (c :: a, b)
  end.

Definition is_nil {A : Type} (l : list A) : bool :=
  match l with [] => true | _ => false end.

(** [float(s)] for the plain decimal numerals: optional white space
    around, an optional sign, digits with at most one dot and at least
    one digit.  The other numerals that [float] reads (an exponent,
    underscores, [inf], [nan]) need a letter or an underscore, which no
    text the extractors pass on contains ([money_text], [amount_text]
    and [item_price_text] below); all else is a [ValueError]. *)
Definition float_of_str (s : text) : result float :=
  let s := rev (lstrip_ascii (rev (lstrip_ascii (map to_ascii s)))) in
  let '(neg, body) :=
    match s with
    | c :: s' => if c =? 45 then (true, s')
                 else if c =? 43 then (false, s') else (false, s)
    | [] => (false, s)
    end in
  let '(ip, fp) :=
    match split_dot body with
    | (ip, Some fp) => (ip, fp)
    | (ip, None) => (ip, [])
    end in
  if is_nil ip && is_nil fp then raise ValueError
  else match digits_value 0 (ip ++ fp) with
       | Some n => ret (float_of_ratio neg n (Z.to_pos (10 ^ Z.of_nat (length fp))))
       | None => raise ValueError
       end.
End FloatOfStr.

(** ** The receipt record *)

Record item : Type := { name : text; price : float }.

Record receipt : Type := {
  merchant : text;
  date : text;
  total : float;
  tax : float;
  subtotal : number;
  items : list item;
  category : text
}.

(** The clock read: [datetime.now()], of which the parser prints the day. *)
Record datetime : Type := { year : Z; month : Z; day : Z }.

(** [width] decimal digits of [n], most significant first. *)
Fixpoint zero_padded (width : nat) (n : Z) : text :=
  match width with
  | O => []
  | S w => zero_padded w (n / 10) ++ [48 + n mod 10]
  end.

(** [now.strftime("%Y-%m-%d")]. *)
Definition strftime_ymd (now : datetime) : text :=
  zero_padded 4 (year now) ++ HYPHEN :: zero_padded 2 (month now)
    ++ HYPHEN :: zero_padded 2 (day now).

(** ** The extractors *)

Section Parser.
Variable db : unicode_db.

Definition extract_amounts_from_text (txt : text) : result (list float) :=
  amounts <-
    for_each amount_patterns [] (fun amounts pattern =>
      let matches := findall1 db pattern txt in
      for_each matches amounts (fun amounts mtch =>
        try_except_ValueError
          (let clean_match := remove_char COMMA mtch in
           amount <- float_of_str db clean_match ;;
           if fle lit_0_01 amount && fle amount lit_99999_99
           then ret (amounts ++ [amount])
           else ret amounts)
          (ret amounts))) ;;
  ret (sorted_reverse (py_set amounts)).

Fixpoint first_tax (patterns : list regex) (txt : text) : result float :=
  match patterns with
  | [] => ret fzero
  | pattern :: patterns' =>
      match findall1 db pattern txt with
      | [] => first_tax patterns' txt
      | matches =>
          try_except_ValueError
            (m <- index0 matches ;; float_of_str db (remove_char COMMA m))
            (first_tax patterns' txt)
      end
  end.

Definition extract_tax_from_text (txt : text) : result float :=
  first_tax tax_patterns txt.

Definition extract_items_from_text (txt : text) : result (list item) :=
  let matches := findall2 db item_pattern txt in
  for_each matches [] (fun items mtch =>
    let name := strip (fst mtch) in
    let price_str :=
      strip (remove_char COMMA (remove_char DOLLAR (snd mtch))) in
    try_except_ValueError
      (price <- float_of_str db price_str ;;
       if flt fzero price && (1 <? length name)%nat
       then ret (items ++ [{| name := name; price := price |}])
       else ret items)
      (ret items)).

Definition parse_receipt_with_fallback (now : datetime) (txt : text)
    : result receipt :=
  amounts <- extract_amounts_from_text txt ;;
  tax <- extract_tax_from_text txt ;;
  items <- extract_items_from_text txt ;;
  let item_total :=
    match items with
    | [] => Int 0
    | _ => py_sum (map price items)
    end in
  total <-
    match amounts with
    | [] => ret (add_float item_total tax)
    | _ => index0 amounts
    end ;;
  let subtotal :=
    if flt fzero tax then Float (fsub total tax) else item_total in
  let lines :=
    map strip (filter (fun line => negb (is_nil (strip line)))
                      (split_lines txt)) in
  merchant <-
    match lines with
    | [] => ret (str "Unknown")
    | _ => index0 lines
    end ;;
  ret {| merchant := merchant;
         date := strftime_ymd now;
         total := round2 total;
         tax := round2 tax;
         subtotal := round2_number subtotal;
         items := firstn 20 items;
         category := str "Other" |}.
End Parser.

(** ** Vocabulary of the statements *)

(** [0.01 <= a <= 99999.99], as the source compares. *)
Definition in_range (a : float) : Prop :=
  fle lit_0_01 a = true /\ fle a lit_99999_99 = true.

(** A candidate amount: a float read from a number of hundredths that
    passed the range test. *)
Definition candidate (a : float) : Prop :=
  in_range a /\ exists n, a = cents n.

(** A positive finite float. *)
Definition pos_finite (x : float) : Prop :=
  match x with
  | S754_finite false _ _ => True
  | _ => False
  end.

(** [b < a]: the order of a list sorted strictly descending. *)
Definition fgt (a b : float) : Prop := flt b a = true.

(** [a != b] for the float comparison of Python. *)
Definition fneq (a b : float) : Prop := feq a b = false.

(** The first match of the first pattern of [patterns] that matches
    anywhere in the text: what the claim about the tax extractor calls
    the first match of the highest-priority pattern. *)
Fixpoint first_match (db : unicode_db) (patterns : list regex) (txt : text)
    : option text :=
  match patterns with
  | [] => None
  | pattern :: patterns' =>
      match findall1 db pattern txt with
      | m :: _ => Some m
      | [] => first_match db patterns' txt
      end
  end.

(** [n] rounds are within the bound [hi] of a repetition. *)
Definition at_most (hi : option nat) (n : nat) : Prop :=
  match hi with
  | Some h => (n <= h)%nat
  | None => True
  end.

(** The words a pattern can take, whatever surrounds them: the language
    of the pattern, with [\b] read as the empty word. *)
Fixpoint lang (db : unicode_db) (r : regex) (w : text) : Prop :=
  match r with
  | REmpty => w = []
  | RChar c => exists a, w = [a] /\ in_class db c a = true
  | RSeq r1 r2 => exists w1 w2, w = w1 ++ w2 /\ lang db r1 w1 /\ lang db r2 w2
  | RAlt r1 r2 => lang db r1 w \/ lang db r2 w
  | RRep r lo hi _ =>
      exists ws, w = concat ws /\ Forall (lang db r) ws
                 /\ (lo <= length ws)%nat /\ at_most hi (length ws)
  | RGroup _ r => lang db r w
  | RWordB => w = []
  end.

(** Every group of the pattern takes only words that satisfy [spec]. *)
Fixpoint grouped (db : unicode_db) (spec : nat -> text -> Prop) (r : regex)
    : Prop :=
  match r with
  | RSeq r1 r2 | RAlt r1 r2 => grouped db spec r1 /\ grouped db spec r2
  | RRep r _ _ _ => grouped db spec r
  | RGroup i r => (forall w, lang db r w -> spec i w) /\ grouped db spec r
  | _ => True
  end.

(** Every match of the pattern closes group [i]. *)
Fixpoint closes (i : nat) (r : regex) : bool :=
  match r with
  | RSeq r1 r2 => closes i r1 || closes i r2
  | RAlt r1 r2 => closes i r1 && closes i r2
  | RRep r lo _ _ => (1 <=? lo)%nat && closes i r
  | RGroup j r => Nat.eqb j i || closes i r
  | _ => false
  end.

(** The groups recorded satisfy [spec]. *)
Definition groups_ok (spec : nat -> text -> Prop) (gs : list (nat * text))
    : Prop :=
  Forall (fun g => spec (fst g) (snd g)) gs.

(** A run of decimal digits. *)
Definition digits (db : unicode_db) (w : text) : Prop :=
  Forall (fun c => is_decimal db c = true) w.

(** The shape of what [\d+\.\d{2}] takes: digits, a dot, two digits. *)
Definition money_text (db : unicode_db) (w : text) : Prop :=
  exists ip fp,
    w = ip ++ DOT :: fp /\ digits db ip /\ digits db fp /\ ip <> []
    /\ length fp = 2%nat.

(** The shape of what the amount patterns take: digits, a dot and two
    digits once the commas are removed. *)
Definition amount_text (db : unicode_db) (w : text) : Prop :=
  money_text db (remove_char COMMA w).

(** The characters of what the price group of the item pattern takes: a
    decimal digit, a dot, white space or a currency sign. *)
Definition price_char (db : unicode_db) (c : char) : Prop :=
  is_decimal db c = true \/ c = DOT \/ is_space c = true
  \/ c = DOLLAR \/ c = POUND \/ c = EURO.

(** An ASCII letter or the underscore: what the numerals with an
    exponent or underscores and the words [inf] and [nan] contain. *)
Definition letter_or_underscore (c : char) : Prop :=
  65 <= c <= 90 \/ 97 <= c <= 122 \/ c = UNDERSCORE.

(** The stripped non-blank lines of a text, as the parser lists them. *)
Definition nonblank_lines (txt : text) : list text :=
  map strip (filter (fun line => negb (is_nil (strip line))) (split_lines txt)).

(** [item_total] of the parser: the sum of the prices, the [int] 0 for no
    item. *)
Definition item_total_of (its : list item) : number :=
  match its with
  | [] => Int 0
  | _ => py_sum (map price its)
  end.

(** [total] of the parser before rounding. *)
Definition total_of (amounts : list float) (its : list item) (tax : float)
    : float :=
  match amounts with
  | a :: _ => a
  | [] => add_float (item_total_of its) tax
  end.

(** [subtotal] of the parser before rounding. *)
Definition subtotal_of (amounts : list float) (its : list item) (tax : float)
    : number :=
  if flt fzero tax then Float (fsub (total_of amounts its tax) tax)
  else item_total_of its.

(** [n >= 0] for a number of the parser. *)
Definition nonneg (n : number) : bool :=
  match n with
  | Int z => 0 <=? z
  | Float f => fle fzero f
  end.

(** The record with another day stamped on it. *)
Definition with_date (d : text) (r : receipt) : receipt :=
  {| merchant := merchant r; date := d; total := total r; tax := tax r;
     subtotal := subtotal r; items := items r; category := category r |}.

(** An item the extractor keeps: positive price, name longer than one. *)
Definition kept (it : item) : Prop :=
  flt fzero (price it) = true /\ (1 < length (name it))%nat.

(** A float that is zero, positive or plus infinity, written with the
    sign bit [s]: what rounding a magnitude under the sign [s] gives. *)
Definition signed (s : bool) (x : float) : Prop :=
  match x with
  | S754_zero s' | S754_infinity s' | S754_finite s' _ _ => s' = s
  | S754_nan => False
  end.

(** Texts and a clock read for the worked examples. *)
Definition receipt_with_total : text :=
  str "Total: $45.67" ++ NL :: str "Tax $3.00" ++ NL :: str "Widget $10.00".
Definition two_items : text := str "Pen $2.50" ++ NL :: str "Book $12.00".
Definition tax_above_total : text := str "tax5.00 $1.00".
Definition inexact_sum : text := str "Pen 1000.10" ++ NL :: str "Ink 1000.20".
Definition pound_item : text := str "Tea " ++ POUND :: str "3.00".
Definition tax_both_ways : text := str "$5.00 tax 2.00".
Definition twenty_one_items : text :=
  concat (List.repeat (str "Ab 1000.00" ++ [NL]) 21).
Definition a_day : datetime := {| year := 2025; month := 7; day := 14 |}.

(** What a successful repetition from [st] guarantees of the cursor [st']
    its continuation was entered at: the groups keep to [spec], group [i]
    stays closed, and between [lo] and [hi] words of the body were
    read. *)
Definition follows (db : unicode_db) (spec : nat -> text -> Prop) (i : nat)
    (r : regex) (lo : nat) (hi : option nat) (st st' : mstate) : Prop :=
  groups_ok spec (groups st')
  /\ (In i (map fst (groups st)) -> In i (map fst (groups st')))
  /\ exists ws, rest st = concat ws ++ rest st'
                /\ Forall (lang db r) ws
                /\ (lo <= length ws)%nat /\ at_most hi (length ws).

(** Case analysis for the order of positive finite floats: by exponent,
    then by mantissa. *)
Ltac float_order :=
  repeat match goal with
         | x : float |- _ =>
             destruct x as [[]|[]| |[] ? ?]; simpl in *; try contradiction
         end;
  unfold fgt, fneq, flt, fle, feq, SFltb, SFleb, SFeqb, SFcompare in *;
  repeat match goal with
         | H : context [Pos.compare_cont Eq ?a ?b] |- _ =>
             change (Pos.compare_cont Eq a b) with (Pos.compare a b) in H
         | |- context [Pos.compare_cont Eq ?a ?b] =>
             change (Pos.compare_cont Eq a b) with (Pos.compare a b)
         end;
  repeat match goal with
         | H : context [(?a ?= ?b)%Z] |- _ =>
             destruct (Z.compare_spec a b); subst
         | |- context [(?a ?= ?b)%Z] =>
             destruct (Z.compare_spec a b); subst
         end;
  repeat match goal with
         | H : context [(?a ?= ?b)%positive] |- _ =>
             destruct (Pos.compare_spec a b); subst
         | |- context [(?a ?= ?b)%positive] =>
             destruct (Pos.compare_spec a b); subst
         end;
  try discriminate; try reflexivity; try lia.

(** ** Further vocabulary of the parser *)

(** Every word of the pattern holds a decimal digit: a sufficient test on
    the shape of the pattern. *)
Fixpoint needs_digit (r : regex) : bool :=
  match r with
  | RChar CDigit => true
  | RSeq r1 r2 => needs_digit r1 || needs_digit r2
  | RAlt r1 r2 => needs_digit r1 && needs_digit r2
  | RRep r lo _ _ => (1 <=? lo)%nat && needs_digit r
  | RGroup _ r => needs_digit r
  | _ => false
  end.

Definition has_digit (db : unicode_db) (w : text) : Prop :=
  Exists (fun c => is_decimal db c = true) w.

(** A text that neither is empty nor starts with white space, or is
    empty. *)
Definition starts_plain (s : text) : Prop :=
  match s with c :: _ => is_space c = false | [] => True end.

(** A line of white space only. *)
Definition blank (line : text) : Prop := strip line = [].

(** What one match of the item pattern adds to the items: nothing when
    [float] raises on the price text, or when the price or the name
    fails the test. *)
Definition item_of (db : unicode_db) (mtch : text * text) : list item :=
  let name := strip (fst mtch) in
  let price_str :=
    strip (remove_char COMMA (remove_char DOLLAR (snd mtch))) in
  match float_of_str db price_str with
  | inr price =>
      if flt fzero price && (1 <? length name)%nat
      then [{| name := name; price := price |}]
      else []
  | inl _ => []
  end.


(** What one match adds to the amounts collected. *)
Definition amount_of (db : unicode_db) (mtch : text) : list float :=
  match float_of_str db (remove_char COMMA mtch) with
  | inr amount =>
      if fle lit_0_01 amount && fle amount lit_99999_99 then [amount] else []
  | inl _ => []
  end.



(** More texts for the worked examples. *)
Definition overflowing_tax : text :=
  str "tax " ++ List.repeat 57 310 ++ str ".00".
Definition pound_between_items : text :=
  str "Pen 2.00" ++ NL :: str "Tea " ++ POUND :: str "3.00"
  ++ NL :: str "Ink 4.00".
Definition thanks : text := str "Thank you!" ++ NL :: str "  Come again".

(** ** Bytes *)

Definition bytes : Type := list Byte.byte.

Definition byte_value (b : Byte.byte) : Z := Z.of_N (Byte.to_N b).

(** The byte of value [z mod 256]. *)
Definition byte_of (z : Z) : Byte.byte :=
  match Byte.of_N (Z.to_N (z mod 256)) with
  | Some b => b
  | None => Byte.x00
  end.

(** [b.hex()]: two lower-case hexadecimal digits for each byte. *)
Definition hex_digit (n : Z) : char := if n <? 10 then 48 + n else 87 + n.

Definition hex (b : bytes) : text :=
  flat_map (fun x => [hex_digit (byte_value x / 16);
                      hex_digit (byte_value x mod 16)]) b.

(** Exceptions of the application code. *)
Inductive exception : Type :=
| UnicodeEncodeError
| AttributeError
| TypeError
| KeyError
| OverflowError
| ServiceError.

Definition outcome (A : Type) : Type := (exception + A)%type.

Definition and_then {A B : Type} (m : outcome A) (k : A -> outcome B)
    : outcome B :=
  match m with
  | inl e => inl e
  | inr a => k a
  end.

Notation "x <~ m ;; k" := (and_then m (fun x => k))
  (at level 61, m at next level, right associativity).

(** [s.encode()]: UTF-8; a surrogate cannot be encoded. *)
Definition encode_char (c : char) : outcome bytes :=
  if (0 <=? c) && (c <? 128) then inr [byte_of c]
  else if (128 <=? c) && (c <? 2048)
  then inr [byte_of (192 + c / 64); byte_of (128 + c mod 64)]
  else if ((2048 <=? c) && (c <? 55296)) || ((57344 <=? c) && (c <? 65536))
  then inr [byte_of (224 + c / 4096); byte_of (128 + (c / 64) mod 64);
            byte_of (128 + c mod 64)]
  else if (65536 <=? c) && (c <? 1114112)
  then inr [byte_of (240 + c / 262144); byte_of (128 + (c / 4096) mod 64);
            byte_of (128 + (c / 64) mod 64); byte_of (128 + c mod 64)]
  else inl UnicodeEncodeError.

Fixpoint encode (s : text) : outcome bytes :=
  match s with
  | [] => inr []
  | c :: s' =>
      b <~ encode_char c ;;
      bs <~ encode s' ;;
      inr (b ++ bs)
  end.

(** ** SHA-256 (FIPS 180-4), HMAC (RFC 2104) and PBKDF2 (RFC 8018) *)

Definition wrap (z : Z) : Z := Z.land z 0xffffffff.

Definition rotr (n x : Z) : Z :=
  Z.lor (Z.shiftr x n) (wrap (Z.shiftl x (32 - n))).

Definition Ch (x y z : Z) : Z :=
  Z.lxor (Z.land x y) (Z.land (Z.lxor x 0xffffffff) z).
Definition Maj (x y z : Z) : Z :=
  Z.lxor (Z.lxor (Z.land x y) (Z.land x z)) (Z.land y z).
Definition Sigma0 (x : Z) : Z :=
  Z.lxor (Z.lxor (rotr 2 x) (rotr 13 x)) (rotr 22 x).
Definition Sigma1 (x : Z) : Z :=
  Z.lxor (Z.lxor (rotr 6 x) (rotr 11 x)) (rotr 25 x).
Definition sigma0 (x : Z) : Z :=
  Z.lxor (Z.lxor (rotr 7 x) (rotr 18 x)) (Z.shiftr x 3).
Definition sigma1 (x : Z) : Z :=
  Z.lxor (Z.lxor (rotr 17 x) (rotr 19 x)) (Z.shiftr x 10).

(** The constants of the standard are fractional parts of roots of the
    first primes.  The primes, by trial division: *)
Definition is_prime (p : Z) : bool :=
  (1 <? p)
  && forallb (fun d => negb (p mod d =? 0))
       (map Z.of_nat (List.seq 2 (Z.to_nat p - 2))).

Definition primes (n : nat) : list Z :=
  firstn n (filter is_prime (map Z.of_nat (List.seq 2 310))).

(** The greatest [r] below [2 ^ bits] with [r ^ k <= n], bit by bit. *)
Fixpoint root_bits (k n : Z) (bits : nat) (r : Z) : Z :=
  match bits with
  | O => r
  | S b =>
      let r' := r + 2 ^ Z.of_nat b in
      root_bits k n b (if r' ^ k <=? n then r' else r)
  end.

(** The first 32 bits of the fractional part of the [k]-th root of [p]. *)
Definition root_fraction (k p : Z) : Z :=
  wrap (root_bits k (p * 2 ^ (32 * k)) 36 0).

(** The round constants: cube roots of the first 64 primes. *)
Definition sha256_K : list Z :=
  Eval vm_compute in map (root_fraction 3) (primes 64).

Record sha256_state : Type := {
  sa : Z; sb : Z; sc : Z; sd : Z; se : Z; sf : Z; sg : Z; sh : Z
}.

(** The initial hash value: square roots of the first 8 primes. *)
Definition sha256_init : sha256_state :=
  Eval vm_compute in
    match map (root_fraction 2) (primes 8) with
    | [a; b; c; d; e; f; g; h] =>
        {| sa := a; sb := b; sc := c; sd := d;
           se := e; sf := f; sg := g; sh := h |}
    | _ => {| sa := 0; sb := 0; sc := 0; sd := 0;
              se := 0; sf := 0; sg := 0; sh := 0 |}
    end.

Definition sha256_round (s : sha256_state) (k w : Z) : sha256_state :=
  let t1 := sh s + Sigma1 (se s) + Ch (se s) (sf s) (sg s) + k + w in
  let t2 := Sigma0 (sa s) + Maj (sa s) (sb s) (sc s) in
  {| sa := wrap (t1 + t2); sb := sa s; sc := sb s; sd := sc s;
     se := wrap (sd s + t1); sf := se s; sg := sf s; sh := sg s |}.

(** The 64 rounds over one block; [w] holds the sixteen words of the
    message schedule from the current round on. *)
Fixpoint sha256_rounds (ks w : list Z) (s : sha256_state) : sha256_state :=
  match ks, w with
  | k :: ks', w0 :: w' =>
      let next :=
        wrap (sigma1 (nth 14 w 0) + nth 9 w 0 + sigma0 (nth 1 w 0) + w0) in
      sha256_rounds ks' (w' ++ [next]) (sha256_round s k w0)
  | _, _ => s
  end.

(** Big-endian 32-bit words of a block. *)
Fixpoint be_words (b : list Z) : list Z :=
  match b with
  | b0 :: b1 :: b2 :: b3 :: b' =>
      (b0 * 2 ^ 24 + b1 * 2 ^ 16 + b2 * 2 ^ 8 + b3) :: be_words b'
  | _ => []
  end.

Definition sha256_block (s : sha256_state) (block : bytes) : sha256_state :=
  let t := sha256_rounds sha256_K (be_words (map byte_value block)) s in
  {| sa := wrap (sa s + sa t); sb := wrap (sb s + sb t);
     sc := wrap (sc s + sc t); sd := wrap (sd s + sd t);
     se := wrap (se s + se t); sf := wrap (sf s + sf t);
     sg := wrap (sg s + sg t); sh := wrap (sh s + sh t) |}.

(** The [n] low bytes of [z], most significant first. *)
Fixpoint be_bytes (n : nat) (z : Z) : bytes :=
  match n with
  | O => []
  | S n' => be_bytes n' (z / 256) ++ [byte_of z]
  end.

Definition sha256_pad (m : bytes) : bytes :=
  let len := Z.of_nat (length m) in
  m ++ [Byte.x80] ++ List.repeat Byte.x00 (Z.to_nat ((- (len + 9)) mod 64))
    ++ be_bytes 8 (8 * len).

Fixpoint sha256_blocks (fuel : nat) (s : sha256_state) (m : bytes)
    : sha256_state :=
  match fuel, m with
  | S fuel', _ :: _ =>
      sha256_blocks fuel' (sha256_block s (firstn 64 m)) (skipn 64 m)
  | _, _ => s
  end.

Definition sha256 (m : bytes) : bytes :=
  let p := sha256_pad m in
  let s := sha256_blocks (length p) sha256_init p in
  be_bytes 4 (sa s) ++ be_bytes 4 (sb s) ++ be_bytes 4 (sc s)
    ++ be_bytes 4 (sd s) ++ be_bytes 4 (se s) ++ be_bytes 4 (sf s)
    ++ be_bytes 4 (sg s) ++ be_bytes 4 (sh s).

Definition xor_bytes (a b : bytes) : bytes :=
  map (fun p => byte_of (Z.lxor (byte_value (fst p)) (byte_value (snd p))))
      (combine a b).

Definition hmac_sha256 (key msg : bytes) : bytes :=
  let key := if (64 <? length key)%nat then sha256 key else key in
  let key := key ++ List.repeat Byte.x00 (64 - length key) in
  let ipad := xor_bytes key (List.repeat Byte.x36 64) in
  let opad := xor_bytes key (List.repeat Byte.x5c 64) in
  sha256 (opad ++ sha256 (ipad ++ msg)).

(** [hashlib.pbkdf2_hmac('sha256', password, salt, iterations)]: the key
    is as long as the digest, so it is the first block of PBKDF2. *)
Definition pbkdf2_hmac_sha256 (password salt : bytes) (iterations : positive)
    : bytes :=
  let u1 := hmac_sha256 password (salt ++ be_bytes 4 1) in
  snd (N.iter (Pos.pred_N iterations)
         (fun ut => let u := hmac_sha256 password (fst ut) in
                    (u, xor_bytes (snd ut) u))
         (u1, u1)).


(** ** Passwords *)

(** The randomness of the operating system: [os.urandom]. *)
Record os_random : Type := {
  urandom : nat -> bytes;
  urandom_length : forall n, length (urandom n) = n
}.

(** [secrets.token_hex(nbytes)]. *)
Definition token_hex (os : os_random) (nbytes : nat) : text :=
  hex (urandom os nbytes).

(** [a == b] on two [str]. *)
Fixpoint str_eqb (a b : text) : bool :=
  match a, b with
  | [], [] => true
  | x :: a', y :: b' => (x =? y) && str_eqb a' b'
  | _, _ => false
  end.

Definition hash_password (os : os_random) (password : text) : outcome text :=
  let salt := token_hex os 16 in
  p <~ encode password ;;
  s <~ encode salt ;;
  let pwdhash := pbkdf2_hmac_sha256 p s 100000 in
  inr (salt ++ hex pwdhash).

Definition verify_password (stored_password provided_password : text)
    : outcome bool :=
  let salt := firstn 32 stored_password in
  let stored_hash := skipn 32 stored_password in
  p <~ encode provided_password ;;
  s <~ encode salt ;;
  let pwdhash := pbkdf2_hmac_sha256 p s 100000 in
  inr (str_eqb (hex pwdhash) stored_hash).

(** A Unicode scalar value: a code point that is not a surrogate. *)
Definition scalar (c : char) : Prop :=
  0 <= c < 55296 \/ 57344 <= c < 1114112.

(** A lower-case hexadecimal digit. *)
Definition hex_char (c : char) : Prop := 48 <= c <= 57 \/ 97 <= c <= 102.

(** ** Python values *)

(** The values of JSON documents, as [json.loads], a request body, the
    session and a Firestore document hold them. *)
Inductive value : Type :=
| VNone
| VBool (b : bool)
| VInt (z : Z)
| VFloat (f : float)
| VStr (s : text)
| VList (l : list value)
| VDict (d : list (text * value)).

(** A [dict] with [str] keys, in insertion order. *)
Definition dict : Type := list (text * value).

Definition lookup (key : text) (d : dict) : option value :=
  option_map snd (find (fun kv => str_eqb (fst kv) key) d).

(** [x.get(key, default)]: only a [dict] has the method. *)
Definition py_get (x : value) (key : text) (default : value) : outcome value :=
  match x with
  | VDict d =>
      inr (match lookup key d with Some v => v | None => default end)
  | _ => inl AttributeError
  end.

(** [float(z)] for an [int]: rounded to nearest, [OverflowError] beyond
    the range of binary64. *)
Definition float_of_int_checked (z : Z) : outcome float :=
  match float_of_int z with
  | S754_infinity _ => inl OverflowError
  | f => inr f
  end.

Definition int_of_bool (b : bool) : Z := if b then 1 else 0.

(** [acc + v] for a number [acc]: [bool] counts as [int]; an [int] added
    to a [float] is converted first. *)
Definition py_add (acc : number) (v : value) : outcome number :=
  match acc, v with
  | Int a, VInt b => inr (Int (a + b))
  | Int a, VBool b => inr (Int (a + int_of_bool b))
  | Int a, VFloat f =>
      x <~ float_of_int_checked a ;; inr (Float (fadd x f))
  | Float x, VInt b =>
      y <~ float_of_int_checked b ;; inr (Float (fadd x y))
  | Float x, VBool b =>
      y <~ float_of_int_checked (int_of_bool b) ;; inr (Float (fadd x y))
  | Float x, VFloat f => inr (Float (fadd x f))
  | _, _ => inl TypeError
  end.

(** [a / n] for a positive [int] [n]: the quotient of two [int] is
    rounded once, [OverflowError] beyond the range of binary64. *)
Definition py_truediv (a : number) (n : positive) : outcome number :=
  match a with
  | Int z =>
      match float_of_ratio (z <? 0) (Z.abs z) n with
      | S754_infinity _ => inl OverflowError
      | q => inr (Float q)
      end
  | Float x =>
      y <~ float_of_int_checked (Zpos n) ;;
      inr (Float (SFdiv prec emax x y))
  end.

(** The exact value of a finite float is the [int] [z]. *)
Definition float_is_int (f : float) (z : Z) : bool :=
  match f with
  | S754_zero _ => z =? 0
  | S754_finite s m e =>
      let v := if s then Zneg m else Zpos m in
      match e with
      | Zneg k => v =? z * 2 ^ Zpos k
      | _ => v * 2 ^ e =? z
      end
  | _ => false
  end.

(** [a == b] on the values that can be keys of a [dict]: numbers compare
    by value across [bool], [int] and [float]; NaN equals nothing. *)
Definition key_eqb (a b : value) : bool :=
  match a, b with
  | VNone, VNone => true
  | VStr x, VStr y => str_eqb x y
  | VBool x, VBool y => Bool.eqb x y
  | VBool x, VInt y | VInt y, VBool x => int_of_bool x =? y
  | VInt x, VInt y => x =? y
  | VBool x, VFloat f | VFloat f, VBool x => float_is_int f (int_of_bool x)
  | VInt x, VFloat f | VFloat f, VInt x => float_is_int f x
  | VFloat f, VFloat g => feq f g
  | _, _ => false
  end.

Definition hashable (v : value) : bool :=
  match v with
  | VList _ | VDict _ => false
  | _ => true
  end.

(** A [dict] of counts keyed by values, in insertion order. *)
Definition counts : Type := list (value * Z).

(** [d.get(key, 0)]. *)
Definition count_of (key : value) (d : counts) : outcome Z :=
  if hashable key
  then inr (match find (fun kv => key_eqb (fst kv) key) d with
            | Some kv => snd kv
            | None => 0
            end)
  else inl TypeError.

(** [d[key] = n]: an entry that is there keeps its key and its place. *)
Fixpoint set_count (key : value) (n : Z) (d : counts) : counts :=
  match d with
  | [] => [(key, n)]
  | (k, m) :: d' =>
      if key_eqb k key then (k, n) :: d' else (k, m) :: set_count key n d'
  end.

(** [max(d.items(), key=lambda x: x[1], default=default)]: the first
    entry with the greatest count. *)
Definition max_by_count (d : counts) (default : value * Z) : value * Z :=
  match d with
  | [] => default
  | first :: d' =>
      fold_left (fun best kv => if snd best <? snd kv then kv else best)
                d' first
  end.

(** ** The statistics of a user's receipts *)

Record stats : Type := {
  total_receipts : Z;
  total_spent : number;
  top_category : value;
  avg_spend : number
}.

(** A loop over a list that threads an accumulator and may raise. *)
Fixpoint loop {A B : Type} (xs : list A) (acc : B)
    (body : B -> A -> outcome B) : outcome B :=
  match xs with
  | [] => inr acc
  | x :: xs' => acc' <~ body acc x ;; loop xs' acc' body
  end.

(** [receipt.get('parsedData', {}).get(key, default)]. *)
Definition parsed_field (receipt : value) (key : text) (default : value)
    : outcome value :=
  parsed <~ py_get receipt (str "parsedData") (VDict []) ;;
  py_get parsed key default.

(** The body of [get_stats] between the read of the documents and the
    response. *)
Definition receipt_stats (receipts : list value) : outcome stats :=
  let total_receipts := Z.of_nat (length receipts) in
  total_spent <~
    loop receipts (Int 0) (fun acc receipt =>
      total <~ parsed_field receipt (str "total") (VInt 0) ;;
      py_add acc total) ;;
  category_counts <~
    loop receipts [] (fun category_counts receipt =>
      category <~ parsed_field receipt (str "category")
                    (VStr (str "Uncategorized")) ;;
      n <~ count_of category category_counts ;;
      inr (set_count category (n + 1) category_counts)) ;;
  let top_category :=
    fst (max_by_count category_counts (VStr (str "None"), 0)) in
  avg_spend <~
    match total_receipts with
    | Zpos n => py_truediv total_spent n
    | _ => inr (Int 0)
    end ;;
  inr {| total_receipts := total_receipts;
         total_spent := total_spent;
         top_category := top_category;
         avg_spend := avg_spend |}.

(** The code points of a UTF-8 literal of the source. *)
Fixpoint utf8_decode (b : list Z) : text :=
  match b with
  | [] => []
  | b0 :: r0 =>
      if b0 <? 128 then b0 :: utf8_decode r0
      else match r0 with
           | [] => []
           | b1 :: r1 =>
               if b0 <? 224
               then ((b0 - 192) * 64 + (b1 - 128)) :: utf8_decode r1
               else match r1 with
                    | [] => []
                    | b2 :: r2 =>
                        if b0 <? 240
                        then ((b0 - 224) * 4096 + (b1 - 128) * 64
                              + (b2 - 128)) :: utf8_decode r2
                        else match r2 with
                             | [] => []
                             | b3 :: r3 =>
                                 ((b0 - 240) * 262144 + (b1 - 128) * 4096
                                  + (b2 - 128) * 64 + (b3 - 128))
                                   :: utf8_decode r3
                             end
                    end
           end
  end.

Definition ustr (s : string) : text := utf8_decode (str s).

(** [LANGUAGES]: the supported languages. *)
Definition LANGUAGES : list (text * dict) :=
  [ (str "en", [(str "name", VStr (str "English"));
            (str "flag", VStr (ustr "🇬🇧"))]);
    (str "te", [(str "name", VStr (ustr "తెలుగు"));
            (str "flag", VStr (ustr "🇮🇳"))]);
    (str "kn", [(str "name", VStr (ustr "ಕನ್ನಡ"));
            (str "flag", VStr (ustr "🇮🇳"))]) ].

(** The table [texts] of [get_language_text]. *)
Definition texts_en : dict :=
  [
    (str "dashboard_title", VStr (ustr "🧾 Raseed Dashboard"));
    (str "dashboard_subtitle", VStr (str "AI-powered receipt processing and analysis"));
    (str "upload_receipt", VStr (ustr "📸 Upload Receipt"));
    (str "upload_text", VStr (str "Click to upload or drag and drop your receipt image"));
    (str "upload_supported", VStr (str "Supports JPG, PNG, GIF"));
    (str "process_btn", VStr (str "Process Receipt"));
    (str "ai_assistant", VStr (ustr "🤖 AI Assistant"));
    (str "ai_placeholder", VStr (str "Ask about your spending, receipts, or get financial insights..."));
    (str "ask_ai", VStr (str "Ask AI"));
    (str "ai_welcome", VStr (str "Welcome to Raseed AI Assistant! Upload some receipts and ask me questions about your spending patterns, favorite stores, or get financial insights."));
    (str "your_receipts", VStr (ustr "📋 Your Receipts"));
    (str "refresh_receipts", VStr (ustr "🔄 Refresh Receipts"));
    (str "no_receipts", VStr (str "No receipts found. Upload your first receipt!"));
    (str "logout", VStr (str "Logout"));
    (str "total_receipts", VStr (str "Total Receipts"));
    (str "total_spent", VStr (str "Total Spent"));
    (str "top_category", VStr (str "Top Category"));
    (str "avg_spend", VStr (str "Avg. per Receipt"));
    (str "create_wallet", VStr (ustr "📱 Create Wallet Pass"));
    (str "processing", VStr (str "Processing your receipt..."));
    (str "thinking", VStr (str "AI is thinking..."));
    (str "loading", VStr (str "Loading receipts..."));
    (str "receipt_processed", VStr (ustr "✅ Receipt Processed Successfully!"));
    (str "error_processing", VStr (ustr "❌ Error Processing Receipt")) ].

Definition texts_te : dict :=
  [
    (str "dashboard_title", VStr (ustr "🧾 రసీద్ డాష్బోర్డ్"));
    (str "dashboard_subtitle", VStr (ustr "AI-శక్తితో రసీద్ ప్రాసెసింగ్ మరియు విశ్లేషణ"));
    (str "upload_receipt", VStr (ustr "📸 రసీద్ అప్లోడ్ చేయండి"));
    (str "upload_text", VStr (ustr "రసీద్ ఇమేజ్‌ను అప్లోడ్ చేయడానికి క్లిక్ చేయండి లేదా డ్రాగ్ చేసి డ్రాప్ చేయండి"));
    (str "upload_supported", VStr (ustr "JPG, PNG, GIF లను మద్దతు ఇస్తుంది"));
    (str "process_btn", VStr (ustr "రసీద్ ప్రాసెస్ చేయండి"));
    (str "ai_assistant", VStr (ustr "🤖 AI సహాయకుడు"));
    (str "ai_placeholder", VStr (ustr "మీ ఖర్చులు, రసీదులు గురించి అడగండి లేదా ఆర్థిక అంతర్దృష్టులను పొందండి..."));
    (str "ask_ai", VStr (ustr "AI ని అడగండి"));
    (str "ai_welcome", VStr (ustr "రసీద్ AI సహాయకుడికి స్వాగతం! కొన్ని రసీదులను అప్లోడ్ చేసి, మీ ఖర్చు నమూనాలు, మీకు ఇష్టమైన దుకాణాలు లేదా ఆర్థిక అంతర్దృష్టుల గురించి నన్ను ప్రశ్నించండి."));
    (str "your_receipts", VStr (ustr "📋 మీ రసీదులు"));
    (str "refresh_receipts", VStr (ustr "🔄 రసీదులను రిఫ్రెష్ చేయండి"));
    (str "no_receipts", VStr (ustr "రసీదులు కనుగొనబడలేదు. మీ మొదటి రసీదును అప్లోడ్ చేయండి!"));
    (str "logout", VStr (ustr "లాగ్ అవుట్"));
    (str "total_receipts", VStr (ustr "మొత్తం రసీదులు"));
    (str "total_spent", VStr (ustr "మొత్తం ఖర్చు"));
    (str "top_category", VStr (ustr "అత్యధిక వర్గం"));
    (str "avg_spend", VStr (ustr "ప్రతి రసీదుకు సగటు ఖర్చు"));
    (str "create_wallet", VStr (ustr "📱 వాలెట్ పాస్ సృష్టించండి"));
    (str "processing", VStr (ustr "మీ రసీదును ప్రాసెస్ చేస్తోంది..."));
    (str "thinking", VStr (ustr "AI ఆలోచిస్తోంది..."));
    (str "loading", VStr (ustr "రసీదులు లోడ్ అవుతున్నాయి..."));
    (str "receipt_processed", VStr (ustr "✅ రసీదు విజయవంతంగా ప్రాసెస్ చేయబడింది!"));
    (str "error_processing", VStr (ustr "❌ రసీదును ప్రాసెస్ చేయడంలో లోపం")) ].

Definition texts_kn : dict :=
  [
    (str "dashboard_title", VStr (ustr "🧾 ರಸೀದ್ ಡ್ಯಾಶ್‌ಬೋರ್ಡ್"));
    (str "dashboard_subtitle", VStr (ustr "AI-ಶಕ್ತಿಯುತ ರಸೀದಿ ಸಂಸ್ಕರಣೆ ಮತ್ತು ವಿಶ್ಲೇಷಣೆ"));
    (str "upload_receipt", VStr (ustr "📸 ರಸೀದಿ ಅಪ್‌ಲೋಡ್ ಮಾಡಿ"));
    (str "upload_text", VStr (ustr "ರಸೀದಿ ಚಿತ್ರವನ್ನು ಅಪ್‌ಲೋಡ್ ಮಾಡಲು ಕ್ಲಿಕ್ ಮಾಡಿ ಅಥವಾ ಎಳೆದು ಬಿಡಿ"));
    (str "upload_supported", VStr (ustr "JPG, PNG, GIF ಗಳನ್ನು ಬೆಂಬಲಿಸುತ್ತದೆ"));
    (str "process_btn", VStr (ustr "ರಸೀದಿ ಸಂಸ್ಕರಿಸಿ"));
    (str "ai_assistant", VStr (ustr "🤖 AI ಸಹಾಯಕ"));
    (str "ai_placeholder", VStr (ustr "ನಿಮ್ಮ ಖರ್ಚು, ರಸೀದಿಗಳ ಬಗ್ಗೆ ಕೇಳಿ ಅಥವಾ ಆರ್ಥಿಕ ಒಳನೋಟಗಳನ್ನು ಪಡೆಯಿರಿ..."));
    (str "ask_ai", VStr (ustr "AI ಗೆ ಕೇಳಿ"));
    (str "ai_welcome", VStr (ustr "ರಸೀದ್ AI ಸಹಾಯಕಕ್ಕೆ ಸುಸ್ವಾಗತ! ಕೆಲವು ರಸೀದಿಗಳನ್ನು ಅಪ್‌ಲೋಡ್ ಮಾಡಿ ಮತ್ತು ನಿಮ್ಮ ಖರ್ಚಿನ ಮಾದರಿಗಳು, ನಿಮ್ಮ ನೆಚ್ಚಿನ ಅಂಗಡಿಗಳು ಅಥವಾ ಆರ್ಥಿಕ ಒಳನೋಟಗಳ ಬಗ್ಗೆ ನನ್ನನ್ನು ಪ್ರಶ್ನಿಸಿ."));
    (str "your_receipts", VStr (ustr "📋 ನಿಮ್ಮ ರಸೀದಿಗಳು"));
    (str "refresh_receipts", VStr (ustr "🔄 ರಸೀದಿಗಳನ್ನು ರಿಫ್ರೆಶ್ ಮಾಡಿ"));
    (str "no_receipts", VStr (ustr "ರಸೀದಿಗಳು ಕಂಡುಬಂದಿಲ್ಲ. ನಿಮ್ಮ ಮೊದಲ ರಸೀದಿಯನ್ನು ಅಪ್‌ಲೋಡ್ ಮಾಡಿ!"));
    (str "logout", VStr (ustr "ಲಾಗ್ ಔಟ್"));
    (str "total_receipts", VStr (ustr "ಒಟ್ಟು ರಸೀದಿಗಳು"));
    (str "total_spent", VStr (ustr "ಒಟ್ಟು ಖರ್ಚು"));
    (str "top_category", VStr (ustr "ಅಗ್ರ ವರ್ಗ"));
    (str "avg_spend", VStr (ustr "ಪ್ರತಿ ರಸೀದಿಗೆ ಸರಾಸರಿ ಖರ್ಚು"));
    (str "create_wallet", VStr (ustr "📱 ವಾಲೆಟ್ ಪಾಸ್ ರಚಿಸಿ"));
    (str "processing", VStr (ustr "ನಿಮ್ಮ ರಸೀದಿಯನ್ನು ಸಂಸ್ಕರಿಸಲಾಗುತ್ತಿದೆ..."));
    (str "thinking", VStr (ustr "AI ಯೋಚಿಸುತ್ತಿದೆ..."));
    (str "loading", VStr (ustr "ರಸೀದಿಗಳನ್ನು ಲೋಡ್ ಮಾಡಲಾಗುತ್ತಿದೆ..."));
    (str "receipt_processed", VStr (ustr "✅ ರಸೀದಿ ಯಶಸ್ವಿಯಾಗಿ ಸಂಸ್ಕರಿಸಲ್ಪಟ್ಟಿದೆ!"));
    (str "error_processing", VStr (ustr "❌ ರಸೀದಿ ಸಂಸ್ಕರಣೆಯಲ್ಲಿ ದೋಷ")) ].

Definition texts : list (text * dict) :=
  [ (str "en", texts_en); (str "te", texts_te); (str "kn", texts_kn) ].

(** [get_language_text(lang)]: the table of the language, the English
    one for any other code. *)
Definition get_language_text (lang : text) : dict :=
  match find (fun kv => str_eqb (fst kv) lang) texts with
  | Some kv => snd kv
  | None => texts_en
  end.

(** ** Requests, sessions and responses *)

(** [bool(v)]. *)
Definition truthy (v : value) : bool :=
  match v with
  | VNone => false
  | VBool b => b
  | VInt z => negb (z =? 0)
  | VFloat f => negb (feq f fzero)
  | VStr s => negb (is_nil s)
  | VList l => negb (is_nil l)
  | VDict d => negb (is_nil d)
  end.

(** [key] is a prefix of [s]. *)
Fixpoint starts_with (key s : text) : bool :=
  match key, s with
  | [], _ => true
  | k :: key', c :: s' => (k =? c) && starts_with key' s'
  | _ :: _, [] => false
  end.

(** [key in s] for two [str]: [key] occurs in [s]. *)
Fixpoint occurs_in (key s : text) : bool :=
  starts_with key s
  || match s with
     | [] => false
     | _ :: s' => occurs_in key s'
     end.

(** [key in x] for a [str] key: a key of a [dict], an element of a
    list, a part of a [str]; nothing else is a container. *)
Definition py_in (key : text) (x : value) : outcome bool :=
  match x with
  | VDict d => inr (match lookup key d with Some _ => true | None => false end)
  | VList l => inr (existsb (key_eqb (VStr key)) l)
  | VStr s => inr (occurs_in key s)
  | _ => inl TypeError
  end.

(** [x[key]] for a [str] key. *)
Definition py_getitem (x : value) (key : text) : outcome value :=
  match x with
  | VDict d =>
      match lookup key d with
      | Some v => inr v
      | None => inl KeyError
      end
  | _ => inl TypeError
  end.

(** [d[key] = v]. *)
Fixpoint dict_set (key : text) (v : value) (d : dict) : dict :=
  match d with
  | [] => [(key, v)]
  | (k, w) :: d' =>
      if str_eqb k key then (k, v) :: d' else (k, w) :: dict_set key v d'
  end.

(** What a view returns: the document handed to [jsonify] and the
    status code. *)
Record response : Type := { body : value; status : Z }.

Definition jsonify (d : dict) (code : Z) : response :=
  {| body := VDict d; status := code |}.

(** [jsonify({"error": msg}), code]. *)
Definition error_response (msg : string) (code : Z) : response :=
  jsonify [(str "error", VStr (str msg))] code.

(** The response with the statistics. *)
Definition number_value (n : number) : value :=
  match n with
  | Int z => VInt z
  | Float f => VFloat f
  end.

Definition stats_response (st : stats) : response :=
  jsonify [(str "success", VBool true);
           (str "stats",
            VDict [(str "total_receipts", VInt (total_receipts st));
                   (str "total_spent", number_value (total_spent st));
                   (str "top_category", top_category st);
                   (str "avg_spend", number_value (avg_spend st))])] 200.

(** The dictionary the fallback parser returns, as it is stored. *)
Definition item_dict (it : item) : value :=
  VDict [(str "name", VStr (name it)); (str "price", VFloat (price it))].

Definition receipt_dict (r : receipt) : value :=
  VDict [(str "merchant", VStr (merchant r));
         (str "date", VStr (date r));
         (str "total", VFloat (total r));
         (str "tax", VFloat (tax r));
         (str "subtotal", number_value (subtotal r));
         (str "items", VList (map item_dict (items r)));
         (str "category", VStr (category r))].

(** [v == s] for a [str] [s]: only an equal [str] is equal to it. *)
Definition py_eq_str (v : value) (s : text) : bool :=
  match v with
  | VStr x => str_eqb x s
  | _ => false
  end.

(** [d.get(key, default)] on a [dict]. *)
Definition dict_get (d : dict) (key : text) (default : value) : value :=
  match lookup key d with
  | Some v => v
  | None => default
  end.

(** [k1 not in data or k2 not in data or ...], from left to right. *)
Fixpoint lacks (data : value) (keys : list text) : outcome bool :=
  match keys with
  | [] => inr false
  | key :: keys' =>
      present <~ py_in key data ;;
      if present then lacks data keys' else inr true
  end.

(** [not data or k1 not in data or ...]. *)
Definition missing_fields (data : value) (keys : list text) : outcome bool :=
  if negb (truthy data) then inr true else lacks data keys.

(** The four assignments under [# Set session data] of [login] and
    [signup]: the session they leave, also when one of them raises. *)
Definition set_session_data (user_info session : dict)
    : dict * outcome unit :=
  match py_getitem (VDict user_info) (str "sub") with
  | inl e => (session, inl e)
  | inr sub =>
      let session := dict_set (str "user_id") sub session in
      match py_getitem (VDict user_info) (str "email") with
      | inl e => (session, inl e)
      | inr email =>
          let session := dict_set (str "user_email") email session in
          let session :=
            dict_set (str "user_name")
              (dict_get user_info (str "name") (VStr [])) session in
          let session :=
            dict_set (str "user_picture")
              (dict_get user_info (str "picture") (VStr [])) session in
          (session, inr tt)
      end
  end.

Section Views.
(** Firestore is outside the repository: its contents are a parameter,
    with the operations the views below perform on it: reading the
    receipts of a user, [update] and [set] with [merge] on the document
    of a user.  [str(e)] of an exception is a parameter as well. *)
Variable firestore : Type.
Variable stream_receipts : firestore -> value -> outcome (list value).
Variable update_user :
  firestore -> value -> dict -> firestore * outcome unit.
Variable set_user :
  firestore -> value -> dict -> firestore * outcome unit.
Variable message : exception -> text.

(** [try: ... except Exception as e: return jsonify({"error": str(e)}), 500]. *)
Definition or_500 (r : outcome response) : response :=
  match r with
  | inr resp => resp
  | inl e => jsonify [(str "error", VStr (message e))] 500
  end.

Definition get_stats (session : dict) (db : option firestore) : response :=
  or_500
    match lookup (str "user_id") session with
    | None => inr (error_response "Not authenticated" 401)
    | Some user_id =>
        match db with
        | None => inr (error_response "Database not initialized" 500)
        | Some db =>
            receipts <~ stream_receipts db user_id ;;
            st <~ receipt_stats receipts ;;
            inr (stats_response st)
        end
    end.

Definition create_wallet_pass (request_json : outcome value) (session : dict)
    : response :=
  or_500
    (data <~ request_json ;;
     missing <~
       (if negb (truthy data) then inr true
        else present <~ py_in (str "receiptId") data ;; inr (negb present)) ;;
     if missing then inr (error_response "Missing receiptId" 400)
     else match lookup (str "user_id") session with
          | None => inr (error_response "Not authenticated" 401)
          | Some _ =>
              receipt_id <~ py_getitem data (str "receiptId") ;;
              inr (jsonify
                     [(str "success", VBool true);
                      (str "walletPass",
                       VDict [(str "passType", VStr (str "storeCard"));
                              (str "serialNumber", receipt_id);
                              (str "description",
                               VStr (str "Receipt stored in wallet"));
                              (str "organizationName", VStr (str "Raseed"));
                              (str "logoText", VStr (str "Receipt"));
                              (str "backgroundColor",
                               VStr (str "rgb(102,126,234)"));
                              (str "foregroundColor",
                               VStr (str "rgb(255,255,255)"));
                              (str "barcode",
                               VDict [(str "message", receipt_id);
                                      (str "format",
                                       VStr (str "PKBarcodeFormatQR"))])])]
                     200)
          end).

(** [logout]: the response and the session it leaves. *)
Definition logout (session : dict) : response * dict :=
  (jsonify [(str "success", VBool true)] 200, []).

(** [value in LANGUAGES]. *)
Definition in_LANGUAGES (v : value) : outcome bool :=
  if hashable v
  then inr (existsb (fun kv => key_eqb (VStr (fst kv)) v) LANGUAGES)
  else inl TypeError.

(** [update_language]: the response, the session and the database it
    leaves. *)
Definition update_language (request_json : outcome value) (session : dict)
    (db : option firestore) : response * dict * option firestore :=
  match lookup (str "user_id") session with
  | None => (error_response "Not authenticated" 401, session, db)
  | Some user_id =>
      match
        (data <~ request_json ;;
         missing <~
           (if negb (truthy data) then inr true
            else present <~ py_in (str "language") data ;;
                 inr (negb present)) ;;
         if missing then inr (inl (error_response "Missing language parameter" 400))
         else language <~ py_getitem data (str "language") ;;
              supported <~ in_LANGUAGES language ;;
              if negb supported
              then inr (inl (error_response "Unsupported language" 400))
              else inr (inr language))
      with
      | inl e => (or_500 (inl e), session, db)
      | inr (inl refusal) => (refusal, session, db)
      | inr (inr language) =>
          match db with
          | None => (or_500 (inl AttributeError), session, db)
          | Some store =>
              match update_user store user_id [(str "language", language)] with
              | (store', inl e) => (or_500 (inl e), session, Some store')
              | (store', inr _) =>
                  (jsonify [(str "success", VBool true)] 200,
                   dict_set (str "language") language session,
                   Some store')
              end
          end
      end
  end.

(** [create_or_update_user(user_info)]: the database it leaves and the
    flag it returns; [now] is [datetime.now().isoformat()].  Every
    exception is caught. *)
Definition create_or_update_user (db : option firestore) (now : text)
    (user_info : dict) : option firestore * bool :=
  match db with
  | None => (None, false)
  | Some store =>
      match
        (sub <~ py_getitem (VDict user_info) (str "sub") ;;
         email <~ py_getitem (VDict user_info) (str "email") ;;
         inr (sub,
              [(str "email", email);
               (str "name", dict_get user_info (str "name") (VStr []));
               (str "picture",
                dict_get user_info (str "picture") (VStr []));
               (str "last_login", VStr now);
               (str "language",
                dict_get user_info (str "language") (VStr (str "en")))]))
      with
      | inl _ => (Some store, false)
      | inr (sub, document) =>
          match set_user store sub document with
          | (store', inl _) => (Some store', false)
          | (store', inr _) => (Some store', true)
          end
      end
  end.

(** What [login] and [signup] do once the request is accepted. *)
Definition sign_in (failure : string) (now : text) (user_info session : dict)
    (db : option firestore) : response * dict * option firestore :=
  let db' := fst (create_or_update_user db now user_info) in
  match set_session_data user_info session with
  | (session', inl _) => (error_response failure 500, session', db')
  | (session', inr _) =>
      (jsonify [(str "success", VBool true)] 200, session', db')
  end.

(** [login]: the response, the session and the database it leaves. *)
Definition login (os : os_random) (now : text) (request_json : outcome value)
    (session : dict) (db : option firestore)
    : response * dict * option firestore :=
  match
    (data <~ request_json ;;
     missing <~ missing_fields data [str "email"; str "password"] ;;
     if missing
     then inr (inl (error_response "Missing email or password" 400))
     else
       email <~ py_getitem data (str "email") ;;
       accepted <~
         (if py_eq_str email (str "user@example.com")
          then password <~ py_getitem data (str "password") ;;
               inr (py_eq_str password (str "password"))
          else inr false) ;;
       if accepted
       then email <~ py_getitem data (str "email") ;;
            inr (inr [(str "sub",
                       VStr (str "local_user_" ++ token_hex os 8));
                      (str "email", email);
                      (str "name", VStr (str "Local User"));
                      (str "picture",
                       VStr (str "https://www.gravatar.com/avatar/default?s=200"));
                      (str "language", VStr (str "en"))])
       else inr (inl (error_response "Invalid credentials" 401)))
  with
  | inl _ => (error_response "Login failed" 500, session, db)
  | inr (inl refusal) => (refusal, session, db)
  | inr (inr user_info) => sign_in "Login failed" now user_info session db
  end.

(** [signup]: the response, the session and the database it leaves. *)
Definition signup (os : os_random) (now : text) (request_json : outcome value)
    (session : dict) (db : option firestore)
    : response * dict * option firestore :=
  match
    (data <~ request_json ;;
     missing <~
       missing_fields data [str "email"; str "password"; str "name"] ;;
     if missing
     then inr (inl (error_response "Missing required fields" 400))
     else
       email <~ py_getitem data (str "email") ;;
       name <~ py_getitem data (str "name") ;;
       inr (inr [(str "sub", VStr (str "new_user_" ++ token_hex os 8));
                 (str "email", email);
                 (str "name", name);
                 (str "picture",
                  VStr (str "https://www.gravatar.com/avatar/default?s=200"));
                 (str "language", VStr (str "en"))]))
  with
  | inl _ => (error_response "Signup failed" 500, session, db)
  | inr (inl refusal) => (refusal, session, db)
  | inr (inr user_info) => sign_in "Signup failed" now user_info session db
  end.
End Views.

(** ** Vocabulary of the statements about the views *)

(** How often the category occurs among those of the receipts. *)
Definition occurrences (c : text) (cats : list text) : Z :=
  Z.of_nat (length (filter (str_eqb c) cats)).

(** The categories without repetition, each at its first occurrence. *)
Fixpoint firsts (cats : list text) : list text :=
  match cats with
  | [] => []
  | c :: cats' => c :: filter (fun x => negb (str_eqb c x)) (firsts cats')
  end.

(** The category the loop of [get_stats] reads from a receipt. *)
Definition category_of (receipt : value) : outcome value :=
  parsed_field receipt (str "category") (VStr (str "Uncategorized")).

(** The counts the loop builds when the categories are all [str]. *)
Definition tally (cats : list text) : counts :=
  map (fun c => (VStr c, occurrences c cats)) (firsts cats).

(** What [0 + v] accepts. *)
Definition is_number (v : value) : bool :=
  match v with
  | VBool _ | VInt _ | VFloat _ => true
  | _ => false
  end.

(** The total the sum of [get_stats] reads from a receipt. *)
Definition total_field (receipt : value) : outcome value :=
  parsed_field receipt (str "total") (VInt 0).

(** The receipt holds, under [parsedData], a dictionary the fallback
    parser returned. *)
Definition from_fallback (receipt : value) : Prop :=
  exists db now txt r,
    parse_receipt_with_fallback db now txt = inr r
    /\ py_get receipt (str "parsedData") (VDict []) = inr (receipt_dict r).

(** What the sum of non-negative float totals is: the [int] 0 of no
    receipt, or a float that is zero or more. *)
Definition spent_ok (n : number) : Prop :=
  match n with
  | Int z => z = 0
  | Float x => fle fzero x = true
  end.

(** Data for the worked examples. *)

Definition fixed_random : os_random :=
  {| urandom := List.repeat Byte.x00;
     urandom_length := fun n => repeat_length Byte.x00 n |}.

Definition a_password : text := str "hunter2".
Definition a_surrogate : text := str "pass" ++ [56832].

Definition no_message (e : exception) : text := [].
Definition stored_receipts (receipts : list value) (store : unit)
    (user_id : value) : outcome (list value) := inr receipts.
Definition keep_user (store : unit) (sub : value) (document : dict)
    : unit * outcome unit := (store, inr tt).
Definition a_signup : dict :=
  [(str "email", VStr (str "ann@example.com"));
   (str "password", VStr (str "hunter2"));
   (str "name", VStr (str "Ann"))].
Definition a_session : dict := [(str "user_id", VStr (str "u1"))].

Definition receipt_of (category : string) (total : value) : value :=
  VDict [(str "receiptId", VStr (str "receipt_1"));
         (str "parsedData",
          VDict [(str "total", total);
                 (str "category", VStr (str category))])].

Definition three_receipts : list value :=
  [receipt_of "Food" (VInt 5); receipt_of "Other" (VFloat (cents 250));
   receipt_of "Other" (VInt 1)].

Definition receipt_with_text_total : list value :=
  [receipt_of "Food" (VInt 5); receipt_of "Other" (VStr (str "45.67"))].

Definition a_fallback_record : receipt :=
  {| merchant := str "Total: $45.67";
     date := strftime_ymd a_day;
     total := cents 4567;
     tax := cents 300;
     subtotal := Float (cents 4267);
     items := [ {| name := str "Total:"; price := cents 4567 |};
                {| name := str "Tax"; price := cents 300 |};
                {| name := str "Widget"; price := cents 1000 |} ];
     category := str "Other" |}.

Definition fallback_receipts : list value :=
  [VDict [(str "receiptId", VStr (str "receipt_1"));
          (str "parsedData", receipt_dict a_fallback_record);
          (str "rawText", VStr receipt_with_total)]].

(** * Properties *)

(** ** The loops *)

Lemma bind_inr {A B : Type} (m : result A) (k : A -> result B) (a : A) :
  m = inr a -> bind m k = k a.
Proof. intros ->; reflexivity. Qed.

(** A loop whose body keeps an invariant and never raises ends with the
    invariant, without raising. *)
Lemma for_each_invariant {A B : Type} (P : B -> Prop) (Q : A -> Prop)
    (body : B -> A -> result B) :
  (forall acc x, P acc -> Q x -> exists acc', body acc x = inr acc' /\ P acc') ->
  forall xs acc, P acc -> Forall Q xs ->
    exists acc', for_each xs acc body = inr acc' /\ P acc'.
Proof.
  intros Hbody xs; induction xs as [|x xs IH]; intros acc Hacc Hxs; simpl.
  - exists acc; split; [reflexivity | assumption].
  - inversion Hxs as [|? ? Hx Hxs']; subst.
    destruct (Hbody acc x Hacc Hx) as (acc' & Hb & Hacc').
    rewrite Hb; simpl. apply IH; assumption.
Qed.

(** ** The order of floats *)

Lemma in_range_pos_finite (a : float) : in_range a -> pos_finite a.
Proof.
  intros [H1 H2]; destruct a as [s|s| |s m e]; try destruct s;
    simpl; try exact I; try discriminate H1; discriminate H2.
Qed.

Lemma flt_trans (x y z : float) :
  pos_finite x -> pos_finite y -> pos_finite z ->
  flt x y = true -> flt y z = true -> flt x z = true.
Proof. intros; float_order. Qed.

Lemma flt_irrefl (x : float) : pos_finite x -> flt x x = false.
Proof. intros; float_order. Qed.

Lemma flt_total (x y : float) :
  pos_finite x -> pos_finite y ->
  flt x y = false -> feq x y = false -> flt y x = true.
Proof. intros; float_order. Qed.

Lemma flt_fle (x y : float) :
  pos_finite x -> pos_finite y -> flt x y = true -> fle x y = true.
Proof. intros; float_order. Qed.

Lemma fle_refl (x : float) : pos_finite x -> fle x x = true.
Proof. intros; float_order. Qed.

Lemma not_fle_flt (x y : float) :
  flt fzero x = true -> pos_finite y -> fle x y = false -> flt y x = true.
Proof. intros; float_order. Qed.

Lemma flt_feq (x y : float) :
  pos_finite x -> pos_finite y -> flt x y = true -> feq x y = false.
Proof. intros; float_order. Qed.

(** ** [set] and [sorted] *)

Lemma In_insert_desc (a x : float) (l : list float) :
  In x (insert_desc a l) <-> a = x \/ In x l.
Proof.
  induction l as [|y l IH]; simpl.
  - tauto.
  - destruct (flt a y); simpl; rewrite ?IH; tauto.
Qed.

Lemma In_sorted_reverse (x : float) (l : list float) :
  In x (sorted_reverse l) <-> In x l.
Proof.
  induction l as [|a l IH]; simpl.
  - tauto.
  - rewrite In_insert_desc, IH; tauto.
Qed.

Lemma In_py_set (x : float) (l : list float) : In x (py_set l) -> In x l.
Proof.
  induction l as [|a l IH]; simpl; [tauto|].
  intros [->|H]; [left; reflexivity|].
  apply filter_In in H; right; apply IH, H.
Qed.

Lemma ForallOrdPairs_filter {A : Type} (R : A -> A -> Prop) (f : A -> bool)
    (l : list A) :
  ForallOrdPairs R l -> ForallOrdPairs R (filter f l).
Proof.
  induction 1 as [|a l Ha Hl IH]; simpl; [constructor|].
  destruct (f a); [|assumption].
  constructor; [|assumption].
  apply Forall_forall; intros y Hy; apply filter_In in Hy.
  exact (proj1 (Forall_forall _ _) Ha y (proj1 Hy)).
Qed.

Lemma py_set_distinct (l : list float) : ForallOrdPairs fneq (py_set l).
Proof.
  induction l as [|a l IH]; simpl; constructor.
  - apply Forall_forall; intros y Hy; apply filter_In in Hy.
    unfold fneq; destruct (feq a y); [discriminate (proj2 Hy) | reflexivity].
  - apply ForallOrdPairs_filter, IH.
Qed.

Lemma insert_desc_sorted (a : float) (l : list float) :
  pos_finite a -> Forall pos_finite l -> Forall (fneq a) l ->
  StronglySorted fgt l -> StronglySorted fgt (insert_desc a l).
Proof.
  intros Ha; induction l as [|y l IH]; intros Hfin Hneq Hs; simpl.
  - repeat constructor.
  - inversion Hfin as [|? ? Hy Hfin']; inversion Hneq as [|? ? Hay Hneq'];
      apply StronglySorted_inv in Hs; destruct Hs as [Hs Hyl]; subst.
    destruct (flt a y) eqn:Hlt.
    + constructor; [apply IH; assumption|].
      apply Forall_forall; intros z Hz; apply (proj1 (In_insert_desc _ _ _)) in Hz.
      destruct Hz as [<-|Hz]; [exact Hlt|].
      exact (proj1 (Forall_forall _ _) Hyl z Hz).
    + assert (Hya : flt y a = true) by (apply flt_total; assumption).
      constructor; [constructor; assumption|].
      constructor; [exact Hya|].
      apply Forall_forall; intros z Hz.
      pose proof (proj1 (Forall_forall _ _) Hyl z Hz) as Hzy.
      pose proof (proj1 (Forall_forall _ _) Hfin' z Hz) as Hzf.
      exact (flt_trans z y a Hzf Hy Ha Hzy Hya).
Qed.

Lemma sorted_reverse_sorted (l : list float) :
  Forall pos_finite l -> ForallOrdPairs fneq l ->
  StronglySorted fgt (sorted_reverse l).
Proof.
  induction l as [|a l IH]; intros Hfin Hd; simpl; [constructor|].
  inversion Hfin as [|? ? Ha Hfin']; inversion Hd as [|? ? Hal Hd']; subst.
  apply insert_desc_sorted; [assumption | | | apply IH; assumption].
  - apply Forall_forall; intros x Hx; apply (proj1 (In_sorted_reverse _ _)) in Hx.
    exact (proj1 (Forall_forall _ _) Hfin' x Hx).
  - apply Forall_forall; intros x Hx; apply (proj1 (In_sorted_reverse _ _)) in Hx.
    exact (proj1 (Forall_forall _ _) Hal x Hx).
Qed.

Lemma sorted_desc_NoDup (l : list float) :
  Forall pos_finite l -> StronglySorted fgt l -> NoDup l.
Proof.
  induction l as [|a l IH]; intros Hfin Hs; constructor;
    inversion Hfin as [|? ? Ha Hfin']; apply StronglySorted_inv in Hs;
    destruct Hs as [Hs Hal]; subst.
  - intros Hin. pose proof (proj1 (Forall_forall _ _) Hal a Hin) as Haa.
    unfold fgt in Haa; rewrite (flt_irrefl a Ha) in Haa; discriminate.
  - apply IH; assumption.
Qed.

(** ** The order in which the set is walked *)

Lemma feq_eq (x y : float) :
  pos_finite x -> pos_finite y -> feq x y = true -> x = y.
Proof. intros; float_order. Qed.

Lemma feq_refl (x : float) : pos_finite x -> feq x x = true.
Proof. intros; float_order. Qed.

Lemma flt_asym (x y : float) :
  pos_finite x -> pos_finite y -> flt x y = true -> flt y x = false.
Proof. intros; float_order. Qed.

Lemma NoDup_distinct (l : list float) :
  Forall pos_finite l -> NoDup l -> ForallOrdPairs fneq l.
Proof.
  induction l as [|a l IH]; intros Hfin Hnd; constructor;
    inversion Hfin as [|? ? Ha Hfin']; inversion Hnd as [|? ? Hnot Hnd']; subst.
  - apply Forall_forall; intros y Hy.
    pose proof (proj1 (Forall_forall _ _) Hfin' y Hy) as Hyf.
    unfold fneq; destruct (feq a y) eqn:E; [|reflexivity].
    apply feq_eq in E; try assumption. subst y; contradiction.
  - apply IH; assumption.
Qed.

Lemma distinct_NoDup (l : list float) :
  Forall pos_finite l -> ForallOrdPairs fneq l -> NoDup l.
Proof.
  induction l as [|a l IH]; intros Hfin Hd; constructor;
    inversion Hfin as [|? ? Ha Hfin']; inversion Hd as [|? ? Hal Hd']; subst.
  - intros Hin. pose proof (proj1 (Forall_forall _ _) Hal a Hin) as Haa.
    unfold fneq in Haa; rewrite (feq_refl a Ha) in Haa; discriminate.
  - apply IH; assumption.
Qed.

Lemma sorted_desc_unique (l1 : list float) :
  forall l2,
    StronglySorted fgt l1 -> StronglySorted fgt l2 ->
    Forall pos_finite l1 -> Forall pos_finite l2 ->
    (forall x, In x l1 <-> In x l2) -> l1 = l2.
Proof.
  induction l1 as [|a l1 IH]; intros l2 H1 H2 F1 F2 Hin.
  - destruct l2 as [|b l2]; [reflexivity|].
    destruct (proj2 (Hin b) (or_introl eq_refl)).
  - destruct l2 as [|b l2]; [destruct (proj1 (Hin a) (or_introl eq_refl))|].
    apply StronglySorted_inv in H1; destruct H1 as [H1 Ha].
    apply StronglySorted_inv in H2; destruct H2 as [H2 Hb].
    inversion F1 as [|? ? Fa F1']; inversion F2 as [|? ? Fb F2']; subst.
    assert (Hab : a = b).
    { destruct (proj1 (Hin a) (or_introl eq_refl)) as [E|Hal2]; [auto|].
      destruct (proj2 (Hin b) (or_introl eq_refl)) as [E|Hbl1]; [auto|].
      pose proof (proj1 (Forall_forall _ _) Hb a Hal2) as Hlt1.
      pose proof (proj1 (Forall_forall _ _) Ha b Hbl1) as Hlt2.
      unfold fgt in *. rewrite (flt_asym a b Fa Fb Hlt1) in Hlt2; discriminate. }
    subst b; f_equal. apply IH; try assumption.
    intros x; split; intros Hx.
    + destruct (proj1 (Hin x) (or_intror Hx)) as [E|Hx2]; [|exact Hx2].
      subst x. pose proof (proj1 (Forall_forall _ _) Ha a Hx) as Haa.
      unfold fgt in Haa; rewrite (flt_irrefl a Fa) in Haa; discriminate.
    + destruct (proj2 (Hin x) (or_intror Hx)) as [E|Hx1]; [|exact Hx1].
      subst x. pose proof (proj1 (Forall_forall _ _) Hb a Hx) as Haa.
      unfold fgt in Haa; rewrite (flt_irrefl a Fa) in Haa; discriminate.
Qed.

Lemma sorted_reverse_any_order (l walk : list float) :
  Forall pos_finite l -> ForallOrdPairs fneq l -> Permutation walk l ->
  sorted_reverse walk = sorted_reverse l.
Proof.
  intros Hfin Hd Hperm.
  assert (Hfin' : Forall pos_finite walk).
  { apply Forall_forall; intros x Hx.
    exact (proj1 (Forall_forall _ _) Hfin x (Permutation_in x Hperm Hx)). }
  assert (Hd' : ForallOrdPairs fneq walk).
  { apply NoDup_distinct; [assumption|].
    apply (Permutation_NoDup (Permutation_sym Hperm)).
    apply distinct_NoDup; assumption. }
  apply sorted_desc_unique.
  - apply sorted_reverse_sorted; assumption.
  - apply sorted_reverse_sorted; assumption.
  - apply Forall_forall; intros x Hx; apply (proj1 (In_sorted_reverse _ _)) in Hx.
    exact (proj1 (Forall_forall _ _) Hfin' x Hx).
  - apply Forall_forall; intros x Hx; apply (proj1 (In_sorted_reverse _ _)) in Hx.
    exact (proj1 (Forall_forall _ _) Hfin x Hx).
  - intros x; rewrite !In_sorted_reverse; split; intros Hx.
    + exact (Permutation_in x Hperm Hx).
    + exact (Permutation_in x (Permutation_sym Hperm) Hx).
Qed.

(** ** [float(str)] raises nothing but [ValueError] *)

Lemma float_of_str_exn (db : unicode_db) (s : text) (e : exn) :
  float_of_str db s = inl e -> e = ValueError.
Proof.
  unfold float_of_str.
  destruct (rev _) as [|c s']; simpl.
  - intros H; inversion H; reflexivity.
  - repeat match goal with
           | |- context [if ?b then _ else _] => destruct b
           | |- context [match ?x with _ => _ end] => destruct x
           end; simpl; intros H; inversion H; reflexivity.
Qed.

(** ** The matcher takes words of the pattern's language *)

Section MatcherSound.
Variable db : unicode_db.
Variable spec : nat -> text -> Prop.
Variable i : nat.

Lemma taken_prefix (st st' : mstate) (w : text) :
  rest st = w ++ rest st' -> taken st st' = w.
Proof.
  intros H; unfold taken; rewrite H, length_app.
  replace (length w + length (rest st') - length (rest st'))%nat
    with (length w + 0)%nat by lia.
  rewrite firstn_app_2; simpl; apply app_nil_r.
Qed.

Section Repeat.
Context {R : Type}.
Variable r : regex.
Hypothesis run_r :
  forall (k : mstate -> option R) st x,
    groups_ok spec (groups st) -> run db r k st = Some x ->
    exists st', k st' = Some x
      /\ groups_ok spec (groups st')
      /\ (In i (map fst (groups st)) -> In i (map fst (groups st')))
      /\ (closes i r = true -> In i (map fst (groups st')))
      /\ exists w, rest st = w ++ rest st' /\ lang db r w.

Lemma rounds_sound (fuel : nat) :
  forall lo hi greedy (k : mstate -> option R) st x,
    groups_ok spec (groups st) ->
    rounds (run db r) fuel lo hi greedy k st = Some x ->
    exists st', k st' = Some x
      /\ follows db spec i r lo hi st st'
      /\ (closes i (RRep r lo hi greedy) = true ->
          In i (map fst (groups st'))).
Proof.
  induction fuel as [|fuel IH]; intros lo hi greedy k st x Hok Hrun.
  - simpl in Hrun. destruct (Nat.eqb lo 0) eqn:Hlo; [|discriminate].
    apply Nat.eqb_eq in Hlo; subst lo.
    exists st; repeat split; try assumption; try tauto.
    + exists []; split; [reflexivity|]; split; [constructor|];
        split; [simpl; lia | destruct hi; simpl; [lia | exact I]].
    + simpl; discriminate.
  - assert (Hstop : (if Nat.eqb lo 0 then k st else None) = Some x ->
              exists st', k st' = Some x /\ follows db spec i r lo hi st st'
                /\ (closes i (RRep r lo hi greedy) = true ->
                    In i (map fst (groups st')))).
    { destruct (Nat.eqb lo 0) eqn:Hlo; [|discriminate]; intros Hk.
      apply Nat.eqb_eq in Hlo; subst lo.
      exists st; repeat split; try assumption; try tauto.
      - exists []; split; [reflexivity|]; split; [constructor|];
        split; [simpl; lia | destruct hi; simpl; [lia | exact I]].
      - simpl; discriminate. }
    assert (Hagain :
              match hi with
              | Some O => None
              | _ => run db r (fun st' =>
                       if advanced st st'
                       then rounds (run db r) fuel (Nat.pred lo)
                              (option_map Nat.pred hi) greedy k st'
                       else None) st
              end = Some x ->
              exists st', k st' = Some x /\ follows db spec i r lo hi st st'
                /\ (closes i (RRep r lo hi greedy) = true ->
                    In i (map fst (groups st')))).
    { intros Hb.
      assert (Hhi : hi <> Some 0%nat)
        by (destruct hi as [[|n]|]; [discriminate Hb | | ]; discriminate).
      assert (Hb' : run db r (fun st' =>
                       if advanced st st'
                       then rounds (run db r) fuel (Nat.pred lo)
                              (option_map Nat.pred hi) greedy k st'
                       else None) st = Some x)
        by (destruct hi as [[|n]|]; [discriminate | exact Hb | exact Hb]).
      clear Hb.
      apply run_r in Hb'; [|assumption].
      destruct Hb' as (st1 & Hk1 & Hok1 & Hkeep1 & Hcl1 & w & Hw & Hlang).
      destruct (advanced st st1); [|discriminate].
      apply IH in Hk1; [|assumption].
      destruct Hk1
        as (st' & Hk & (Hok' & Hkeep' & ws & Hws & Hall & Hlen & Hmost) & _).
      exists st'; repeat split; try assumption.
      - tauto.
      - exists (w :: ws); split; [|split; [|split]].
        + simpl; rewrite <- app_assoc, <- Hws; exact Hw.
        + constructor; assumption.
        + simpl; lia.
        + destruct hi as [[|h]|]; simpl in *; [congruence | lia | exact I].
      - simpl; intros Hc; apply andb_true_iff in Hc; tauto. }
    simpl in Hrun; destruct greedy.
    + destruct (match hi with Some O => None | _ => _ end) eqn:Ha.
      * inversion Hrun; subst; apply Hagain; first [exact Ha | reflexivity].
      * apply Hstop; exact Hrun.
    + destruct (if Nat.eqb lo 0 then k st else None) eqn:Hs.
      * inversion Hrun; subst; apply Hstop; first [exact Hs | reflexivity].
      * apply Hagain; exact Hrun.
Qed.
End Repeat.

(** A successful run entered its continuation at a cursor [st'] such
    that the text read in between is a word of the pattern, the groups
    recorded keep to [spec], and group [i] is closed when every match of
    the pattern closes it. *)
Lemma run_sound {R : Type} (r : regex) :
  grouped db spec r ->
  forall (k : mstate -> option R) st x,
    groups_ok spec (groups st) -> run db r k st = Some x ->
    exists st', k st' = Some x
      /\ groups_ok spec (groups st')
      /\ (In i (map fst (groups st)) -> In i (map fst (groups st')))
      /\ (closes i r = true -> In i (map fst (groups st')))
      /\ exists w, rest st = w ++ rest st' /\ lang db r w.
Proof.
  induction r as [|c|r1 IH1 r2 IH2|r1 IH1 r2 IH2|r IH lo hi greedy|j r IH|];
    intros Hg k st x Hok Hrun; cbn [run] in Hrun.
  - exists st; repeat split; try assumption; try tauto; try discriminate.
    exists []; split; reflexivity.
  - destruct st as [b [|a s] gs]; simpl in Hrun; [discriminate|].
    destruct (in_class db c a) eqn:Hc; [|discriminate].
    eexists; repeat split; try exact Hrun; simpl; try assumption;
      try tauto; try discriminate.
    exists [a]; split; [reflexivity|]. exists a; split; [reflexivity|assumption].
  - destruct Hg as [Hg1 Hg2].
    apply IH1 in Hrun; try assumption.
    destruct Hrun as (st1 & Hk1 & Hok1 & Hkeep1 & Hcl1 & w1 & Hw1 & Hl1).
    apply IH2 in Hk1; try assumption.
    destruct Hk1 as (st2 & Hk2 & Hok2 & Hkeep2 & Hcl2 & w2 & Hw2 & Hl2).
    exists st2; repeat split; try assumption.
    + tauto.
    + simpl; intros Hc; apply orb_true_iff in Hc; tauto.
    + exists (w1 ++ w2); split.
      * rewrite <- app_assoc, <- Hw2; exact Hw1.
      * exists w1, w2; repeat split; assumption.
  - destruct Hg as [Hg1 Hg2].
    destruct (run db r1 k st) eqn:H1.
    + inversion Hrun; subst. apply IH1 in H1; try assumption.
      destruct H1 as (st' & Hk & Hok' & Hkeep & Hcl & w & Hw & Hl).
      exists st'; repeat split; try assumption.
      * simpl; intros Hc; apply andb_true_iff in Hc; tauto.
      * exists w; split; [assumption | left; assumption].
    + apply IH2 in Hrun; try assumption.
      destruct Hrun as (st' & Hk & Hok' & Hkeep & Hcl & w & Hw & Hl).
      exists st'; repeat split; try assumption.
      * simpl; intros Hc; apply andb_true_iff in Hc; tauto.
      * exists w; split; [assumption | right; assumption].
  - simpl in Hg.
    apply (rounds_sound r (fun k st x => IH Hg k st x)) in Hrun;
      [|assumption].
    destruct Hrun
      as (st' & Hk & (Hok' & Hkeep & ws & Hws & Hall & Hlen & Hmost) & Hcl).
    exists st'; repeat split; try assumption.
    exists (concat ws); split; [assumption|].
    exists ws; repeat split; assumption.
  - destruct Hg as [Hspec Hg].
    apply IH in Hrun; try assumption.
    destruct Hrun as (st' & Hk & Hok' & Hkeep & Hcl & w & Hw & Hl).
    eexists; split; [exact Hk|]; simpl.
    rewrite (taken_prefix st st' w Hw).
    repeat split.
    + constructor; [apply Hspec; assumption | assumption].
    + intros Hin; right; apply Hkeep, Hin.
    + intros Hc; apply orb_true_iff in Hc; destruct Hc as [Hc|Hc];
        [left; apply Nat.eqb_eq, Hc | right; apply Hcl, Hc].
    + exists w; split; assumption.
  - destruct (xorb _ _); [|discriminate].
    exists st; repeat split; try assumption; try tauto; try discriminate.
    exists []; split; reflexivity.
Qed.

(** The group [i] of a recorded match keeps to [spec]. *)
Lemma group_ok (gs : list (nat * text)) :
  groups_ok spec gs -> In i (map fst gs) -> spec i (group i gs).
Proof.
  unfold group; induction gs as [|[j w] gs IH]; simpl; intros Hok Hin;
    [contradiction|].
  inversion Hok as [|? ? Hj Hok']; subst; simpl in *.
  destruct (Nat.eqb j i) eqn:Hji.
  - apply Nat.eqb_eq in Hji; subst j; exact Hj.
  - apply IH; [assumption|].
    destruct Hin as [->|Hin]; [|assumption].
    rewrite Nat.eqb_refl in Hji; discriminate.
Qed.

(** Every match that [re.finditer] reports records group [i] within
    [spec]. *)
Lemma scan_groups (r : regex) :
  grouped db spec r -> closes i r = true ->
  forall fuel prev s gs,
    In gs (scan db r fuel prev s) -> spec i (group i gs).
Proof.
  intros Hg Hc fuel; induction fuel as [|fuel IH]; intros prev s gs Hin;
    simpl in Hin; [contradiction|].
  assert (Hskip : In gs match s with
                        | [] => []
                        | c :: s' => scan db r fuel (Some c) s'
                        end -> spec i (group i gs)).
  { destruct s as [|c s']; [contradiction | apply IH]. }
  destruct (match_here db r prev s) as [st'|] eqn:Hm; [|auto].
  destruct Hin as [<-|Hin].
  - unfold match_here in Hm.
    apply (run_sound r Hg) in Hm; [|constructor].
    destruct Hm as (st1 & Hk & Hok & _ & Hcl & _).
    inversion Hk; subst st1.
    apply group_ok; [assumption | apply Hcl, Hc].
  - destruct (length (rest st') <? length s)%nat; [|auto].
    apply IH in Hin; exact Hin.
Qed.
End MatcherSound.

Lemma findall1_group (db : unicode_db) (spec : nat -> text -> Prop)
    (r : regex) (txt m : text) :
  grouped db spec r -> closes 1 r = true ->
  In m (findall1 db r txt) -> spec 1%nat m.
Proof.
  intros Hg Hc Hin; unfold findall1 in Hin.
  apply in_map_iff in Hin; destruct Hin as (gs & <- & Hin).
  exact (scan_groups db spec 1 r Hg Hc _ _ _ _ Hin).
Qed.

(** ** What [\d+\.\d{2}] takes, [float] reads *)

Section Money.
Variable db : unicode_db.

Lemma lang_digit_rep (lo : nat) (hi : option nat) (greedy : bool) (w : text) :
  lang db (RRep digit lo hi greedy) w ->
  digits db w /\ (lo <= length w)%nat /\ at_most hi (length w).
Proof.
  simpl; intros (ws & -> & Hall & Hlen & Hmost).
  assert (H : digits db (concat ws) /\ length (concat ws) = length ws).
  { clear Hlen Hmost; induction Hall as [|w ws (a & -> & Ha) Hall IH]; simpl.
    - split; [constructor | reflexivity].
    - destruct IH as [Hd Hl]; split; [constructor; assumption | lia]. }
  destruct H as [Hd Hl]; rewrite Hl; repeat split; assumption.
Qed.

Lemma lang_money (w : text) : lang db money w -> money_text db w.
Proof.
  intros (w1 & w23 & -> & H1 & w2 & w3 & -> & (a & -> & Ha) & H3).
  apply lang_digit_rep in H1; destruct H1 as (Hd1 & Hl1 & _).
  apply lang_digit_rep in H3; destruct H3 as (Hd3 & Hl3 & Hm3).
  simpl in Ha; apply Z.eqb_eq in Ha; subst a.
  exists w1, w3; repeat split; try assumption.
  - intros ->; simpl in Hl1; lia.
  - simpl in Hm3; lia.
Qed.

Lemma tax_patterns_grouped :
  Forall (fun p => grouped db (fun _ => money_text db) p
                   /\ closes 1 p = true) tax_patterns.
Proof.
  repeat constructor; simpl; repeat split; auto using lang_money.
Qed.

(** A decimal digit reads as an ASCII digit. *)
Lemma to_ascii_digit (c : char) :
  is_decimal db c = true -> 48 <= to_ascii db c <= 57.
Proof.
  unfold is_decimal, decimal_value, to_ascii.
  destruct (c <? 128) eqn:Hc.
  - destruct ((48 <=? c) && (c <=? 57)) eqn:Hd; [|discriminate].
    intros _; lia.
  - destruct (uni_decimal db c) as [d|] eqn:Hd; [|discriminate].
    rewrite (uni_decimal_not_space db c d Hd).
    pose proof (uni_decimal_range db c d Hd); intros _; lia.
Qed.

Lemma decimal_not_comma (c : char) :
  is_decimal db c = true -> negb (c =? COMMA) = true.
Proof.
  unfold is_decimal, decimal_value, COMMA.
  destruct (c <? 128) eqn:Hc; [|intros _; lia].
  destruct ((48 <=? c) && (c <=? 57)) eqn:Hd; [|discriminate].
  intros _; lia.
Qed.

Lemma remove_comma_digits (w : text) :
  digits db w -> remove_char COMMA w = w.
Proof.
  induction 1 as [|c w Hc Hw IH]; simpl; [reflexivity|].
  rewrite (decimal_not_comma c Hc), IH; reflexivity.
Qed.

Lemma remove_comma_money (w : text) :
  money_text db w -> remove_char COMMA w = w.
Proof.
  intros (ip & fp & -> & Hip & Hfp & _ & _).
  change (remove_char COMMA (ip ++ DOT :: fp))
    with (filter (fun x => negb (x =? COMMA)) (ip ++ DOT :: fp)).
  rewrite filter_app.
  change (filter (fun x => negb (x =? COMMA)) ip ++
          filter (fun x => negb (x =? COMMA)) (DOT :: fp))
    with (remove_char COMMA ip ++ DOT :: remove_char COMMA fp).
  rewrite !remove_comma_digits by assumption; reflexivity.
Qed.

Lemma lstrip_ascii_none (s : text) :
  Forall (fun c => is_ascii_space c = false) s -> lstrip_ascii s = s.
Proof. destruct 1 as [|c s Hc _]; simpl; [|rewrite Hc]; reflexivity. Qed.

Lemma digits_value_some (s : text) :
  Forall (fun c => 48 <= c <= 57) s ->
  forall acc, exists n, digits_value acc s = Some n.
Proof.
  induction 1 as [|c s Hc _ IH]; intros acc; simpl.
  - exists acc; reflexivity.
  - replace ((48 <=? c) && (c <=? 57)) with true by lia. apply IH.
Qed.

Lemma split_dot_digits (ip fp : text) :
  Forall (fun c => 48 <= c <= 57) ip ->
  split_dot (ip ++ DOT :: fp) = (ip, Some fp).
Proof.
  induction 1 as [|c s Hc _ IH]; simpl; [reflexivity|].
  replace (c =? DOT) with false by (unfold DOT; lia).
  rewrite IH; reflexivity.
Qed.

(** [float] reads every text of the shape digits, dot, two digits, as a
    number of hundredths. *)
Lemma float_of_str_money (w : text) :
  money_text db w -> exists n, float_of_str db w = inr (cents n).
Proof.
  intros (ip & fp & -> & Hip & Hfp & Hne & Hlen).
  destruct ip as [|c0 ip0]; [congruence|].
  assert (Hall : Forall (fun c => 48 <= c <= 57)
                   (map (to_ascii db) (c0 :: ip0))).
  { apply Forall_map; revert Hip; apply Forall_impl; exact to_ascii_digit. }
  assert (Hfp' : Forall (fun c => 48 <= c <= 57) (map (to_ascii db) fp)).
  { apply Forall_map; revert Hfp; apply Forall_impl; exact to_ascii_digit. }
  assert (Hmap : map (to_ascii db) ((c0 :: ip0) ++ DOT :: fp)
                 = map (to_ascii db) (c0 :: ip0) ++ DOT :: map (to_ascii db) fp)
    by (rewrite map_app; reflexivity).
  remember (map (to_ascii db) fp) as fpt eqn:Efp.
  remember (map (to_ascii db) (c0 :: ip0)) as ipt eqn:Eip.
  assert (Hns : Forall (fun c => is_ascii_space c = false) (ipt ++ DOT :: fpt)).
  { apply Forall_app; split; [|constructor; [reflexivity|]].
    - revert Hall; apply Forall_impl; intros c Hc; unfold is_ascii_space; lia.
    - revert Hfp'; apply Forall_impl; intros c Hc; unfold is_ascii_space; lia. }
  unfold float_of_str; rewrite Hmap.
  rewrite (lstrip_ascii_none _ Hns).
  rewrite (lstrip_ascii_none (rev _)) by (apply Forall_rev; exact Hns).
  rewrite rev_involutive.
  destruct ipt as [|c ipt]; [discriminate Eip|].
  assert (Hc : 48 <= c <= 57) by (inversion Hall; assumption).
  cbn [app].
  replace (c =? 45) with false by lia. replace (c =? 43) with false by lia.
  change (c :: ipt ++ DOT :: fpt) with ((c :: ipt) ++ DOT :: fpt).
  rewrite split_dot_digits by assumption.
  cbn [is_nil andb].
  destruct (digits_value_some ((c :: ipt) ++ fpt)) with (acc := 0) as [n Hn].
  { apply Forall_app; split; assumption. }
  rewrite Hn. exists n.
  replace (length fpt) with 2%nat by (rewrite Efp, length_map; auto).
  reflexivity.
Qed.

Lemma remove_char_app (c : char) (a b : text) :
  remove_char c (a ++ b) = remove_char c a ++ remove_char c b.
Proof. apply filter_app. Qed.

Lemma money_amount_text (w : text) : money_text db w -> amount_text db w.
Proof.
  intros H; unfold amount_text; rewrite remove_comma_money; assumption.
Qed.

(** What [(?:,\d{3})*] takes is digits once the commas are removed. *)
Lemma lang_comma_groups (w : text) :
  lang db (star (RSeq (lit COMMA) (times 3 digit))) w ->
  digits db (remove_char COMMA w).
Proof.
  intros (ws & -> & Hall & _).
  induction Hall as [|w ws Hw Hall IH]; simpl; [constructor|].
  rewrite remove_char_app; apply Forall_app; split; [|exact IH].
  destruct Hw as (w1 & w2 & -> & (a & -> & Ha) & Hd).
  apply lang_digit_rep in Hd; destruct Hd as (Hd & _).
  simpl in Ha; apply Z.eqb_eq in Ha; subst a.
  change (remove_char COMMA ([COMMA] ++ w2)) with (remove_char COMMA w2).
  rewrite remove_comma_digits; assumption.
Qed.

(** What [\d{1,3}(?:,\d{3})*\.\d{2}] takes. *)
Lemma lang_grouped_number (w : text) :
  lang db (cat [between 1 3 digit;
                star (RSeq (lit COMMA) (times 3 digit));
                lit DOT; times 2 digit]) w ->
  amount_text db w.
Proof.
  intros (w1 & w' & -> & H1 & w2 & w'' & -> & H2 & w3 & w4 & ->
          & (a & -> & Ha) & H4).
  apply lang_digit_rep in H1; destruct H1 as (Hd1 & Hl1 & _).
  apply lang_digit_rep in H4; destruct H4 as (Hd4 & Hl4 & Hm4).
  apply lang_comma_groups in H2.
  simpl in Ha; apply Z.eqb_eq in Ha; subst a.
  exists (w1 ++ remove_char COMMA w2), w4.
  rewrite !remove_char_app, (remove_comma_digits w1 Hd1),
    (remove_comma_digits w4 Hd4), <- app_assoc.
  repeat split; try assumption.
  - apply Forall_app; split; assumption.
  - destruct w1; [simpl in Hl1; lia | discriminate].
  - simpl in Hm4; lia.
Qed.

Lemma amount_patterns_grouped :
  Forall (fun p => grouped db (fun _ => amount_text db) p
                   /\ closes 1 p = true) amount_patterns.
Proof.
  repeat constructor; simpl; repeat split;
    auto using lang_money, money_amount_text.
  exact lang_grouped_number.
Qed.
End Money.

(** ** Signs of rounded results *)

Lemma iter_pos_invariant {A : Type} (P : A -> Prop) (f : A -> A) :
  (forall x, P x -> P (f x)) ->
  forall n x, P x -> P (iter_pos f n x).
Proof.
  intros Hf n; induction n as [n IH|n IH|]; intros x Hx; simpl; auto.
Qed.

Lemma shr_1_nonneg (mrs : shr_record) : 0 <= shr_m mrs -> 0 <= shr_m (shr_1 mrs).
Proof.
  destruct mrs as [m r s]; simpl; intros Hm.
  destruct m as [|[p|p|]|p]; simpl; lia.
Qed.

Lemma shr_fexp_nonneg (m e : Z) (l : location) :
  0 <= m -> 0 <= shr_m (fst (shr_fexp prec emax m e l)).
Proof.
  intros Hm; unfold shr_fexp, shr.
  assert (H0 : 0 <= shr_m (shr_record_of_loc m l))
    by (destruct l as [|[]]; exact Hm).
  destruct (fexp prec emax (Zdigits2 m + e) - e); simpl; try exact H0.
  apply iter_pos_invariant; [exact shr_1_nonneg | exact H0].
Qed.

Lemma round_nearest_even_nonneg (m : Z) (l : location) :
  0 <= m -> 0 <= round_nearest_even m l.
Proof.
  intros Hm; destruct l as [|[]]; simpl; try lia.
  destruct (Z.even m); lia.
Qed.

(** Rounding a magnitude keeps the sign it is given and yields no NaN. *)
Lemma binary_round_aux_signed (s : bool) (m e : Z) (l : location) :
  0 <= m -> signed s (binary_round_aux prec emax s m e l).
Proof.
  intros Hm; unfold binary_round_aux.
  pose proof (shr_fexp_nonneg m e l Hm) as H1.
  destruct (shr_fexp prec emax m e l) as [mrs' e']; simpl in H1.
  pose proof (shr_fexp_nonneg
                (round_nearest_even (shr_m mrs') (loc_of_shr_record mrs'))
                e' loc_Exact (round_nearest_even_nonneg _ _ H1)) as H2.
  destruct (shr_fexp prec emax _ e' loc_Exact) as [mrs'' e'']; simpl in H2.
  destruct (shr_m mrs'') as [|p|p]; [simpl; reflexivity | | lia].
  destruct (e'' <=? emax - prec); simpl; reflexivity.
Qed.

Lemma float_of_ratio_signed (s : bool) (n : Z) (d : positive) :
  signed s (float_of_ratio s n d).
Proof.
  unfold float_of_ratio; destruct n as [|n|n]; try (simpl; reflexivity).
  unfold SFdiv_core_binary.
  set (m' := match _ - _ - _ with Z0 => _ | Zpos _ => _ | Zneg _ => _ end).
  assert (Hm' : 0 <= m').
  { subst m'; destruct (_ - _ - _); try lia. apply Z.shiftl_nonneg; lia. }
  pose proof (Z.div_pos m' (Zpos d) Hm' ltac:(lia)) as Hq.
  unfold Z.div in Hq.
  destruct (Z.div_eucl m' (Zpos d)) as [q r]; simpl in Hq.
  apply binary_round_aux_signed; exact Hq.
Qed.

Lemma signed_nonneg (x : float) : signed false x -> fle fzero x = true.
Proof. destruct x as [[]|[]| |[] m e]; simpl; intros H; try discriminate; try contradiction; reflexivity. Qed.

Lemma nonneg_signed (x : float) : fle fzero x = true -> signed false x \/ x = S754_zero true.
Proof.
  destruct x as [[]|[]| |[] m e]; simpl; intros H; try discriminate;
    try (left; reflexivity); right; reflexivity.
Qed.

Lemma round2_nonneg (x : float) : fle fzero x = true -> fle fzero (round2 x) = true.
Proof.
  destruct x as [s|s| |s m e]; simpl; try (intros H; exact H).
  destruct s; [discriminate|]; intros _.
  apply signed_nonneg, float_of_ratio_signed.
Qed.

(** The sum of two floats that are zero or more is zero or more. *)
Lemma fadd_nonneg (x y : float) :
  fle fzero x = true -> fle fzero y = true -> fle fzero (fadd x y) = true.
Proof.
  intros Hx Hy.
  destruct x as [[]|[]| |[] mx ex]; try discriminate Hx;
    destruct y as [[]|[]| |[] my ey]; try discriminate Hy; try reflexivity.
  apply signed_nonneg. unfold fadd, SFadd, binary_normalize, binary_round.
  cbn [cond_Zopp].
  destruct (Zpos (fst (shl_align mx ex (Z.min ex ey)))
            + Zpos (fst (shl_align my ey (Z.min ex ey)))) as [|p|p] eqn:Hs;
    try lia; try (simpl; reflexivity).
  destruct (shl_align p _ _) as [mz ez].
  apply binary_round_aux_signed; lia.
Qed.

Lemma py_sum_nonneg (prices : list float) :
  Forall (fun p => fle fzero p = true) prices ->
  nonneg (py_sum prices) = true.
Proof.
  unfold py_sum.
  assert (H : forall acc, nonneg acc = true ->
                Forall (fun p => fle fzero p = true) prices ->
                nonneg (fold_left (fun acc p => Float (add_float acc p))
                          prices acc) = true).
  { induction prices as [|p ps IH]; intros acc Hacc Hps; simpl; [exact Hacc|].
    inversion Hps as [|? ? Hp Hps']; subst.
    apply IH; [|assumption]. simpl.
    destruct acc as [z|f]; simpl in *.
    - apply fadd_nonneg; [|assumption].
      unfold float_of_int, binary_normalize.
      destruct z as [|z|z]; try reflexivity; [|discriminate Hacc].
      apply signed_nonneg. unfold binary_round.
      destruct (shl_align z _ _) as [mz ez].
      apply binary_round_aux_signed; lia.
    - apply fadd_nonneg; assumption. }
  intros Hps; apply H; [reflexivity | assumption].
Qed.

Lemma round2_number_nonneg (n : number) :
  nonneg n = true -> nonneg (round2_number n) = true.
Proof. destruct n; simpl; [auto | apply round2_nonneg]. Qed.

Lemma flt_fle_zero (p : float) : flt fzero p = true -> fle fzero p = true.
Proof. destruct p as [[]|[]| |[] m e]; simpl; intros H; try discriminate; reflexivity. Qed.

Lemma item_total_nonneg (its : list item) :
  Forall kept its -> nonneg (item_total_of its) = true.
Proof.
  intros H; destruct its as [|it its']; [reflexivity|].
  unfold item_total_of; apply py_sum_nonneg.
  apply Forall_map; revert H; apply Forall_impl.
  intros a [Ha _]; apply flt_fle_zero, Ha.
Qed.

(** ** Rounding hundredths *)

Lemma Zdigits2_log2 (p : positive) :
  Zdigits2 (Zpos p) = Z.log2 (Zpos p) + 1.
Proof.
  unfold Zdigits2; induction p as [p IH|p IH|]; cbn [digits2_pos].
  - rewrite Pos2Z.inj_succ, IH, Pos2Z.inj_xI, Z.log2_succ_double; lia.
  - rewrite Pos2Z.inj_succ, IH, Pos2Z.inj_xO, Z.log2_double; lia.
  - reflexivity.
Qed.

Lemma Zdigits2_unique (a b : Z) :
  0 <= b -> 2 ^ b <= a < 2 ^ (b + 1) -> Zdigits2 a = b + 1.
Proof.
  intros Hb Ha. assert (0 < a) by (pose proof (Z.pow_pos_nonneg 2 b); lia).
  destruct a as [|p|p]; try lia.
  rewrite Zdigits2_log2. f_equal. apply Z.log2_unique; [assumption|].
  replace (Z.succ b) with (b + 1) by lia; exact Ha.
Qed.

Lemma Zdigits2_bounds (p : positive) :
  2 ^ (Zdigits2 (Zpos p) - 1) <= Zpos p < 2 ^ Zdigits2 (Zpos p).
Proof.
  rewrite Zdigits2_log2.
  pose proof (Z.log2_spec (Zpos p) ltac:(lia)) as H.
  replace (Z.log2 (Zpos p) + 1 - 1) with (Z.log2 (Zpos p)) by lia.
  replace (Z.log2 (Zpos p) + 1) with (Z.succ (Z.log2 (Zpos p))) by lia.
  exact H.
Qed.

(** The exponent out of [shr_fexp]. *)
Lemma shr_fexp_exponent (m e : Z) (l : location) :
  snd (shr_fexp prec emax m e l) = Z.max e (fexp prec emax (Zdigits2 m + e)).
Proof.
  unfold shr_fexp, shr.
  destruct (fexp prec emax (Zdigits2 m + e) - e) eqn:E; simpl; lia.
Qed.

Lemma binary_round_aux_exponent (s s' : bool) (m e : Z) (l : location)
    (m' : positive) (e' : Z) :
  binary_round_aux prec emax s m e l = S754_finite s' m' e' ->
  Z.max e (fexp prec emax (Zdigits2 m + e)) <= e'.
Proof.
  unfold binary_round_aux.
  pose proof (shr_fexp_exponent m e l) as H1.
  destruct (shr_fexp prec emax m e l) as [mrs1 e1]; simpl in H1.
  pose proof (shr_fexp_exponent
                (round_nearest_even (shr_m mrs1) (loc_of_shr_record mrs1))
                e1 loc_Exact) as H2.
  destruct (shr_fexp prec emax _ e1 loc_Exact) as [mrs2 e2]; simpl in H2.
  destruct (shr_m mrs2); try discriminate.
  destruct (e2 <=? emax - prec); try discriminate.
  intros H; inversion H; subst. lia.
Qed.

(** [round_half_even a b] is the integer within half of [a / b]. *)
Lemma round_half_even_near (a n : Z) (b : positive) :
  2 * Z.abs (a - n * Zpos b) < Zpos b -> round_half_even a b = n.
Proof.
  intros H; unfold round_half_even.
  pose proof (Z.div_eucl_eq a (Zpos b) ltac:(lia)) as Heq.
  pose proof (Z.mod_pos_bound a (Zpos b) ltac:(lia)) as Hr.
  unfold Z.modulo in Hr.
  destruct (Z.div_eucl a (Zpos b)) as [q r].
  assert (q = n \/ q = n - 1) as [Hq|Hq] by nia.
  - subst q. destruct (Z.compare_spec (2 * r) (Zpos b)); try lia.
  - subst q. destruct (Z.compare_spec (2 * r) (Zpos b)); try lia.
Qed.

Lemma shr_fexp_53 (q e : Z) (l : location) :
  Zdigits2 q = 53 -> -1074 <= e ->
  shr_fexp prec emax q e l = (shr_record_of_loc q l, e).
Proof.
  intros Hd He; unfold shr_fexp; rewrite Hd.
  replace (fexp prec emax (53 + e) - e) with 0
    by (unfold fexp, SpecFloat.emin, prec, emax; lia).
  reflexivity.
Qed.

Lemma shr_fexp_54 (q e : Z) (l : location) :
  Zdigits2 q = 54 -> -1075 <= e ->
  shr_fexp prec emax q e l = (shr_1 (shr_record_of_loc q l), e + 1).
Proof.
  intros Hd He; unfold shr_fexp; rewrite Hd.
  replace (fexp prec emax (54 + e) - e) with 1
    by (unfold fexp, SpecFloat.emin, prec, emax; lia).
  reflexivity.
Qed.

Lemma loc_of_shr_record_of_loc (m : Z) (l : location) :
  loc_of_shr_record (shr_record_of_loc m l) = l
  /\ shr_m (shr_record_of_loc m l) = m.
Proof. destruct l as [|[]]; split; reflexivity. Qed.

(** The last step of [binary_round_aux] on a rounded mantissa of 53 bits,
    or [2^53]. *)
Lemma round_tail (m1 e : Z) :
  2 ^ 52 <= m1 <= 2 ^ 53 -> -1074 <= e <= 969 ->
  exists m t,
    (let '(mrs, e2) := shr_fexp prec emax m1 e loc_Exact in
     match shr_m mrs with
     | Z0 => S754_zero false
     | Zpos m => if e2 <=? emax - prec then S754_finite false m e2
                 else S754_infinity false
     | Zneg _ => S754_nan
     end) = S754_finite false m (e + t)
    /\ 0 <= t <= 1 /\ Zpos m * 2 ^ t = m1
    /\ 2 ^ 52 <= Zpos m < 2 ^ 53.
Proof.
  intros Hm He.
  destruct (Z.eq_dec m1 (2 ^ 53)) as [->|Hne].
  - rewrite shr_fexp_54; [|reflexivity|lia]. cbn [shr_record_of_loc shr_1 shr_m].
    change (2 ^ 53) with (Zpos (2 ^ 53)%positive).
    exists (2 ^ 52)%positive, 1. simpl shr_m.
    replace (e + 1 <=? emax - prec) with true by (unfold emax, prec; lia).
    repeat split; lia.
  - rewrite shr_fexp_53; [| |lia].
    + destruct m1 as [|p|p]; try lia. cbn [shr_record_of_loc shr_m].
      replace (e <=? emax - prec) with true by (unfold emax, prec; lia).
      exists p, 0. rewrite Z.add_0_r. repeat split; lia.
    + apply (Zdigits2_unique m1 52); lia.
Qed.

Lemma new_location_100 (r : Z) :
  new_location 100 r
  = if r =? 0 then loc_Exact else loc_Inexact (2 * r ?= 100).
Proof. reflexivity. Qed.

(** Rounding the quotient [q + r/100], [q] of 53 or 54 bits, scaled by
    [2^e]: the result is [m * 2^(e+t)] within half a unit of its last
    place. *)
Lemma rounded_quotient (q : positive) (r e : Z) :
  2 ^ 52 <= Zpos q < 2 ^ 54 -> 0 <= r < 100 -> -1074 <= e <= 960 ->
  exists m t,
    binary_round_aux prec emax false (Zpos q) e (new_location 100 r)
    = S754_finite false m (e + t)
    /\ 0 <= t <= 2
    /\ Z.abs (100 * (Zpos m * 2 ^ t) - (100 * Zpos q + r)) <= 50 * 2 ^ t
    /\ 2 ^ 52 <= Zpos m < 2 ^ 53.
Proof.
  intros Hq Hr He; unfold binary_round_aux.
  destruct (Z.lt_ge_cases (Zpos q) (2 ^ 53)) as [Hlt|Hge].
  - rewrite shr_fexp_53; [| apply (Zdigits2_unique (Zpos q) 52); lia | lia].
    destruct (loc_of_shr_record_of_loc (Zpos q) (new_location 100 r)) as [-> ->].
    set (m1 := round_nearest_even (Zpos q) (new_location 100 r)).
    assert (Hm1 : Z.abs (100 * m1 - (100 * Zpos q + r)) <= 50
                  /\ Zpos q <= m1 <= Zpos q + 1).
    { subst m1; rewrite new_location_100.
      destruct (Z.eqb_spec r 0) as [->|Hr0]; cbn [round_nearest_even]; [lia|].
      destruct (Z.compare_spec (2 * r) 100); cbn [round_nearest_even]; try lia.
      destruct (Z.even (Zpos q)); lia. }
    destruct (round_tail m1 e) as (m & t & Ht & Htr & Hval & Hm);
      [lia | lia |].
    exists m, t; split; [exact Ht|]. split; [lia|]. split; [|exact Hm].
    rewrite Hval.
    assert (0 < 2 ^ t) by (apply Z.pow_pos_nonneg; lia). lia.
  - rewrite shr_fexp_54; [| apply (Zdigits2_unique (Zpos q) 53); lia | lia].
    set (mrs := shr_1 (shr_record_of_loc (Zpos q) (new_location 100 r))).
    set (m1 := round_nearest_even (shr_m mrs) (loc_of_shr_record mrs)).
    assert (Hm1 : Z.abs (200 * m1 - (100 * Zpos q + r)) <= 100
                  /\ 2 ^ 52 <= m1 <= 2 ^ 53).
    { subst m1 mrs; rewrite new_location_100.
      destruct (Z.eqb_spec r 0) as [->|Hr0].
      - destruct q as [p|p|];
          cbn [shr_1 shr_record_of_loc shr_m loc_of_shr_record
               round_nearest_even orb]; try lia.
        destruct (Z.even (Zpos p)); lia.
      - destruct (Z.compare_spec (2 * r) 100);
          destruct q as [p|p|];
          cbn [shr_1 shr_record_of_loc shr_m loc_of_shr_record
               round_nearest_even orb]; lia. }
    destruct (round_tail m1 (e + 1)) as (m & t & Ht & Htr & Hval & Hm);
      [lia | lia |].
    exists m, (1 + t); split; [rewrite Z.add_assoc; exact Ht|]. split; [lia|].
    split; [|exact Hm].
    rewrite Z.pow_add_r by lia. change (2 ^ 1) with 2.
    assert (0 < 2 ^ t) by (apply Z.pow_pos_nonneg; lia). nia.
Qed.

(** A float below [2^18] read from [n] hundredths has [n] hundredths
    again when rounded to two decimals, and a mantissa of 53 bits. *)
Lemma cents_hundredths (n m : positive) (e : Z) :
  cents (Zpos n) = S754_finite false m e -> e <= -36 ->
  hundredths m e = Zpos n /\ 2 ^ 52 <= Zpos m < 2 ^ 53.
Proof.
  unfold cents, float_of_ratio, SFdiv_core_binary.
  pose proof (Zdigits2_bounds n) as Hn.
  assert (Hd1 : 1 <= Zdigits2 (Zpos n)) by (simpl; lia).
  change (Zdigits2 100) with 7.
  remember (Zdigits2 (Zpos n)) as d1 eqn:Hd1def.
  set (e' := Z.min (fexp prec emax (d1 + 0 - (7 + 0))) (0 - 0)).
  destruct (Z.div_eucl _ 100) as [q r] eqn:Hdiv.
  intros Hres He.
  pose proof (binary_round_aux_exponent _ _ _ _ _ _ _ Hres) as Hexp.
  assert (Hd24 : d1 <= 24)
    by (subst e'; unfold fexp, SpecFloat.emin, prec, emax in *; lia).
  assert (He' : e' = d1 - 60)
    by (subst e'; unfold fexp, SpecFloat.emin, prec, emax; lia).
  rewrite He' in *.
  replace (0 - 0 - (d1 - 60)) with (60 - d1) in Hdiv by lia.
  destruct (60 - d1) as [|s|s] eqn:Hs; try lia.
  rewrite Z.shiftl_mul_pow2 in Hdiv by lia.
  assert (Hpow : 2 ^ (d1 - 1) * 2 ^ Zpos s = 2 ^ 59 /\ 2 ^ d1 * 2 ^ Zpos s = 2 ^ 60).
  { rewrite <- !Z.pow_add_r by lia. split; f_equal; lia. }
  pose proof (Z.div_eucl_eq (Zpos n * 2 ^ Zpos s) 100 ltac:(lia)) as Heq.
  pose proof (Z.mod_pos_bound (Zpos n * 2 ^ Zpos s) 100 ltac:(lia)) as Hr.
  unfold Z.modulo in Hr; rewrite Hdiv in Heq, Hr.
  assert (Hps : 0 < 2 ^ Zpos s) by (apply Z.pow_pos_nonneg; lia).
  assert (HM : 2 ^ 59 <= Zpos n * 2 ^ Zpos s < 2 ^ 60) by nia.
  assert (Hq : 2 ^ 52 <= q < 2 ^ 54) by lia.
  destruct q as [|q|q]; try lia.
  destruct (rounded_quotient q r (d1 - 60) Hq Hr ltac:(lia))
    as (m0 & t & Hround & Ht & Hval & Hm).
  rewrite Hround in Hres; injection Hres as Hm0 He0; subst m0 e.
  split; [|exact Hm]. clear Hm.
  unfold hundredths.
  assert (Hk : d1 - 60 + t = Zneg (Z.to_pos (Zpos s - t)))
    by (rewrite <- Pos2Z.opp_pos, Z2Pos.id; lia).
  rewrite Hk.
  apply round_half_even_near.
  rewrite Pos2Z.inj_pow, Z2Pos.id by lia.
  assert (Hsplit : 2 ^ Zpos s = 2 ^ (Zpos s - t) * 2 ^ t)
    by (rewrite <- Z.pow_add_r by lia; f_equal; lia).
  assert (Hbig : 2 ^ 34 <= 2 ^ (Zpos s - t))
    by (apply Z.pow_le_mono_r; lia).
  assert (Ht' : t = 0 \/ t = 1 \/ t = 2) by lia.
  set (P := 2 ^ (Zpos s - t)) in *.
  destruct Ht' as [-> | [-> | ->]];
    [change (2 ^ 0) with 1 in * | change (2 ^ 1) with 2 in *
     | change (2 ^ 2) with 4 in *]; lia.
Qed.

Lemma round2_cents (n : Z) :
  fle (cents n) lit_99999_99 = true -> round2 (cents n) = cents n.
Proof.
  destruct n as [|n|n]; try reflexivity.
  pose proof (float_of_ratio_signed false (Zpos n) 100) as Hs.
  fold (cents (Zpos n)) in Hs.
  destruct (cents (Zpos n)) as [s|s| |s m e] eqn:Hc; try reflexivity.
  simpl in Hs; subst s. intros Hle.
  assert (He : e <= -36).
  { revert Hle; unfold fle, SFleb.
    change lit_99999_99 with (S754_finite false 6871946986405233 (-36)).
    cbn [SFcompare]. destruct (Z.compare_spec e (-36)); try discriminate; lia. }
  unfold round2. rewrite (proj1 (cents_hundredths n m e Hc He)). exact Hc.
Qed.

(** ** Differences *)

Lemma iter_xO_value (m d : positive) :
  Zpos (Pos.iter xO m d) = Zpos m * 2 ^ Zpos d.
Proof.
  apply (Pos.iter_ind positive xO m
           (fun p a => Zpos a = Zpos m * 2 ^ Zpos p)).
  - rewrite Pos2Z.inj_xO; change (2 ^ 1) with 2; lia.
  - intros p a Ha.
    rewrite Pos2Z.inj_xO, Ha, Pos2Z.inj_succ, Z.pow_succ_r by lia; lia.
Qed.

Lemma shl_align_value (m : positive) (e e' : Z) :
  e' <= e -> Zpos (fst (shl_align m e e')) = Zpos m * 2 ^ (e - e').
Proof.
  intros He; unfold shl_align.
  destruct (e' - e) as [|d|d] eqn:Hd; try lia; simpl fst.
  - replace (e - e') with 0 by lia; lia.
  - rewrite iter_xO_value. replace (e - e') with (Zpos d) by lia. reflexivity.
Qed.

(** The difference of two positive floats with mantissas of 53 bits, the
    first not below the second, is zero or more. *)
Lemma fsub_normal_nonneg (mx my : positive) (ex ey : Z) :
  2 ^ 52 <= Zpos mx < 2 ^ 53 -> 2 ^ 52 <= Zpos my < 2 ^ 53 ->
  fle (S754_finite false my ey) (S754_finite false mx ex) = true ->
  signed false (fsub (S754_finite false mx ex) (S754_finite false my ey)).
Proof.
  intros Hx Hy Hle.
  unfold fsub, SFsub, binary_normalize; cbn [cond_Zopp].
  rewrite !shl_align_value by lia.
  assert (HD : 0 <= Zpos mx * 2 ^ (ex - Z.min ex ey)
                    - Zpos my * 2 ^ (ey - Z.min ex ey)).
  { revert Hle; unfold fle, SFleb; cbn [SFcompare].
    destruct (Z.compare_spec ey ex) as [->|Hlt|Hgt]; try discriminate.
    - rewrite Z.min_id, Z.sub_diag; change (2 ^ 0) with 1.
      change (Pos.compare_cont Eq my mx) with (Pos.compare my mx).
      destruct (Pos.compare_spec my mx); try discriminate; lia.
    - intros _. rewrite Z.min_r by lia. rewrite Z.sub_diag; change (2 ^ 0) with 1.
      assert (2 <= 2 ^ (ex - ey)).
      { change 2 with (2 ^ 1) at 1. apply Z.pow_le_mono_r; lia. }
      nia. }
  destruct (Zpos mx * 2 ^ (ex - Z.min ex ey) - Zpos my * 2 ^ (ey - Z.min ex ey))
    as [|p|p]; try lia; [simpl; reflexivity|].
  unfold binary_round. destruct (shl_align p _ _) as [mz ez].
  apply binary_round_aux_signed; lia.
Qed.

(** A tax that is positive and at most a candidate amount leaves a
    difference of zero or more. *)
Lemma fsub_candidate_nonneg (a : float) (nt : Z) :
  candidate a -> flt fzero (cents nt) = true -> fle (cents nt) a = true ->
  fle fzero (fsub a (cents nt)) = true.
Proof.
  intros [[Hlo Hhi] [na ->]] Hpos Hle.
  destruct (cents na) as [[]|[]| |[] ma ea] eqn:Ha; try discriminate Hlo;
    try discriminate Hhi.
  destruct (cents nt) as [[]|[]| |[] mt et] eqn:Ht; try discriminate Hpos;
    try discriminate Hle.
  assert (Hea : ea <= -36).
  { revert Hhi; unfold fle, SFleb.
    change lit_99999_99 with (S754_finite false 6871946986405233 (-36)).
    cbn [SFcompare]. destruct (Z.compare_spec ea (-36)); try discriminate; lia. }
  assert (Het : et <= ea).
  { revert Hle; unfold fle, SFleb; cbn [SFcompare].
    destruct (Z.compare_spec et ea); try discriminate; lia. }
  destruct na as [|na|na]; try discriminate Ha.
  destruct nt as [|nt|nt]; try discriminate Ht.
  destruct (cents_hundredths na ma ea Ha Hea) as [_ Hma].
  destruct (cents_hundredths nt mt et Ht ltac:(lia)) as [_ Hmt].
  apply signed_nonneg, fsub_normal_nonneg; assumption.
Qed.

(** ** Shifts of a mantissa *)

Lemma shr_1_half (mrs : shr_record) :
  0 <= shr_m mrs -> shr_m (shr_1 mrs) = shr_m mrs / 2.
Proof.
  destruct mrs as [m r s]; cbn [shr_1 shr_m].
  destruct m as [|[p|p|]|p]; cbn [shr_m]; intros H; try lia;
    try reflexivity.
  - apply (Z.div_unique _ 2 _ 1); lia.
  - apply (Z.div_unique _ 2 _ 0); lia.
Qed.

Lemma iter_shr_1 (n : positive) :
  forall mrs, 0 <= shr_m mrs ->
    shr_m (iter_pos shr_1 n mrs) = shr_m mrs / 2 ^ Zpos n.
Proof.
  assert (Hstep : forall mrs, 0 <= shr_m mrs -> 0 <= shr_m (shr_1 mrs)).
  { intros mrs H; rewrite shr_1_half by exact H. apply Z.div_pos; lia. }
  induction n as [n IH|n IH|]; intros mrs H; cbn [iter_pos];
    try assert (Hpn : 0 < 2 ^ Zpos n) by (apply Z.pow_pos_nonneg; lia).
  - assert (H1 : 0 <= shr_m (shr_1 mrs)) by (apply Hstep, H).
    assert (H2 : 0 <= shr_m (iter_pos shr_1 n (shr_1 mrs))).
    { rewrite IH by exact H1. apply Z.div_pos; [exact H1|].
      apply Z.pow_pos_nonneg; lia. }
    rewrite IH, IH, shr_1_half by assumption.
    rewrite !Z.div_div by lia.
    f_equal. replace (Zpos n~1) with (1 + Zpos n + Zpos n) by lia.
    rewrite !Z.pow_add_r by lia. change (2 ^ 1) with 2. lia.
  - assert (H2 : 0 <= shr_m (iter_pos shr_1 n mrs)).
    { rewrite IH by exact H. apply Z.div_pos; [exact H|].
      apply Z.pow_pos_nonneg; lia. }
    rewrite IH, IH by assumption.
    rewrite Z.div_div by lia.
    f_equal. replace (Zpos n~0) with (Zpos n + Zpos n) by lia.
    rewrite Z.pow_add_r by lia. reflexivity.
  - rewrite shr_1_half by exact H. reflexivity.
Qed.

(** A mantissa of [53 + k] bits loses its [k] low bits. *)
Lemma shr_fexp_wide (q e k : Z) (l : location) :
  0 < q -> Zdigits2 q = 53 + k -> 0 <= k -> -1074 <= e + k ->
  shr_m (fst (shr_fexp prec emax q e l)) = q / 2 ^ k
  /\ snd (shr_fexp prec emax q e l) = e + k.
Proof.
  intros Hq Hd Hk He; unfold shr_fexp; rewrite Hd.
  replace (fexp prec emax (53 + k + e) - e) with k
    by (unfold fexp, SpecFloat.emin, prec, emax; lia).
  destruct k as [|k|k]; try lia; cbn [shr fst snd].
  - destruct (loc_of_shr_record_of_loc q l) as [_ ->].
    rewrite Z.div_1_r; split; [reflexivity | lia].
  - rewrite iter_shr_1;
      destruct (loc_of_shr_record_of_loc q l) as [_ ->]; [|lia].
    split; reflexivity.
Qed.

Lemma round_nearest_even_bounds (m : Z) (l : location) :
  m <= round_nearest_even m l <= m + 1.
Proof.
  destruct l as [|[]]; simpl; try lia. destruct (Z.even m); lia.
Qed.

(** ** A sum is not below its float summand *)

(** What [shr_fexp] returns: the mantissa without its low bits, at the
    exponent of the format. *)
Lemma shr_fexp_value (m e : Z) (l : location) :
  0 <= m ->
  shr_m (fst (shr_fexp prec emax m e l))
  = m / 2 ^ (Z.max e (fexp prec emax (Zdigits2 m + e)) - e)
  /\ snd (shr_fexp prec emax m e l)
     = Z.max e (fexp prec emax (Zdigits2 m + e)).
Proof.
  intros Hm; split; [|apply shr_fexp_exponent].
  unfold shr_fexp, shr.
  destruct (loc_of_shr_record_of_loc m l) as [_ Hr].
  destruct (fexp prec emax (Zdigits2 m + e) - e) as [|n|n] eqn:E;
    cbn [fst].
  - replace (Z.max _ _ - e) with 0 by lia.
    rewrite Hr, Z.div_1_r; reflexivity.
  - rewrite iter_shr_1 by (rewrite Hr; exact Hm).
    rewrite Hr. f_equal. f_equal. lia.
  - replace (Z.max _ _ - e) with 0 by lia.
    rewrite Hr, Z.div_1_r; reflexivity.
Qed.

Lemma Zdigits2_pow (p : positive) (k : Z) :
  0 <= k -> (Zpos p < 2 ^ k <-> Zdigits2 (Zpos p) <= k).
Proof.
  intros Hk. pose proof (Zdigits2_bounds p) as [Hlo Hhi].
  assert (Hd : 0 < Zdigits2 (Zpos p)).
  { rewrite Zdigits2_log2. pose proof (Z.log2_nonneg (Zpos p)); lia. }
  split; intros H.
  - destruct (Z_le_gt_dec (Zdigits2 (Zpos p)) k) as [|Hgt]; [assumption|].
    assert (2 ^ k <= 2 ^ (Zdigits2 (Zpos p) - 1))
      by (apply Z.pow_le_mono_r; lia).
    lia.
  - assert (2 ^ Zdigits2 (Zpos p) <= 2 ^ k) by (apply Z.pow_le_mono_r; lia).
    lia.
Qed.

(** The digits of a mantissa cut by [shr_fexp] fit the format. *)
Lemma shr_fexp_fits (m e : Z) (l : location) :
  0 <= m ->
  let q := shr_m (fst (shr_fexp prec emax m e l)) in
  let E := snd (shr_fexp prec emax m e l) in
  0 <= q < 2 ^ 53 /\ -1074 <= E.
Proof.
  intros Hm; cbv zeta.
  destruct (shr_fexp_value m e l Hm) as [-> ->].
  set (E := Z.max e (fexp prec emax (Zdigits2 m + e))).
  assert (HE : -1074 <= E /\ Zdigits2 m + e - 53 <= E /\ e <= E)
    by (subst E; unfold fexp, SpecFloat.emin, prec, emax; lia).
  assert (Hp : 0 < 2 ^ (E - e)) by (apply Z.pow_pos_nonneg; lia).
  split; [|lia]. split; [apply Z.div_pos; lia|].
  apply Z.div_lt_upper_bound; [exact Hp|].
  destruct m as [|p|p]; [|clear Hm|lia].
  - assert (0 < 2 ^ 53) by (apply Z.pow_pos_nonneg; lia). nia.
  - rewrite <- Z.pow_add_r by lia.
    apply Zdigits2_pow; lia.
Qed.

(** Rounding a positive magnitude: the result is the magnitude cut at
    the exponent of the format, or the next mantissa. *)
Lemma binary_round_aux_value (m e : Z) (l : location) :
  0 < m ->
  let E := Z.max e (fexp prec emax (Zdigits2 m + e)) in
  let q := m / 2 ^ (E - e) in
  0 < q ->
  exists (mx : positive) (ex : Z),
    binary_round_aux prec emax false m e l
    = (if ex <=? emax - prec then S754_finite false mx ex
       else S754_infinity false)
    /\ E <= ex /\ q <= Zpos mx * 2 ^ (ex - E).
Proof.
  intros Hm E q Hq; unfold binary_round_aux.
  destruct (shr_fexp_value m e l ltac:(lia)) as [H1 H2].
  destruct (shr_fexp_fits m e l ltac:(lia)) as [Hfit HE].
  destruct (shr_fexp prec emax m e l) as [mrs1 e1]; cbn [fst snd] in *.
  fold E in H1, H2; fold q in H1. subst e1.
  set (r := round_nearest_even (shr_m mrs1) (loc_of_shr_record mrs1)).
  assert (Hr : q <= r <= q + 1)
    by (subst r; rewrite <- H1; apply round_nearest_even_bounds).
  rewrite H1 in Hfit.
  destruct (shr_fexp_value r E loc_Exact ltac:(lia)) as [H3 H4].
  destruct (shr_fexp prec emax r E loc_Exact) as [mrs2 e2];
    cbn [fst snd] in *.
  rewrite <- H4 in H3.
  assert (Hcase : Zdigits2 r <= 53 \/ r = 2 ^ 53).
  { destruct (Z_lt_le_dec r (2 ^ 53)) as [Hlt|Hge]; [left | right; lia].
    destruct r as [|p|p]; try lia. apply Zdigits2_pow; lia. }
  destruct Hcase as [Hd|Hd].
  - assert (He2 : e2 = E)
      by (rewrite H4; unfold fexp, SpecFloat.emin, prec, emax in *; lia).
    rewrite He2, Z.sub_diag, Z.div_1_r in H3.
    rewrite H3. destruct r as [|p|p]; try lia.
    exists p, e2; split; [reflexivity|].
    rewrite He2, Z.sub_diag, Z.mul_1_r; lia.
  - assert (He2 : e2 = E + 1).
    { rewrite H4, Hd.
      change (Zdigits2 (2 ^ 53)) with 54.
      unfold fexp, SpecFloat.emin, prec, emax in *; lia. }
    rewrite He2, Hd in H3. replace (E + 1 - E) with 1 in H3 by lia.
    change (2 ^ 53 / 2 ^ 1) with (2 ^ 52) in H3.
    rewrite H3. change (2 ^ 52) with (Zpos (2 ^ 52)%positive).
    eexists _, e2; split; [reflexivity|].
    rewrite He2. replace (E + 1 - E) with 1 by lia.
    change (Zpos (2 ^ 52) * 2 ^ 1) with (2 ^ 53). lia.
Qed.

(** Every finite float that comes out of a rounding has a mantissa of
    at most 53 bits and an exponent of the format. *)
Lemma binary_round_aux_bounded (s s' : bool) (m e : Z) (l : location)
    (m' : positive) (e' : Z) :
  0 <= m ->
  binary_round_aux prec emax s m e l = S754_finite s' m' e' ->
  Zpos m' < 2 ^ 53 /\ -1074 <= e'.
Proof.
  intros Hm; unfold binary_round_aux.
  pose proof (shr_fexp_nonneg m e l Hm) as H1.
  destruct (shr_fexp prec emax m e l) as [mrs1 e1]; cbn [fst] in H1.
  pose proof (shr_fexp_fits
                (round_nearest_even (shr_m mrs1) (loc_of_shr_record mrs1))
                e1 loc_Exact (round_nearest_even_nonneg _ _ H1)) as H2.
  cbv zeta in H2.
  destruct (shr_fexp prec emax _ e1 loc_Exact) as [mrs2 e2];
    cbn [fst snd] in H2.
  destruct (shr_m mrs2); try discriminate.
  destruct (e2 <=? emax - prec); try discriminate.
  intros H; inversion H; subst. lia.
Qed.

Lemma cents_bounded (n : Z) (m : positive) (e : Z) :
  cents n = S754_finite false m e -> Zpos m < 2 ^ 53 /\ -1074 <= e.
Proof.
  unfold cents, float_of_ratio; destruct n as [|n|n]; try discriminate.
  unfold SFdiv_core_binary.
  set (m' := match _ - _ - _ with Z0 => _ | Zpos _ => _ | Zneg _ => _ end).
  assert (Hm' : 0 <= m').
  { subst m'; destruct (_ - _ - _); try lia. apply Z.shiftl_nonneg; lia. }
  pose proof (Z.div_pos m' 100 Hm' ltac:(lia)) as Hq.
  unfold Z.div in Hq.
  destruct (Z.div_eucl m' 100) as [q r]; cbn [fst] in Hq.
  apply binary_round_aux_bounded; exact Hq.
Qed.

Lemma Zdigits2_shift (p : positive) (k : Z) :
  0 <= k -> Zdigits2 (Zpos p * 2 ^ k) = Zdigits2 (Zpos p) + k.
Proof.
  intros Hk. pose proof (Zdigits2_bounds p) as [Hlo Hhi].
  assert (Hd : 0 < Zdigits2 (Zpos p)).
  { rewrite Zdigits2_log2. pose proof (Z.log2_nonneg (Zpos p)); lia. }
  assert (Hp : 0 < 2 ^ k) by (apply Z.pow_pos_nonneg; lia).
  replace (Zdigits2 (Zpos p) + k) with (Zdigits2 (Zpos p) - 1 + k + 1)
    by lia.
  apply Zdigits2_unique; [lia|].
  replace (Zdigits2 (Zpos p) - 1 + k + 1) with (Zdigits2 (Zpos p) + k)
    by lia.
  rewrite !Z.pow_add_r by lia. nia.
Qed.

(** What [shl_align] returns. *)
Lemma shl_align_both (m : positive) (e e' : Z) :
  snd (shl_align m e e') = Z.min e e'
  /\ Zpos (fst (shl_align m e e')) = Zpos m * 2 ^ (e - Z.min e e').
Proof.
  unfold shl_align.
  destruct (e' - e) as [|d|d] eqn:Hd; cbn [fst snd].
  - rewrite Z.min_l by lia. rewrite Z.sub_diag; lia.
  - rewrite Z.min_l by lia. rewrite Z.sub_diag; lia.
  - rewrite Z.min_r by lia. split; [reflexivity|].
    rewrite iter_xO_value. f_equal. f_equal. lia.
Qed.

(** Rounding to nearest does not go below a float under the number
    rounded: for a float [mt * 2 ^ et] and a number [M * 2 ^ e0] that is
    not less, the result is plus infinity or a float that is not less. *)
Lemma binary_normalize_lower (M mt : positive) (e0 et : Z) :
  Zpos mt < 2 ^ 53 -> -1074 <= et -> e0 <= et ->
  Zpos mt * 2 ^ (et - e0) <= Zpos M ->
  match binary_normalize prec emax (Zpos M) e0 false with
  | S754_infinity false => True
  | S754_finite false mx ex =>
      Zpos mt * 2 ^ (et - Z.min ex et) <= Zpos mx * 2 ^ (ex - Z.min ex et)
  | _ => False
  end.
Proof.
  intros Hmt Het He0 HM.
  unfold binary_normalize, binary_round.
  change (Zpos (digits2_pos M)) with (Zdigits2 (Zpos M)).
  set (F := fexp prec emax (Zdigits2 (Zpos M) + e0)).
  destruct (shl_align_both M e0 F) as [Hez Hmz].
  destruct (shl_align M e0 F) as [mz ez]; cbn [fst snd] in Hez, Hmz.
  rewrite <- Hez in Hmz.
  assert (HF : -1074 <= F /\ Zdigits2 (Zpos M) + e0 - 53 <= F
               /\ (F = -1074 \/ F = Zdigits2 (Zpos M) + e0 - 53))
    by (subst F; unfold fexp, SpecFloat.emin, prec, emax; lia).
  assert (Hez' : ez <= e0 /\ ez <= F) by lia.
  assert (Hdz : Zdigits2 (Zpos mz) + ez = Zdigits2 (Zpos M) + e0).
  { rewrite Hmz, Zdigits2_shift by lia. lia. }
  assert (HE : Z.max ez (fexp prec emax (Zdigits2 (Zpos mz) + ez)) = F)
    by (rewrite Hdz; fold F; lia).
  (* in units of [2 ^ ez] *)
  assert (Hp1 : 0 < 2 ^ (e0 - ez)) by (apply Z.pow_pos_nonneg; lia).
  assert (Hp2 : 0 < 2 ^ (F - ez)) by (apply Z.pow_pos_nonneg; lia).
  assert (Hp3 : 0 < 2 ^ (et - e0)) by (apply Z.pow_pos_nonneg; lia).
  assert (HA : Zpos mt * 2 ^ (et - ez) <= Zpos mz).
  { rewrite Hmz. replace (et - ez) with (et - e0 + (e0 - ez)) by lia.
    rewrite Z.pow_add_r by lia.
    rewrite Z.mul_assoc. apply Z.mul_le_mono_nonneg_r; lia. }
  assert (HB : Zpos mt * 2 ^ (et - ez)
               <= Zpos mz / 2 ^ (F - ez) * 2 ^ (F - ez)).
  { destruct (Z_le_gt_dec F et) as [Hle|Hgt].
    - replace (et - ez) with (et - F + (F - ez)) in * by lia.
      rewrite Z.pow_add_r in * by lia.
      assert (0 < 2 ^ (et - F)) by (apply Z.pow_pos_nonneg; lia).
      assert (Zpos mt * 2 ^ (et - F) <= Zpos mz / 2 ^ (F - ez)).
      { apply Z.div_le_lower_bound; [exact Hp2 | lia]. }
      nia.
    - assert (Hd : Zdigits2 (Zpos mz) = 53 + (F - ez)) by lia.
      pose proof (Zdigits2_bounds mz) as [Hlo _]. rewrite Hd in Hlo.
      replace (53 + (F - ez) - 1) with (52 + (F - ez)) in Hlo by lia.
      rewrite Z.pow_add_r in Hlo by lia.
      assert (2 ^ 52 <= Zpos mz / 2 ^ (F - ez)).
      { apply Z.div_le_lower_bound; [exact Hp2 | lia]. }
      assert (Hpe : 2 * 2 ^ (et - ez) <= 2 ^ (F - ez)).
      { replace (F - ez) with (1 + (et - ez) + (F - et - 1)) by lia.
        rewrite !Z.pow_add_r by lia. change (2 ^ 1) with 2.
        assert (0 < 2 ^ (et - ez)) by (apply Z.pow_pos_nonneg; lia).
        assert (0 < 2 ^ (F - et - 1)) by (apply Z.pow_pos_nonneg; lia).
        nia. }
      assert (0 < 2 ^ (et - ez)) by (apply Z.pow_pos_nonneg; lia).
      change (2 ^ 53) with (2 * 2 ^ 52) in Hmt.
      assert (0 < 2 ^ 52) by reflexivity.
      nia. }
  assert (Hq : 0 < Zpos mz / 2 ^ (F - ez)).
  { assert (0 < 2 ^ (et - ez)) by (apply Z.pow_pos_nonneg; lia). nia. }
  pose proof (binary_round_aux_value (Zpos mz) ez loc_Exact ltac:(lia))
    as Hround.
  cbv zeta in Hround. rewrite HE in Hround.
  destruct (Hround Hq) as (mx & ex & -> & Hex & Hmx).
  destruct (ex <=? emax - prec); [|exact I].
  (* from units of [2 ^ ez] to units of [2 ^ min ex et] *)
  set (c := Z.min ex et).
  assert (Hc : ez <= c /\ c <= ex /\ c <= et) by lia.
  assert (Hpc : 0 < 2 ^ (c - ez)) by (apply Z.pow_pos_nonneg; lia).
  assert (H1 : Zpos mt * 2 ^ (et - ez)
               = Zpos mt * 2 ^ (et - c) * 2 ^ (c - ez)).
  { replace (et - ez) with (et - c + (c - ez)) by lia.
    rewrite Z.pow_add_r by lia. lia. }
  assert (H2 : Zpos mx * 2 ^ (ex - F) * 2 ^ (F - ez)
               = Zpos mx * 2 ^ (ex - c) * 2 ^ (c - ez)).
  { rewrite <- !Z.mul_assoc, <- !Z.pow_add_r by lia.
    f_equal. f_equal. lia. }
  assert (H3 : Zpos mz / 2 ^ (F - ez) * 2 ^ (F - ez)
               <= Zpos mx * 2 ^ (ex - F) * 2 ^ (F - ez)) by nia.
  nia.
Qed.

(** [(s + t) - t] is zero or more for a float [s] that is zero or more
    and a positive finite float [t]. *)
Lemma fsub_fadd_nonneg (s : float) (mt : positive) (et : Z) :
  fle fzero s = true -> Zpos mt < 2 ^ 53 -> -1074 <= et ->
  fle fzero (fsub (fadd s (S754_finite false mt et))
               (S754_finite false mt et)) = true.
Proof.
  intros Hs Hmt Het.
  assert (Hself : fle fzero (fsub (S754_finite false mt et)
                               (S754_finite false mt et)) = true).
  { unfold fsub, SFsub; cbn [cond_Zopp]. rewrite Z.sub_diag; reflexivity. }
  destruct s as [[]|[]| |[] ms es]; try discriminate Hs;
    try exact Hself; try reflexivity.
  unfold fadd, SFadd; cbn [cond_Zopp].
  set (e0 := Z.min es et).
  assert (HM : Zpos mt * 2 ^ (et - e0)
               <= Zpos (fst (shl_align ms es e0)
                        + fst (shl_align mt et e0))).
  { rewrite Pos2Z.inj_add, (shl_align_value mt et e0) by lia. lia. }
  pose proof (binary_normalize_lower _ mt e0 et Hmt Het ltac:(lia) HM)
    as Hlow.
  change (Zpos (fst (shl_align ms es e0)) + Zpos (fst (shl_align mt et e0)))
    with (Zpos (fst (shl_align ms es e0) + fst (shl_align mt et e0))).
  destruct (binary_normalize prec emax _ e0 false) as [[]|[]| |[] mx ex];
    try contradiction; [reflexivity|].
  apply signed_nonneg.
  unfold fsub, SFsub, binary_normalize; cbn [cond_Zopp].
  rewrite !shl_align_value by lia.
  destruct (Zpos mx * 2 ^ (ex - Z.min ex et)
            - Zpos mt * 2 ^ (et - Z.min ex et)) as [|p|p] eqn:Hd;
    try lia; [simpl; reflexivity|].
  unfold binary_round. destruct (shl_align p _ _) as [mz ez].
  apply binary_round_aux_signed; lia.
Qed.

(** The same for the total the parser computes without a candidate
    amount, from the item total and a finite positive tax. *)
Lemma item_total_plus_tax_minus_tax (n : number) (nt : Z) :
  nonneg n = true ->
  cents nt <> S754_infinity false ->
  fle fzero (fsub (add_float n (cents nt)) (cents nt)) = true.
Proof.
  intros Hn Hfin.
  assert (Hs : fle fzero (match n with
                          | Int z => float_of_int z
                          | Float g => g
                          end) = true).
  { destruct n as [z|g]; [|exact Hn].
    destruct z as [|p|p]; [reflexivity | | discriminate Hn].
    unfold float_of_int, binary_normalize, binary_round.
    destruct (shl_align p 0 _) as [mz ez].
    apply signed_nonneg, binary_round_aux_signed; lia. }
  assert (Ha : add_float n (cents nt)
               = fadd (match n with
                       | Int z => float_of_int z
                       | Float g => g
                       end) (cents nt)) by (destruct n; reflexivity).
  rewrite Ha; clear Ha.
  pose proof (float_of_ratio_signed false nt 100) as Hsg.
  fold (cents nt) in Hsg.
  destruct (cents nt) as [sz|si| |sf mt et] eqn:Hc; cbn [signed] in Hsg;
    try contradiction; subst.
  - (* tax zero *)
    destruct (match n with Int z => float_of_int z | Float g => g end)
      as [[]|[]| |[] ms es]; try discriminate Hs; reflexivity.
  - congruence.
  - destruct (cents_bounded nt mt et Hc) as [Hm He].
    apply fsub_fadd_nonneg; assumption.
Qed.

(** ** The item extractor *)

Lemma extract_items_spec (db : unicode_db) (txt : text) :
  exists its, extract_items_from_text db txt = inr its /\ Forall kept its.
Proof.
  unfold extract_items_from_text.
  apply (for_each_invariant (Forall kept) (fun _ => True)).
  - intros acc mtch Hacc _.
    destruct (float_of_str db _) as [e|p] eqn:Hf.
    + rewrite (float_of_str_exn _ _ _ Hf); simpl.
      exists acc; split; [reflexivity | assumption].
    + simpl. destruct (flt fzero p) eqn:Hp; simpl;
        [destruct (1 <? length (strip (fst mtch)))%nat eqn:Hn; simpl|];
        eexists; (split; [reflexivity|]); try assumption.
      apply Forall_app; split; [assumption|].
      constructor; [|constructor].
      split; simpl; [assumption | apply Nat.ltb_lt; assumption].
  - constructor.
  - apply Forall_forall; intros; exact I.
Qed.

(** ** What the item extractor passes to [float] *)

Section PriceText.
Variable db : unicode_db.

Lemma lang_class_rep (c : cclass) (lo : nat) (hi : option nat)
    (greedy : bool) (w : text) :
  lang db (RRep (RChar c) lo hi greedy) w ->
  Forall (fun a => in_class db c a = true) w.
Proof.
  intros (ws & -> & Hall & _).
  induction Hall as [|w ws (a & -> & Ha) Hall IH]; simpl;
    constructor; assumption.
Qed.

Lemma lang_price (w : text) :
  lang db (cat [opt currency; ws; money]) w -> Forall (price_char db) w.
Proof.
  intros (w1 & w' & -> & H1 & w2 & w3 & -> & H2 & H3).
  apply lang_class_rep in H1. apply lang_class_rep in H2.
  apply lang_money in H3. destruct H3 as (ip & fp & -> & Hip & Hfp & _).
  repeat (apply Forall_app; split); [| | |constructor].
  - revert H1; apply Forall_impl; intros a Ha; simpl in Ha.
    unfold price_char.
    destruct (Z.eqb_spec a DOLLAR); [tauto|].
    destruct (Z.eqb_spec a POUND); [tauto|].
    destruct (Z.eqb_spec a EURO); [tauto | discriminate].
  - revert H2; apply Forall_impl; intros a Ha; right; right; left; exact Ha.
  - revert Hip; apply Forall_impl; intros a Ha; left; exact Ha.
  - right; left; reflexivity.
  - revert Hfp; apply Forall_impl; intros a Ha; left; exact Ha.
Qed.

Lemma item_pattern_grouped :
  grouped db (fun i w => i = 2%nat -> Forall (price_char db) w) item_pattern
  /\ closes 2 item_pattern = true.
Proof.
  split; [|reflexivity]. simpl; repeat split; try discriminate.
  intros w Hw _; apply lang_price; exact Hw.
Qed.

Lemma Forall_lstrip {P : char -> Prop} (s : text) :
  Forall P s -> Forall P (lstrip s).
Proof.
  induction 1 as [|c s Hc Hs IH]; simpl; [constructor|].
  destruct (is_space c); [exact IH | constructor; assumption].
Qed.

Lemma Forall_strip {P : char -> Prop} (s : text) :
  Forall P s -> Forall P (strip s).
Proof.
  intros H; unfold strip.
  apply Forall_rev, Forall_lstrip, Forall_rev, Forall_lstrip, H.
Qed.

(** Every text the item extractor passes to [float] is made of decimal
    digits, dots, white space and currency signs. *)
Lemma item_price_text (txt : text) (mtch : text * text) :
  In mtch (findall2 db item_pattern txt) ->
  Forall (price_char db)
    (strip (remove_char COMMA (remove_char DOLLAR (snd mtch)))).
Proof.
  intros Hin; unfold findall2 in Hin.
  apply in_map_iff in Hin; destruct Hin as (gs & <- & Hin).
  destruct item_pattern_grouped as [Hg Hc].
  pose proof (scan_groups db _ 2 item_pattern Hg Hc _ _ _ _ Hin eq_refl) as H.
  apply Forall_strip. unfold remove_char.
  apply Forall_forall; intros c Hc'.
  apply filter_In in Hc'; destruct Hc' as [Hc' _].
  apply filter_In in Hc'; destruct Hc' as [Hc' _].
  exact (proj1 (Forall_forall _ _) H c Hc').
Qed.

(** None of these characters reads as a letter or an underscore. *)
Lemma price_char_plain (c : char) :
  price_char db c -> ~ letter_or_underscore (to_ascii db c).
Proof.
  unfold price_char, letter_or_underscore, to_ascii, is_decimal,
    decimal_value, UNDERSCORE, DOT, DOLLAR, POUND, EURO.
  destruct (c <? 128) eqn:Hc.
  - destruct ((48 <=? c) && (c <=? 57)) eqn:Hd; unfold is_space;
      intros [H|[H|[H|[H|[H|H]]]]]; try discriminate; lia.
  - destruct (is_space c); [lia|].
    destruct (uni_decimal db c) as [d|] eqn:Hd; [|lia].
    pose proof (uni_decimal_range db c d Hd); lia.
Qed.
End PriceText.

(** ** The tax extractor *)

Lemma first_tax_first_match (db : unicode_db) (txt : text)
    (patterns : list regex) :
  Forall (fun p => grouped db (fun _ => money_text db) p
                   /\ closes 1 p = true) patterns ->
  match first_match db patterns txt with
  | Some m =>
      exists n, float_of_str db m = inr (cents n)
                /\ first_tax db patterns txt = inr (cents n)
  | None => first_tax db patterns txt = inr fzero
  end.
Proof.
  induction 1 as [|p ps [Hg Hc] _ IH]; simpl; [reflexivity|].
  destruct (findall1 db p txt) as [|m ms] eqn:Hf; [exact IH|].
  assert (Hm : money_text db m).
  { apply (findall1_group db (fun _ => money_text db) p txt m Hg Hc).
    rewrite Hf; left; reflexivity. }
  destruct (float_of_str_money db m Hm) as [n Hv].
  exists n; split; [exact Hv|].
  simpl; rewrite (remove_comma_money db m Hm), Hv; reflexivity.
Qed.


(** ** The amount extractor *)

Section Amounts.
Variable db : unicode_db.

(** One round of the inner loop keeps the amounts collected candidates
    and does not raise. *)
Lemma amount_step (amounts : list float) (mtch : text) :
  Forall candidate amounts -> amount_text db mtch ->
  exists amounts',
    try_except_ValueError
      (amount <- float_of_str db (remove_char COMMA mtch) ;;
       if fle lit_0_01 amount && fle amount lit_99999_99
       then ret (amounts ++ [amount])
       else ret amounts)
      (ret amounts) = inr amounts'
    /\ Forall candidate amounts'.
Proof.
  intros Hin Hm.
  destruct (float_of_str_money db _ Hm) as [n Hf]; rewrite Hf; simpl.
  destruct (fle lit_0_01 (cents n)) eqn:H1; simpl;
    [destruct (fle (cents n) lit_99999_99) eqn:H2; simpl|];
    eexists; (split; [reflexivity|]); try assumption.
  apply Forall_app; split; [assumption|].
  constructor; [|constructor].
  split; [split; assumption | exists n; reflexivity].
Qed.

Lemma collected_amounts (txt : text) :
  exists amounts,
    for_each amount_patterns [] (fun amounts pattern =>
      for_each (findall1 db pattern txt) amounts (fun amounts mtch =>
        try_except_ValueError
          (amount <- float_of_str db (remove_char COMMA mtch) ;;
           if fle lit_0_01 amount && fle amount lit_99999_99
           then ret (amounts ++ [amount])
           else ret amounts)
          (ret amounts))) = inr amounts
    /\ Forall candidate amounts.
Proof.
  apply (for_each_invariant (Forall candidate)
           (fun p => grouped db (fun _ => amount_text db) p
                     /\ closes 1 p = true)).
  - intros acc pattern Hacc [Hg Hc].
    apply (for_each_invariant (Forall candidate) (amount_text db)).
    + intros acc' mtch Hacc' Hm; apply amount_step; assumption.
    + assumption.
    + apply Forall_forall; intros m Hm.
      exact (findall1_group db (fun _ => amount_text db) pattern txt m Hg Hc Hm).
  - constructor.
  - apply amount_patterns_grouped.
Qed.

(** The extractor returns, and what it returns are candidates in strictly
    descending order, hence without repetition. *)
Lemma extract_amounts_spec (txt : text) :
  exists l,
    extract_amounts_from_text db txt = inr l
    /\ Forall candidate l /\ StronglySorted fgt l /\ NoDup l.
Proof.
  destruct (collected_amounts txt) as (amounts & Hrun & Hin).
  exists (sorted_reverse (py_set amounts)).
  assert (Hset : Forall candidate (py_set amounts)).
  { apply Forall_forall; intros x Hx.
    exact (proj1 (Forall_forall _ _) Hin x (In_py_set _ _ Hx)). }
  assert (Hfin : Forall pos_finite (py_set amounts)).
  { revert Hset; apply Forall_impl; intros a [Ha _].
    exact (in_range_pos_finite a Ha). }
  assert (Hsorted : StronglySorted fgt (sorted_reverse (py_set amounts))).
  { apply sorted_reverse_sorted; [assumption | apply py_set_distinct]. }
  assert (Hall : Forall candidate (sorted_reverse (py_set amounts))).
  { apply Forall_forall; intros x Hx; apply (proj1 (In_sorted_reverse _ _)) in Hx.
    exact (proj1 (Forall_forall _ _) Hset x Hx). }
  split; [|split; [|split]]; try assumption.
  - unfold extract_amounts_from_text; rewrite Hrun; reflexivity.
  - apply sorted_desc_NoDup; [|assumption].
    revert Hall; apply Forall_impl; intros a [Ha _].
    exact (in_range_pos_finite a Ha).
Qed.

(** The list returned does not depend on the order in which the set of
    collected amounts is walked. *)
Lemma extract_amounts_any_set_order (txt : text) :
  exists collected,
    extract_amounts_from_text db txt = inr (sorted_reverse (py_set collected))
    /\ forall walk, Permutation walk (py_set collected) ->
                    sorted_reverse walk = sorted_reverse (py_set collected).
Proof.
  destruct (collected_amounts txt) as (amounts & Hrun & Hin).
  exists amounts; split.
  - unfold extract_amounts_from_text; rewrite Hrun; reflexivity.
  - intros walk Hperm; apply sorted_reverse_any_order;
      [| apply py_set_distinct | exact Hperm].
    apply Forall_forall; intros x Hx.
    destruct (proj1 (Forall_forall _ _) Hin x (In_py_set _ _ Hx)) as [Hr _].
    exact (in_range_pos_finite x Hr).
Qed.
End Amounts.

(** A candidate amount is its own rounding to two decimals. *)
Lemma round2_candidate (a : float) : candidate a -> round2 a = a.
Proof.
  intros [[_ Hhi] [n ->]]; apply round2_cents; exact Hhi.
Qed.

(** C5: for every text the amount extractor returns a list whose every
    element lies in [0.01, 99999.99], that is sorted strictly descending
    and holds no value twice. *)
Theorem amounts_in_range_strictly_descending (db : unicode_db) (txt : text) :
  exists l,
    extract_amounts_from_text db txt = inr l
    /\ Forall in_range l
    /\ StronglySorted fgt l
    /\ NoDup l
    /\ ForallOrdPairs fneq l.
Proof.
  destruct (extract_amounts_spec db txt) as (l & Hrun & Hin & Hs & Hnd).
  assert (Hfin : Forall pos_finite l).
  { revert Hin; apply Forall_impl; intros a [Ha _].
    exact (in_range_pos_finite a Ha). }
  exists l; repeat split; try assumption.
  - revert Hin; apply Forall_impl; intros a [Ha _]; exact Ha.
  - apply NoDup_distinct; assumption.
Qed.

(** ** Reconciliation *)

(** The tax extractor returns a float read from a number of hundredths. *)
Lemma extract_tax_returns (db : unicode_db) (txt : text) :
  exists n, extract_tax_from_text db txt = inr (cents n).
Proof.
  pose proof (Hfirst := first_tax_first_match db txt
                tax_patterns (tax_patterns_grouped db)).
  unfold extract_tax_from_text.
  destruct (first_match db tax_patterns txt) as [m|].
  - destruct Hfirst as (n & _ & Hn); exists n; exact Hn.
  - exists 0; assumption.
Qed.

(** The record in terms of what the three extractors return; none of
    them raises, and neither does the parser. *)
Lemma parse_receipt_spec (db : unicode_db) (now : datetime) (txt : text) :
  exists amounts tax its,
    extract_amounts_from_text db txt = inr amounts
    /\ extract_tax_from_text db txt = inr tax
    /\ extract_items_from_text db txt = inr its
    /\ parse_receipt_with_fallback db now txt
       = inr {| merchant := match nonblank_lines txt with
                            | [] => str "Unknown"
                            | line :: _ => line
                            end;
                date := strftime_ymd now;
                total := round2 (total_of amounts its tax);
                tax := round2 tax;
                subtotal := round2_number (subtotal_of amounts its tax);
                items := firstn 20 its;
                category := str "Other" |}.
Proof.
  destruct (extract_amounts_spec db txt) as (amounts & Ha & _).
  destruct (extract_tax_returns db txt) as (nt & Ht).
  destruct (extract_items_spec db txt) as (its & Hi & _).
  remember (cents nt) as tax eqn:Etax.
  exists amounts, tax, its; repeat split; try assumption.
  unfold parse_receipt_with_fallback; rewrite Ha, Ht, Hi; cbn [bind].
  fold (nonblank_lines txt).
  replace (match amounts with
           | [] => ret (add_float match its with
                                  | [] => Int 0
                                  | _ :: _ => py_sum (map price its)
                                  end tax)
           | _ :: _ => index0 amounts
           end) with (ret (A := float) (total_of amounts its tax))
    by (destruct amounts; reflexivity).
  cbn [bind ret].
  replace (match nonblank_lines txt with
           | [] => ret (str "Unknown")
           | _ :: _ => index0 (nonblank_lines txt)
           end)
    with (ret (A := text) match nonblank_lines txt with
                          | [] => str "Unknown"
                          | line :: _ => line
                          end)
    by (destruct (nonblank_lines txt); reflexivity).
  reflexivity.
Qed.

Lemma item_total_is_sum (its : list item) :
  item_total_of its = py_sum (map price its).
Proof. destruct its; reflexivity. Qed.

(** ** What the loops collect *)

Lemma collect_matches (db : unicode_db) (matches : list text) :
  forall amounts,
    for_each matches amounts (fun amounts mtch =>
      try_except_ValueError
        (amount <- float_of_str db (remove_char COMMA mtch) ;;
         if fle lit_0_01 amount && fle amount lit_99999_99
         then ret (amounts ++ [amount])
         else ret amounts)
        (ret amounts))
    = inr (amounts ++ flat_map (amount_of db) matches).
Proof.
  induction matches as [|m ms IH]; intros amounts; simpl.
  - rewrite app_nil_r; reflexivity.
  - unfold amount_of at 1.
    destruct (float_of_str db (remove_char COMMA m)) as [e|a] eqn:Hf.
    + rewrite (float_of_str_exn _ _ _ Hf); simpl. apply IH.
    + simpl. destruct (fle lit_0_01 a && fle a lit_99999_99); simpl;
        rewrite IH; [rewrite <- app_assoc|]; reflexivity.
Qed.

Lemma collect_patterns (db : unicode_db) (txt : text)
    (patterns : list regex) :
  forall amounts,
    for_each patterns amounts (fun amounts pattern =>
      for_each (findall1 db pattern txt) amounts (fun amounts mtch =>
        try_except_ValueError
          (amount <- float_of_str db (remove_char COMMA mtch) ;;
           if fle lit_0_01 amount && fle amount lit_99999_99
           then ret (amounts ++ [amount])
           else ret amounts)
          (ret amounts)))
    = inr (amounts
           ++ flat_map (fun pattern =>
                          flat_map (amount_of db) (findall1 db pattern txt))
                       patterns).
Proof.
  induction patterns as [|p ps IH]; intros amounts; simpl.
  - rewrite app_nil_r; reflexivity.
  - rewrite collect_matches; simpl. rewrite IH, <- app_assoc; reflexivity.
Qed.

(** The loop of the item extractor adds to the items what each match
    gives: a match whose price text [float] refuses adds nothing and the
    loop goes on. *)
Lemma collect_items (db : unicode_db) (matches : list (text * text)) :
  forall items,
    for_each matches items (fun items mtch =>
      let name := strip (fst mtch) in
      let price_str :=
        strip (remove_char COMMA (remove_char DOLLAR (snd mtch))) in
      try_except_ValueError
        (price <- float_of_str db price_str ;;
         if flt fzero price && (1 <? length name)%nat
         then ret (items ++ [{| name := name; price := price |}])
         else ret items)
        (ret items))
    = inr (items ++ flat_map (item_of db) matches).
Proof.
  induction matches as [|m ms IH]; intros items; simpl.
  - rewrite app_nil_r; reflexivity.
  - unfold item_of at 1; cbv zeta.
    destruct (float_of_str db _) as [e|p] eqn:Hf.
    + rewrite (float_of_str_exn _ _ _ Hf); simpl. apply IH.
    + simpl. destruct (flt fzero p && (1 <? length (strip (fst m)))%nat);
        simpl; rewrite IH; [rewrite <- app_assoc|]; reflexivity.
Qed.

(** ** The claims *)

(** C1, as stated, fails: on "Total: $45.67\nTax $3.00\nWidget $10.00"
    the item pattern also takes the lines "Total: $45.67" and
    "Tax $3.00", so the record lists three items, not the Widget alone. *)
Lemma total_and_tax_lines_are_items :
  exists r,
    parse_receipt_with_fallback ascii_db a_day receipt_with_total = inr r
    /\ map name (items r) = [str "Total:"; str "Tax"; str "Widget"]
    /\ items r <> [ {| name := str "Widget"; price := cents 1000 |} ].
Proof.
  eexists; split; [vm_compute; reflexivity|].
  split; [reflexivity | discriminate].
Qed.

(** C1, amended: on that text the record has total 45.67, tax 3.00,
    subtotal 42.67 and the three items Total: 45.67, Tax 3.00 and
    Widget 10.00, in this order. *)
Theorem receipt_with_total_record (db : unicode_db) (now : datetime) :
  parse_receipt_with_fallback db now receipt_with_total
  = inr {| merchant := str "Total: $45.67";
           date := strftime_ymd now;
           total := cents 4567;
           tax := cents 300;
           subtotal := Float (cents 4267);
           items := [ {| name := str "Total:"; price := cents 4567 |};
                      {| name := str "Tax"; price := cents 300 |};
                      {| name := str "Widget"; price := cents 1000 |} ];
           category := str "Other" |}.
Proof. vm_compute; reflexivity. Qed.

(** C2, as stated, fails: on "Pen $2.50\nBook $12.00" the amount
    extractor takes the two dollar prices as candidates, so the total is
    the larger of them, 12.00, not the sum 14.50. *)
Lemma two_items_total_is_largest_price :
  exists r,
    parse_receipt_with_fallback ascii_db a_day two_items = inr r
    /\ extract_amounts_from_text ascii_db two_items
       = inr [cents 1200; cents 250]
    /\ total r = cents 1200
    /\ feq (total r) (cents 1450) = false.
Proof.
  eexists; split; [vm_compute; reflexivity|].
  repeat split; vm_compute; reflexivity.
Qed.

(** C2, amended: on that text the total is 12.00, the largest candidate
    amount, and the subtotal is 14.50, the sum of the two item prices. *)
Theorem two_items_record (db : unicode_db) (now : datetime) :
  exists r,
    parse_receipt_with_fallback db now two_items = inr r
    /\ total r = cents 1200
    /\ tax r = fzero
    /\ subtotal r = Float (cents 1450).
Proof.
  eexists; split; [vm_compute; reflexivity|].
  repeat split; vm_compute; reflexivity.
Qed.

(** C3, as stated, fails: the field is rounded to two decimals.  On
    "Pen 1000.10\nInk 1000.20" there is no candidate amount, the item
    prices add up to the float 2000.3000000000002, and the total returned
    is 2000.3. *)
Lemma total_is_rounded :
  exists r tax its,
    extract_amounts_from_text ascii_db inexact_sum = inr []
    /\ extract_tax_from_text ascii_db inexact_sum = inr tax
    /\ extract_items_from_text ascii_db inexact_sum = inr its
    /\ parse_receipt_with_fallback ascii_db a_day inexact_sum = inr r
    /\ add_float (py_sum (map price its)) tax
       = S754_finite false 8797412436161332 (-42)
    /\ total r = S754_finite false 8797412436161331 (-42)
    /\ feq (total r) (add_float (py_sum (map price its)) tax) = false.
Proof.
  do 3 eexists.
  split; [vm_compute; reflexivity|].
  split; [vm_compute; reflexivity|].
  split; [vm_compute; reflexivity|].
  split; [vm_compute; reflexivity|].
  repeat split; vm_compute; reflexivity.
Qed.

(** C3, amended: the total field equals the largest candidate amount
    (the first of the extractor's list, above all the others) when there
    is one, and otherwise equals [round(_, 2)] of the sum of all
    extracted item prices plus the extracted tax. *)
Theorem total_is_largest_amount_or_rounded_sum
    (db : unicode_db) (now : datetime) (txt : text) :
  exists amounts tax its r,
    extract_amounts_from_text db txt = inr amounts
    /\ extract_tax_from_text db txt = inr tax
    /\ extract_items_from_text db txt = inr its
    /\ parse_receipt_with_fallback db now txt = inr r
    /\ match amounts with
       | largest :: others =>
           total r = largest
           /\ Forall (fun a => flt a largest = true) others
       | [] => total r = round2 (add_float (py_sum (map price its)) tax)
       end.
Proof.
  destruct (parse_receipt_spec db now txt) as (amounts & tax & its & Ha & Ht & Hi & Hp).
  exists amounts, tax, its; eexists; repeat split; try eassumption.
  destruct (extract_amounts_spec db txt) as (l & Hl & Hc & Hs & _).
  rewrite Ha in Hl; inversion Hl; subst l.
  destruct amounts as [|a others]; simpl.
  - rewrite item_total_is_sum; reflexivity.
  - inversion Hc as [|? ? Hca _]; subst.
    split; [apply round2_candidate; exact Hca|].
    apply StronglySorted_inv in Hs; exact (proj2 Hs).
Qed.

(** C4, as stated, fails: on "tax5.00 $1.00" the only candidate amount
    is 1.00 while the tax read is 5.00, and the subtotal is -4.0. *)
Lemma subtotal_negative :
  exists r,
    parse_receipt_with_fallback ascii_db a_day tax_above_total = inr r
    /\ total r = cents 100
    /\ tax r = cents 500
    /\ subtotal r = Float (SFopp (cents 400))
    /\ nonneg (subtotal r) = false.
Proof.
  eexists; split; [vm_compute; reflexivity|].
  repeat split; vm_compute; reflexivity.
Qed.

(** C4, as stated, fails a second way: on "tax " followed by 310 nines
    and ".00" there is no candidate amount, [float] reads the tax as
    infinity, the total is infinity and the subtotal, infinity minus
    infinity, is NaN. *)
Lemma subtotal_nan_on_overflowing_tax :
  exists r,
    extract_amounts_from_text ascii_db overflowing_tax = inr []
    /\ parse_receipt_with_fallback ascii_db a_day overflowing_tax = inr r
    /\ total r = S754_infinity false
    /\ tax r = S754_infinity false
    /\ subtotal r = Float S754_nan
    /\ nonneg (subtotal r) = false.
Proof.
  eexists; split; [vm_compute; reflexivity|].
  split; [vm_compute; reflexivity|].
  repeat split; vm_compute; reflexivity.
Qed.

(** C4, amended: when no positive tax is extracted the subtotal field is
    the rounded item total and is non-negative; when the extracted tax is
    positive the field is [round(total - tax, 2)], and it is non-negative
    unless there is a candidate amount and the tax exceeds the largest
    one, which is then the total, or there is no candidate amount and the
    tax is infinite. *)
Theorem subtotal_nonneg_unless_tax_exceeds_total
    (db : unicode_db) (now : datetime) (txt : text) :
  exists amounts tax its r,
    extract_amounts_from_text db txt = inr amounts
    /\ extract_tax_from_text db txt = inr tax
    /\ extract_items_from_text db txt = inr its
    /\ parse_receipt_with_fallback db now txt = inr r
    /\ if flt fzero tax
       then subtotal r = Float (round2 (fsub (total_of amounts its tax) tax))
            /\ match amounts with
               | largest :: _ =>
                   nonneg (subtotal r) = true \/ flt largest tax = true
               | [] =>
                   nonneg (subtotal r) = true \/ tax = S754_infinity false
               end
       else subtotal r = round2_number (py_sum (map price its))
            /\ nonneg (subtotal r) = true.
Proof.
  destruct (parse_receipt_spec db now txt) as (amounts & tax & its & Ha & Ht & Hi & Hp).
  exists amounts, tax, its; eexists; repeat split; try eassumption.
  destruct (extract_items_spec db txt) as (l & Hl & Hkept).
  rewrite Hi in Hl; inversion Hl; subst l.
  destruct (extract_amounts_spec db txt) as (l & Hl' & Hcand & _).
  rewrite Ha in Hl'; inversion Hl'; subst l.
  destruct (extract_tax_returns db txt) as (nt & Hnt).
  rewrite Ht in Hnt; inversion Hnt; subst tax.
  cbn [subtotal]; unfold subtotal_of.
  destruct (flt fzero (cents nt)) eqn:Hpos.
  - split; [reflexivity|].
    destruct amounts as [|largest others].
    + assert (Hinf : cents nt = S754_infinity false
                     \/ cents nt <> S754_infinity false)
        by (destruct (cents nt) as [|[]| |]; auto; right; discriminate).
      destruct Hinf as [Hinf|Hfin]; [right; exact Hinf | left].
      cbn [round2_number nonneg total_of].
      apply round2_nonneg, item_total_plus_tax_minus_tax;
        [apply item_total_nonneg, Hkept | exact Hfin].
    + inversion Hcand as [|? ? Hc _]; subst.
      destruct (fle (cents nt) largest) eqn:Hle.
      * left; cbn [round2_number nonneg total_of].
        apply round2_nonneg, fsub_candidate_nonneg; assumption.
      * right. destruct Hc as [Hr _].
        exact (not_fle_flt _ _ Hpos (in_range_pos_finite _ Hr) Hle).
  - rewrite item_total_is_sum; split; [reflexivity|].
    rewrite <- item_total_is_sum.
    apply round2_number_nonneg, item_total_nonneg, Hkept.
Qed.

(** The order of the tax patterns decides: on "$5.00 tax 2.00" the
    amount-before-keyword pattern matches "5.00", the keyword-before-amount
    patterns match "2.00", and the tax is 2.00. *)
Lemma keyword_before_amount_wins :
  map (fun p => findall1 ascii_db p tax_both_ways) tax_patterns
  = [[str "2.00"]; [str "2.00"]; [str "5.00"]]
  /\ extract_tax_from_text ascii_db tax_both_ways = inr (cents 200).
Proof. split; vm_compute; reflexivity. Qed.

(** C7, the failing input: on "Tea £3.00" the item pattern matches with
    the name "Tea" and the price text "£3.00"; only the dollar sign is
    removed from the price text, [float] raises on the pound sign, and the
    entry is dropped although its price 3.00 is positive and its name has
    three characters. *)
Theorem pound_price_is_dropped :
  findall2 ascii_db item_pattern pound_item = [(str "Tea", POUND :: str "3.00")]
  /\ float_of_str ascii_db
       (strip (remove_char COMMA (remove_char DOLLAR (POUND :: str "3.00"))))
     = inl ValueError
  /\ float_of_str ascii_db (str "3.00") = inr (cents 300)
  /\ extract_items_from_text ascii_db pound_item = inr [].
Proof. repeat split; vm_compute; reflexivity. Qed.

(** C8: the parser never raises.  For every text it returns a record.
    A numeric parse that fails skips the one candidate and nothing
    else: the amounts are the set, sorted, of what every match of every
    amount pattern gives, and the items are what every match of the item
    pattern gives, in the order of the matches, where a match that
    [float] refuses gives nothing.  The category is always "Other"; the
    merchant is "Unknown" when the text has no non-blank line, and the
    tax is 0.0 when no tax pattern matches. *)
Theorem parse_never_raises (db : unicode_db) (now : datetime) (txt : text) :
  exists r,
    parse_receipt_with_fallback db now txt = inr r
    /\ extract_amounts_from_text db txt
       = inr (sorted_reverse
                (py_set
                   (flat_map (fun pattern =>
                                flat_map (amount_of db)
                                         (findall1 db pattern txt))
                             amount_patterns)))
    /\ extract_items_from_text db txt
       = inr (flat_map (item_of db) (findall2 db item_pattern txt))
    /\ items r
       = firstn 20 (flat_map (item_of db) (findall2 db item_pattern txt))
    /\ category r = str "Other"
    /\ (nonblank_lines txt = [] -> merchant r = str "Unknown")
    /\ (first_match db tax_patterns txt = None -> tax r = fzero).
Proof.
  destruct (parse_receipt_spec db now txt) as (amounts & t & its & Ha & Ht & Hi & Hp).
  assert (Hitems : extract_items_from_text db txt
                   = inr (flat_map (item_of db)
                            (findall2 db item_pattern txt))).
  { unfold extract_items_from_text. rewrite collect_items; reflexivity. }
  eexists; split; [exact Hp|]; cbn [category merchant tax items].
  split.
  { unfold extract_amounts_from_text.
    rewrite collect_patterns; reflexivity. }
  split; [exact Hitems|].
  split; [rewrite Hitems in Hi; inversion Hi; reflexivity|].
  split; [reflexivity|]; split.
  - intros ->; reflexivity.
  - intros Hnone.
    pose proof (first_tax_first_match db txt tax_patterns
                  (tax_patterns_grouped db)) as Hfirst.
    rewrite Hnone in Hfirst. unfold extract_tax_from_text in Ht.
    rewrite Hfirst in Ht; inversion Ht; reflexivity.
Qed.

(** On the empty text the defaults of C8 are reached. *)
Lemma parse_never_raises_on_empty_text :
  exists r,
    parse_receipt_with_fallback ascii_db a_day [] = inr r
    /\ category r = str "Other"
    /\ merchant r = str "Unknown"
    /\ tax r = fzero.
Proof.
  destruct (parse_never_raises ascii_db a_day [])
    as (r & Hr & _ & _ & _ & Hc & Hm & Ht).
  exists r; repeat split; [exact Hr | exact Hc | apply Hm | apply Ht];
    reflexivity.
Defined.

(** A price that [float] refuses costs its own line only: on
    "Pen 2.00\nTea £3.00\nInk 4.00" the pattern matches three times, the
    pound price is refused, and Pen and Ink are returned. *)
Lemma refused_price_skips_one_item :
  map fst (findall2 ascii_db item_pattern pound_between_items)
  = [str "Pen"; str "Tea"; str "Ink"]
  /\ extract_items_from_text ascii_db pound_between_items
     = inr [ {| name := str "Pen"; price := cents 200 |};
             {| name := str "Ink"; price := cents 400 |} ].
Proof. split; vm_compute; reflexivity. Qed.

(** C9: the clock read shows in the date field alone.  Two runs on one
    text return the same record up to the day stamped, hence the same
    record when the clock read is the same. *)
Theorem parse_deterministic_but_date
    (db : unicode_db) (now1 now2 : datetime) (txt : text) :
  exists r,
    parse_receipt_with_fallback db now1 txt = inr r
    /\ date r = strftime_ymd now1
    /\ parse_receipt_with_fallback db now2 txt
       = inr (with_date (strftime_ymd now2) r)
    /\ with_date (strftime_ymd now1) r = r.
Proof.
  destruct (parse_receipt_spec db now1 txt) as (amounts & tax & its & Ha & Ht & Hi & Hp).
  destruct (parse_receipt_spec db now2 txt) as (amounts' & tax' & its' & Ha' & Ht' & Hi' & Hp').
  rewrite Ha in Ha'; rewrite Ht in Ht'; rewrite Hi in Hi'.
  inversion Ha'; inversion Ht'; inversion Hi'; subst.
  eexists; split; [exact Hp|].
  split; [reflexivity|]; split; [exact Hp' | reflexivity].
Qed.



(** On that text the total returned, 21000.0, counts the price of the
    twenty-first item, which the record does not list: the items listed
    add up to 20000.0. *)
Lemma twenty_one_items_total :
  exists r,
    parse_receipt_with_fallback ascii_db a_day twenty_one_items = inr r
    /\ length (items r) = 20%nat
    /\ total r = cents 2100000
    /\ subtotal r = Float (cents 2100000)
    /\ py_sum (map price (items r)) = Float (cents 2000000).
Proof.
  eexists; split; [vm_compute; reflexivity|].
  repeat split; vm_compute; reflexivity.
Qed.

(** ** Further properties of the specification *)

(** X1: the item extractor never returns an entry with a non-positive
    price or a name of length at most 1 (the part of C7 that holds of the
    code). *)
Theorem items_have_positive_price_and_long_name
    (db : unicode_db) (txt : text) :
  exists its,
    extract_items_from_text db txt = inr its
    /\ Forall (fun it => flt fzero (price it) = true
                         /\ (1 < length (name it))%nat) its.
Proof. exact (extract_items_spec db txt). Qed.

(** X2: on the empty text the record has the merchant "Unknown", total
    0.0, tax 0.0, no item and the category "Other"; the subtotal is the
    [int] 0. *)
Theorem empty_text_record (db : unicode_db) (now : datetime) :
  parse_receipt_with_fallback db now []
  = inr {| merchant := str "Unknown";
           date := strftime_ymd now;
           total := fzero;
           tax := fzero;
           subtotal := Int 0;
           items := [];
           category := str "Other" |}.
Proof. vm_compute; reflexivity. Qed.

(** * Properties of the rest of the application *)

(** ** More of the parser *)

Lemma lang_needs_digit (db : unicode_db) (r : regex) :
  needs_digit r = true -> forall w, lang db r w -> has_digit db w.
Proof.
  unfold has_digit.
  induction r as [|c|r1 IH1 r2 IH2|r1 IH1 r2 IH2|r IH lo hi g|j r IH|];
    simpl; try discriminate.
  - destruct c; try discriminate.
    intros _ w (a & -> & Ha); constructor; exact Ha.
  - intros H w (w1 & w2 & -> & H1 & H2).
    apply Exists_app. apply orb_true_iff in H; destruct H as [H|H];
      [left; apply IH1 | right; apply IH2]; assumption.
  - intros H w [Hw|Hw]; apply andb_true_iff in H; destruct H as [Ha Hb];
      [apply IH1 | apply IH2]; assumption.
  - intros H w (ws & -> & Hall & Hlo & _).
    apply andb_true_iff in H; destruct H as [Hl Hn].
    destruct lo; [discriminate|].
    destruct Hall as [|w ws Hw Hall]; simpl in *; [lia|].
    apply Exists_app; left; apply IH; assumption.
  - exact IH.
Qed.

Lemma grouped_any (db : unicode_db) (r : regex) :
  grouped db (fun _ _ => True) r.
Proof. induction r; simpl; auto. Qed.

Lemma match_here_lang (db : unicode_db) (r : regex) (prev : option char)
    (s : text) (st' : mstate) :
  match_here db r prev s = Some st' ->
  exists w, s = w ++ rest st' /\ lang db r w.
Proof.
  unfold match_here; intros H.
  destruct (run_sound db (fun _ _ => True) 0%nat r (grouped_any db r) Some
              {| before := prev; rest := s; groups := [] |} st'
              (Forall_nil _) H) as (st'' & Hk & _ & _ & _ & w & Hw & Hl).
  inversion Hk; subst st''. exists w; split; assumption.
Qed.

Lemma scan_without_digit (db : unicode_db) (r : regex) :
  needs_digit r = true ->
  forall fuel prev s,
    Forall (fun c => is_decimal db c = false) s ->
    scan db r fuel prev s = [].
Proof.
  intros Hr; induction fuel as [|fuel IH]; intros prev s Hs; simpl; [reflexivity|].
  destruct (match_here db r prev s) as [st'|] eqn:Hm.
  - exfalso. apply match_here_lang in Hm; destruct Hm as (w & -> & Hw).
    apply (lang_needs_digit db r Hr) in Hw.
    apply Exists_exists in Hw; destruct Hw as (c & Hc & Hd).
    apply Forall_app in Hs; destruct Hs as [Hs _].
    rewrite (proj1 (Forall_forall _ _) Hs c Hc) in Hd; discriminate.
  - destruct s as [|c s]; [reflexivity|].
    apply IH. inversion Hs; assumption.
Qed.

Lemma findall1_without_digit (db : unicode_db) (r : regex) (txt : text) :
  needs_digit r = true ->
  Forall (fun c => is_decimal db c = false) txt ->
  findall1 db r txt = [].
Proof.
  intros Hr Ht; unfold findall1, finditer.
  rewrite (scan_without_digit db r Hr _ _ _ Ht); reflexivity.
Qed.

Lemma findall2_without_digit (db : unicode_db) (r : regex) (txt : text) :
  needs_digit r = true ->
  Forall (fun c => is_decimal db c = false) txt ->
  findall2 db r txt = [].
Proof.
  intros Hr Ht; unfold findall2, finditer.
  rewrite (scan_without_digit db r Hr _ _ _ Ht); reflexivity.
Qed.

(** X3: on a text without a decimal digit the extractors find no amount,
    no tax and no item, and the record has the total 0.0, the tax 0.0,
    the [int] subtotal 0, no item, and for merchant the first line that
    is not blank, stripped, or "Unknown". *)
Theorem text_without_digit_gives_empty_receipt
    (db : unicode_db) (now : datetime) (txt : text) :
  Forall (fun c => is_decimal db c = false) txt ->
  extract_amounts_from_text db txt = inr []
  /\ extract_tax_from_text db txt = inr fzero
  /\ extract_items_from_text db txt = inr []
  /\ parse_receipt_with_fallback db now txt
     = inr {| merchant := match nonblank_lines txt with
                          | [] => str "Unknown"
                          | line :: _ => line
                          end;
              date := strftime_ymd now;
              total := fzero;
              tax := fzero;
              subtotal := Int 0;
              items := [];
              category := str "Other" |}.
Proof.
  intros Ht.
  assert (Ha : extract_amounts_from_text db txt = inr []).
  { unfold extract_amounts_from_text, amount_patterns.
    cbn [for_each bind].
    repeat match goal with
           | |- context [findall1 db ?p txt] =>
               rewrite (findall1_without_digit db p txt eq_refl Ht)
           end.
    reflexivity. }
  assert (Hx : extract_tax_from_text db txt = inr fzero).
  { unfold extract_tax_from_text, tax_patterns; cbn [first_tax].
    repeat match goal with
           | |- context [findall1 db ?p txt] =>
               rewrite (findall1_without_digit db p txt eq_refl Ht)
           end.
    reflexivity. }
  assert (Hi : extract_items_from_text db txt = inr []).
  { unfold extract_items_from_text.
    rewrite (findall2_without_digit db item_pattern txt eq_refl Ht).
    reflexivity. }
  repeat split; try assumption.
  destruct (parse_receipt_spec db now txt) as (a & t & i & Ha' & Ht' & Hi' & Hp).
  rewrite Ha in Ha'; rewrite Hx in Ht'; rewrite Hi in Hi'.
  inversion Ha'; inversion Ht'; inversion Hi'; subst.
  rewrite Hp; reflexivity.
Qed.

Lemma thanks_gives_empty_receipt :
  Forall (fun c => is_decimal ascii_db c = false) thanks
  /\ exists r,
       parse_receipt_with_fallback ascii_db a_day thanks = inr r
       /\ merchant r = str "Thank you!" /\ total r = fzero /\ items r = [].
Proof.
  assert (H : Forall (fun c => is_decimal ascii_db c = false) thanks)
    by (repeat (constructor; [reflexivity|]); constructor).
  split; [exact H|].
  destruct (text_without_digit_gives_empty_receipt ascii_db a_day thanks H)
    as (_ & _ & _ & Hp).
  eexists; split; [exact Hp|]. repeat split.
Defined.

Lemma lstrip_starts_plain (s : text) : starts_plain (lstrip s).
Proof.
  induction s as [|c s IH]; simpl; [exact I|].
  destruct (is_space c) eqn:Hc; [exact IH | exact Hc].
Qed.

Lemma lstrip_plain (s : text) : starts_plain s -> lstrip s = s.
Proof. destruct s as [|c s]; simpl; [reflexivity|]. intros ->; reflexivity. Qed.

Lemma lstrip_split (s : text) :
  exists sp, s = sp ++ lstrip s /\ Forall (fun c => is_space c = true) sp.
Proof.
  induction s as [|c s (sp & Hs & Hsp)]; simpl.
  - exists []; split; [reflexivity | constructor].
  - destruct (is_space c) eqn:Hc.
    + exists (c :: sp); split; [simpl; f_equal; exact Hs|].
      constructor; assumption.
    + exists []; split; [reflexivity | constructor].
Qed.


Lemma starts_plain_app (a b : text) :
  a <> [] -> starts_plain (a ++ b) -> starts_plain a.
Proof. destruct a; [congruence | simpl; auto]. Qed.

(** A text that neither starts nor ends with white space is its own strip. *)
Lemma strip_plain (s : text) :
  starts_plain s -> starts_plain (rev s) -> strip s = s.
Proof.
  intros H1 H2; unfold strip.
  rewrite (lstrip_plain s H1), (lstrip_plain _ H2); apply rev_involutive.
Qed.

Lemma strip_ends_plain (s : text) :
  starts_plain (strip s) /\ starts_plain (rev (strip s)).
Proof.
  unfold strip; rewrite rev_involutive.
  split; [|apply lstrip_starts_plain].
  pose proof (lstrip_starts_plain s) as Ht.
  destruct (lstrip_split (rev (lstrip s))) as (sp & Hs & Hsp).
  destruct (lstrip (rev (lstrip s))) as [|c u] eqn:Hu; [exact I|].
  apply (f_equal (@rev char)) in Hs.
  rewrite rev_involutive, rev_app_distr in Hs.
  rewrite Hs in Ht.
  apply (starts_plain_app _ (rev sp)); [|exact Ht].
  simpl; destruct (rev u); discriminate.
Qed.

Lemma strip_idempotent (s : text) : strip (strip s) = strip s.
Proof. apply strip_plain; apply strip_ends_plain. Qed.

Lemma split_lines_no_NL (s : text) :
  Forall (fun line => ~ In NL line) (split_lines s).
Proof.
  induction s as [|c s IH]; simpl.
  - constructor; [intros [] | constructor].
  - destruct (Z.eqb_spec c NL) as [->|Hc].
    + constructor; [intros [] | exact IH].
    + destruct (split_lines s) as [|l ls]; inversion IH as [|? ? Hl Hls]; subst.
      * constructor; [|constructor]. intros [H|[]]; congruence.
      * constructor; [|exact Hls]. intros [H|H]; [congruence | exact (Hl H)].
Qed.

Lemma strip_no_NL (s : text) : ~ In NL s -> ~ In NL (strip s).
Proof.
  intros H Hin.
  assert (Hall : Forall (fun c => c <> NL) s)
    by (apply Forall_forall; intros c Hc ->; exact (H Hc)).
  apply (Forall_strip (P := fun c => c <> NL)) in Hall.
  exact (proj1 (Forall_forall _ _) Hall NL Hin eq_refl).
Qed.

(** The first element of a filtered list, where it sits in the list. *)
Lemma filter_first {A : Type} (f : A -> bool) (l : list A) (x : A)
    (xs : list A) :
  filter f l = x :: xs ->
  exists before after,
    l = before ++ x :: after /\ Forall (fun y => f y = false) before
    /\ f x = true.
Proof.
  induction l as [|y l IH]; simpl; [discriminate|].
  destruct (f y) eqn:Hy.
  - intros H; inversion H; subst.
    exists [], l; repeat split; [constructor | exact Hy].
  - intros H; destruct (IH H) as (b & a & -> & Hb & Hx).
    exists (y :: b), a; repeat split; [constructor; assumption | exact Hx].
Qed.

(** X4: the merchant of the record is never empty, has no white space at
    either end and no line break: it is the first line of the text that
    is not blank, stripped, or "Unknown" when every line is blank. *)
Theorem merchant_is_first_nonblank_line
    (db : unicode_db) (now : datetime) (txt : text) :
  exists r,
    parse_receipt_with_fallback db now txt = inr r
    /\ merchant r <> []
    /\ strip (merchant r) = merchant r
    /\ ~ In NL (merchant r)
    /\ (Forall blank (split_lines txt) /\ merchant r = str "Unknown"
        \/ exists before line after,
             split_lines txt = before ++ line :: after
             /\ Forall blank before /\ ~ blank line
             /\ merchant r = strip line).
Proof.
  destruct (parse_receipt_spec db now txt) as (a & t & i & _ & _ & _ & Hp).
  eexists; split; [exact Hp|]; cbn [merchant].
  unfold nonblank_lines.
  destruct (filter _ (split_lines txt)) as [|line ls] eqn:Hf; cbn [map].
  - split; [discriminate|]. split; [reflexivity|].
    split; [intros H; vm_compute in H; intuition discriminate|].
    left; split; [|reflexivity].
    apply Forall_forall; intros l Hl; unfold blank.
    destruct (strip l) eqn:Hs; [reflexivity|].
    assert (Hin : In l (filter (fun line => negb (is_nil (strip line)))
                          (split_lines txt)))
      by (apply filter_In; split; [exact Hl | rewrite Hs; reflexivity]).
    rewrite Hf in Hin; destruct Hin.
  - destruct (filter_first _ _ _ _ Hf) as (b & af & Hsplit & Hb & Hx).
    assert (Hne : strip line <> [])
      by (intros E; rewrite E in Hx; discriminate).
    split; [exact Hne|]. split; [apply strip_idempotent|].
    split.
    + apply strip_no_NL.
      pose proof (split_lines_no_NL txt) as Hall; rewrite Hsplit in Hall.
      apply Forall_app in Hall; destruct Hall as [_ Hall].
      inversion Hall; assumption.
    + right; exists b, line, af; repeat split; try assumption.
      revert Hb; apply Forall_impl; intros l Hl; unfold blank.
      destruct (strip l); [reflexivity | discriminate].
Qed.

Lemma cents_nonneg (n : Z) : fle fzero (cents n) = true.
Proof. apply signed_nonneg, float_of_ratio_signed. Qed.

Lemma float_of_int_nonneg (z : Z) :
  0 <= z -> fle fzero (float_of_int z) = true.
Proof.
  destruct z as [|p|p]; [reflexivity | | lia]; intros _.
  unfold float_of_int, binary_normalize, binary_round.
  destruct (shl_align p 0 _) as [mz ez].
  apply signed_nonneg, binary_round_aux_signed; lia.
Qed.

Lemma parse_total_tax_nonneg
    (db : unicode_db) (now : datetime) (txt : text) :
  exists r t,
    parse_receipt_with_fallback db now txt = inr r
    /\ extract_tax_from_text db txt = inr t
    /\ fle fzero (total r) = true
    /\ fle fzero (tax r) = true
    /\ (fle t lit_99999_99 = true -> tax r = t).
Proof.
  destruct (parse_receipt_spec db now txt)
    as (amounts & t & its & Ha & Ht & Hi & Hp).
  destruct (extract_tax_returns db txt) as (nt & Hnt).
  rewrite Ht in Hnt; inversion Hnt; subst t.
  destruct (extract_items_spec db txt) as (l & Hl & Hkept).
  rewrite Hi in Hl; inversion Hl; subst l.
  destruct (extract_amounts_spec db txt) as (l & Hl' & Hcand & _).
  rewrite Ha in Hl'; inversion Hl'; subst l.
  eexists; exists (cents nt); split; [exact Hp|]. split; [exact Ht|].
  cbn [total tax]; split; [|split].
  - apply round2_nonneg. destruct amounts as [|a others]; cbn [total_of].
    + pose proof (item_total_nonneg its Hkept) as Hn.
      destruct (item_total_of its) as [z|f]; cbn [add_float nonneg] in *.
      * apply fadd_nonneg; [|apply cents_nonneg].
        apply float_of_int_nonneg, Z.leb_le, Hn.
      * apply fadd_nonneg; [exact Hn | apply cents_nonneg].
    + inversion Hcand as [|? ? [Hr _] _]; subst.
      pose proof (in_range_pos_finite a Hr) as Hpf.
      destruct a as [| | |[] m e]; try contradiction; reflexivity.
  - apply round2_nonneg, cents_nonneg.
  - apply round2_cents.
Qed.

Lemma In_amount_of (db : unicode_db) (mtch : text) (a : float) :
  In a (amount_of db mtch)
  <-> in_range a /\ float_of_str db (remove_char COMMA mtch) = inr a.
Proof.
  unfold amount_of, in_range.
  destruct (float_of_str db (remove_char COMMA mtch)) as [e|x].
  - split; [intros [] | intros [_ H]; discriminate].
  - destruct (fle lit_0_01 x) eqn:H1; simpl;
      [destruct (fle x lit_99999_99) eqn:H2; simpl|].
    + split.
      * intros [<-|[]]; repeat split; assumption.
      * intros [_ H]; inversion H; left; reflexivity.
    + split; [intros [] | intros [[_ H3] H]; inversion H; subst; congruence].
    + split; [intros [] | intros [[H3 _] H]; inversion H; subst; congruence].
Qed.

Lemma In_py_set_iff (x : float) (l : list float) :
  Forall pos_finite l -> (In x (py_set l) <-> In x l).
Proof.
  intros Hl; split; [apply In_py_set|].
  induction Hl as [|y l Hy Hl IH]; simpl; [tauto|].
  intros [->|Hx]; [left; reflexivity|].
  destruct (feq y x) eqn:E.
  - left; apply feq_eq; try assumption.
    exact (proj1 (Forall_forall _ _) Hl x Hx).
  - right; apply filter_In; split; [apply IH, Hx | rewrite E; reflexivity].
Qed.

(** X6: the amounts returned are exactly the values from 0.01 to
    99999.99 that [float] reads from a match of one of the five amount
    patterns once the commas are removed. *)
Theorem amounts_are_the_matches_in_range (db : unicode_db) (txt : text) :
  exists l,
    extract_amounts_from_text db txt = inr l
    /\ forall a,
         In a l
         <-> in_range a
             /\ exists pattern mtch,
                  In pattern amount_patterns
                  /\ In mtch (findall1 db pattern txt)
                  /\ float_of_str db (remove_char COMMA mtch) = inr a.
Proof.
  unfold extract_amounts_from_text.
  rewrite collect_patterns; cbn [bind ret app].
  eexists; split; [reflexivity|]. intros a.
  set (collected := flat_map _ amount_patterns).
  assert (Hin : forall x, In x collected
            <-> in_range x
                /\ exists pattern mtch,
                     In pattern amount_patterns
                     /\ In mtch (findall1 db pattern txt)
                     /\ float_of_str db (remove_char COMMA mtch) = inr x).
  { intros x; subst collected; rewrite in_flat_map; split.
    - intros (p & Hp & Hx). apply in_flat_map in Hx.
      destruct Hx as (m & Hm & Hx). apply In_amount_of in Hx.
      destruct Hx as [Hr Hf]. split; [exact Hr|]. exists p, m; auto.
    - intros (Hr & p & m & Hp & Hm & Hf).
      exists p; split; [exact Hp|]. apply in_flat_map.
      exists m; split; [exact Hm|]. apply In_amount_of; auto. }
  rewrite In_sorted_reverse, In_py_set_iff; [apply Hin|].
  apply Forall_forall; intros x Hx.
  apply in_range_pos_finite. exact (proj1 (proj1 (Hin x) Hx)).
Qed.

Section ItemShape.
Variable db : unicode_db.


















End ItemShape.


(** X5: the parser returns a record on every text; its total and its tax
    are numbers that are not negative, and the tax is the one extracted
    whenever that is at most 99999.99. *)
Theorem total_and_tax_never_negative
    (db : unicode_db) (now : datetime) (txt : text) :
  exists r t,
    parse_receipt_with_fallback db now txt = inr r
    /\ extract_tax_from_text db txt = inr t
    /\ fle fzero (total r) = true
    /\ fle fzero (tax r) = true
    /\ (fle t lit_99999_99 = true -> tax r = t).
Proof. exact (parse_total_tax_nonneg db now txt). Qed.

Lemma digits_value_app (a b : text) :
  forall acc,
    digits_value acc (a ++ b)
    = match digits_value acc a with
      | Some v => digits_value v b
      | None => None
      end.
Proof.
  induction a as [|c a IH]; intros acc; simpl; [reflexivity|].
  destruct ((48 <=? c) && (c <=? 57)); [apply IH | reflexivity].
Qed.

Lemma zero_padded_length (width : nat) : forall n, length (zero_padded width n) = width.
Proof.
  induction width as [|w IH]; intros n; simpl; [reflexivity|].
  rewrite length_app, IH; simpl; lia.
Qed.

(** The digits written read back as the number, when it fits the width. *)
Lemma digits_value_zero_padded (width : nat) :
  forall n acc,
    0 <= n < 10 ^ Z.of_nat width ->
    digits_value acc (zero_padded width n)
    = Some (acc * 10 ^ Z.of_nat width + n).
Proof.
  induction width as [|w IH]; intros n acc Hn.
  - simpl in *. f_equal; lia.
  - cbn [zero_padded]. rewrite digits_value_app.
    rewrite Nat2Z.inj_succ, Z.pow_succ_r in * by lia.
    rewrite IH.
    2:{ split; [apply Z.div_pos; lia | apply Z.div_lt_upper_bound; lia]. }
    pose proof (Z.mod_pos_bound n 10 ltac:(lia)) as Hm.
    cbn [digits_value].
    replace ((48 <=? 48 + n mod 10) && (48 + n mod 10 <=? 57)) with true
      by lia.
    f_equal. pose proof (Z.div_mod n 10 ltac:(lia)). lia.
Qed.

(** X8: for a day of a year from 1000 on, the date of the record is
    four digits, a hyphen, two digits, a hyphen and two digits, and they
    read back as the year, the month and the day of the clock. *)
Theorem date_reads_back_as_the_day
    (db : unicode_db) (now : datetime) (txt : text) :
  1000 <= year now <= 9999 -> 1 <= month now <= 12 -> 1 <= day now <= 31 ->
  exists r y m d,
    parse_receipt_with_fallback db now txt = inr r
    /\ date r = y ++ HYPHEN :: m ++ HYPHEN :: d
    /\ length y = 4%nat /\ length m = 2%nat /\ length d = 2%nat
    /\ digits_value 0 y = Some (year now)
    /\ digits_value 0 m = Some (month now)
    /\ digits_value 0 d = Some (day now).
Proof.
  intros Hy Hm Hd.
  destruct (parse_receipt_spec db now txt) as (a & t & i & _ & _ & _ & Hp).
  eexists; exists (zero_padded 4 (year now)), (zero_padded 2 (month now)),
    (zero_padded 2 (day now)).
  split; [exact Hp|]. split; [reflexivity|].
  rewrite !zero_padded_length, !digits_value_zero_padded
    by (simpl Z.of_nat; lia).
  repeat split; f_equal; lia.
Qed.

Lemma date_of_a_day_reads_back :
  1000 <= year a_day <= 9999 /\ 1 <= month a_day <= 12
  /\ 1 <= day a_day <= 31
  /\ exists r y m d,
       parse_receipt_with_fallback ascii_db a_day two_items = inr r
       /\ date r = y ++ HYPHEN :: m ++ HYPHEN :: d
       /\ length y = 4%nat /\ length m = 2%nat /\ length d = 2%nat
       /\ digits_value 0 y = Some (year a_day)
       /\ digits_value 0 m = Some (month a_day)
       /\ digits_value 0 d = Some (day a_day).
Proof.
  assert (Hy : 1000 <= year a_day <= 9999) by (simpl; lia).
  assert (Hm : 1 <= month a_day <= 12) by (simpl; lia).
  assert (Hd : 1 <= day a_day <= 31) by (simpl; lia).
  repeat (split; [assumption|]).
  exact (date_reads_back_as_the_day ascii_db a_day two_items Hy Hm Hd).
Defined.

(** ** [float] of an [int] *)

(** An [int] of at most 63 bits converts to a finite positive float. *)
Lemma float_of_int_finite (p : positive) :
  Zpos p < 2 ^ 63 ->
  exists m e, float_of_int (Zpos p) = S754_finite false m e.
Proof.
  intros Hp.
  pose proof (Zdigits2_bounds p) as Hd.
  set (d := Zdigits2 (Zpos p)) in *.
  assert (Hd1 : 1 <= d) by (subst d; simpl; lia).
  assert (Hd63 : d <= 63).
  { destruct (Z.le_gt_cases d 63) as [H|H]; [exact H|].
    assert (2 ^ 63 <= 2 ^ (d - 1)) by (apply Z.pow_le_mono_r; lia). lia. }
  unfold float_of_int, binary_normalize, binary_round.
  change (Zpos (digits2_pos p)) with d.
  replace (fexp prec emax (d + 0)) with (d - 53)
    by (unfold fexp, SpecFloat.emin, prec, emax; lia).
  destruct (Z.le_gt_cases d 53) as [Hle|Hgt].
  - (* shifted up to 53 bits, then exact *)
    assert (Hmz : exists mz, shl_align p 0 (d - 53) = (mz, d - 53)
                             /\ Zpos mz = Zpos p * 2 ^ (53 - d)).
    { unfold shl_align.
      destruct (d - 53 - 0) as [|k|k] eqn:Hk; try lia.
      - exists p; replace (d - 53) with 0 by lia.
        replace (53 - d) with 0 by lia; split; [reflexivity | lia].
      - exists (Pos.iter xO p k); split; [reflexivity|].
        rewrite iter_xO_value. f_equal; f_equal; lia. }
    destruct Hmz as (mz & -> & Hval).
    assert (Hpow : 2 ^ (d - 1) * 2 ^ (53 - d) = 2 ^ 52
                   /\ 2 ^ d * 2 ^ (53 - d) = 2 ^ 53).
    { rewrite <- !Z.pow_add_r by lia. split; f_equal; lia. }
    assert (Hps : 0 < 2 ^ (53 - d)) by (apply Z.pow_pos_nonneg; lia).
    assert (Hrange : 2 ^ 52 <= Zpos mz < 2 ^ 53) by nia.
    unfold binary_round_aux.
    rewrite shr_fexp_53; [| apply (Zdigits2_unique _ 52); lia | lia].
    cbn [shr_record_of_loc shr_m loc_of_shr_record round_nearest_even].
    destruct (round_tail (Zpos mz) (d - 53)) as (m & t & Ht & _);
      [lia | lia |].
    exists m, (d - 53 + t); exact Ht.
  - (* rounded down to 53 bits *)
    assert (Hal : shl_align p 0 (d - 53) = (p, 0)).
    { unfold shl_align. destruct (d - 53 - 0) eqn:Hk; try lia; reflexivity. }
    rewrite Hal. unfold binary_round_aux.
    destruct (shr_fexp_wide (Zpos p) 0 (d - 53) loc_Exact) as [Hm He];
      try lia; try (fold d; lia).
    destruct (shr_fexp prec emax (Zpos p) 0 loc_Exact) as [mrs e1];
      cbn [fst snd] in Hm, He; subst e1.
    pose proof (round_nearest_even_bounds (shr_m mrs) (loc_of_shr_record mrs))
      as Hr.
    set (m1 := round_nearest_even (shr_m mrs) (loc_of_shr_record mrs)) in *.
    assert (Hq : 2 ^ 52 <= shr_m mrs < 2 ^ 53).
    { rewrite Hm.
      assert (Hps : 0 < 2 ^ (d - 53)) by (apply Z.pow_pos_nonneg; lia).
      assert (Hpow : 2 ^ 52 * 2 ^ (d - 53) = 2 ^ (d - 1)
                     /\ 2 ^ 53 * 2 ^ (d - 53) = 2 ^ d).
      { rewrite <- !Z.pow_add_r by lia. split; f_equal; lia. }
      split.
      - apply Z.div_le_lower_bound; lia.
      - apply Z.div_lt_upper_bound; lia. }
    destruct (round_tail m1 (0 + (d - 53))) as (m & t & Ht & _);
      [lia | lia |].
    exists m, (0 + (d - 53) + t); exact Ht.
Qed.

(** ** Passwords *)

(** The constants are those FIPS 180-4 lists, and the digest of "abc" is
    the one it gives as an example. *)
Lemma sha256_constants :
  length sha256_K = 64%nat
  /\ firstn 2 sha256_K = [0x428a2f98; 0x71374491]
  /\ skipn 62 sha256_K = [0xbef9a3f7; 0xc67178f2]
  /\ sa sha256_init = 0x6a09e667 /\ sh sha256_init = 0x5be0cd19.
Proof. vm_compute; repeat split. Qed.

Lemma sha256_abc :
  hex (sha256 [Byte.x61; Byte.x62; Byte.x63])
  = str "ba7816bf8f01cfea414140de5dae2223b00361a396177a9cb410ff61f20015ad".
Proof. vm_compute; reflexivity. Qed.

(** The keys derived from the password "password" and the salt "salt" in
    one and in two iterations are those [hashlib.pbkdf2_hmac] returns. *)
Lemma pbkdf2_password_salt :
  match encode (str "password"), encode (str "salt") with
  | inr p, inr s =>
      hex (pbkdf2_hmac_sha256 p s 1)
      = str "120fb6cffcf8b32c43e7225256c4f837a86548c92ccc35480805987cb70be17b"
      /\ hex (pbkdf2_hmac_sha256 p s 2)
         = str "ae4d0c95af6b46d32d0adff928f06dd02a303f8ef3c251dfd6e2d85a95474c43"
  | _, _ => False
  end.
Proof. vm_compute; split; reflexivity. Qed.

Lemma str_eqb_refl (a : text) : str_eqb a a = true.
Proof. induction a as [|x a IH]; simpl; [|rewrite Z.eqb_refl]; auto. Qed.

Lemma str_eqb_length (a b : text) :
  str_eqb a b = true -> length a = length b.
Proof.
  revert b; induction a as [|x a IH]; intros [|y b]; simpl;
    try discriminate; [reflexivity|].
  intros H; apply andb_true_iff in H; destruct H as [_ H].
  f_equal; apply IH, H.
Qed.

Lemma byte_value_range (b : Byte.byte) : 0 <= byte_value b <= 255.
Proof.
  unfold byte_value. pose proof (Byte.to_N_bounded b). lia.
Qed.

Lemma hex_digit_char (n : Z) : 0 <= n < 16 -> hex_char (hex_digit n).
Proof.
  intros Hn; unfold hex_char, hex_digit.
  destruct (Z.ltb_spec n 10); lia.
Qed.

Lemma hex_chars (b : bytes) : Forall hex_char (hex b).
Proof.
  induction b as [|x b IH]; simpl; [constructor|].
  pose proof (byte_value_range x) as Hx.
  constructor; [|constructor; [|exact IH]]; apply hex_digit_char.
  - split; [apply Z.div_pos; lia | apply Z.div_lt_upper_bound; lia].
  - apply Z.mod_pos_bound; lia.
Qed.

Lemma hex_length (b : bytes) : length (hex b) = (2 * length b)%nat.
Proof. induction b as [|x b IH]; simpl; [reflexivity | rewrite IH; lia]. Qed.

Lemma encode_char_scalar (c : char) :
  scalar c -> exists b, encode_char c = inr b.
Proof.
  unfold scalar, encode_char; intros Hc.
  destruct ((0 <=? c) && (c <? 128)) eqn:H1; [eexists; reflexivity|].
  destruct ((128 <=? c) && (c <? 2048)) eqn:H2; [eexists; reflexivity|].
  destruct (((2048 <=? c) && (c <? 55296)) || ((57344 <=? c) && (c <? 65536)))
    eqn:H3; [eexists; reflexivity|].
  destruct ((65536 <=? c) && (c <? 1114112)) eqn:H4; [eexists; reflexivity|].
  lia.
Qed.

Lemma encode_scalar (s : text) :
  Forall scalar s -> exists b, encode s = inr b.
Proof.
  induction 1 as [|c s Hc _ [bs IH]]; simpl; [eexists; reflexivity|].
  destruct (encode_char_scalar c Hc) as [b ->]; simpl.
  rewrite IH; simpl; eexists; reflexivity.
Qed.

Lemma hex_char_scalar (c : char) : hex_char c -> scalar c.
Proof. unfold hex_char, scalar; lia. Qed.

Lemma encode_hex (b : bytes) : exists e, encode (hex b) = inr e.
Proof.
  apply encode_scalar. generalize (hex_chars b); apply Forall_impl.
  exact hex_char_scalar.
Qed.

Lemma be_bytes_length (n : nat) : forall z, length (be_bytes n z) = n.
Proof.
  induction n as [|n IH]; intros z; simpl; [reflexivity|].
  rewrite length_app, IH; simpl; lia.
Qed.

Lemma sha256_length (m : bytes) : length (sha256 m) = 32%nat.
Proof. unfold sha256; rewrite !length_app, !be_bytes_length; reflexivity. Qed.

Lemma hmac_sha256_length (key msg : bytes) :
  length (hmac_sha256 key msg) = 32%nat.
Proof. apply sha256_length. Qed.

Lemma xor_bytes_length (a b : bytes) :
  length a = length b -> length (xor_bytes a b) = length a.
Proof.
  intros H; unfold xor_bytes; rewrite length_map, length_combine; lia.
Qed.

Lemma pbkdf2_hmac_sha256_length (password salt : bytes) (iterations : positive) :
  length (pbkdf2_hmac_sha256 password salt iterations) = 32%nat.
Proof.
  unfold pbkdf2_hmac_sha256.
  set (step := fun ut : bytes * bytes => _).
  apply (N.iter_invariant (Pos.pred_N iterations) _ step
           (fun ut => length (snd ut) = 32%nat)).
  - intros [u t] Ht; simpl in *.
    rewrite xor_bytes_length; [exact Ht|].
    rewrite Ht, hmac_sha256_length; reflexivity.
  - apply hmac_sha256_length.
Qed.

Lemma token_hex_length (os : os_random) (n : nat) :
  length (token_hex os n) = (2 * n)%nat.
Proof. unfold token_hex; rewrite hex_length, urandom_length; reflexivity. Qed.

(** What [hash_password] returns on a password that can be encoded. *)
Lemma hash_password_returns (os : os_random) (password : text) :
  Forall scalar password ->
  exists p s,
    encode password = inr p
    /\ encode (token_hex os 16) = inr s
    /\ hash_password os password
       = inr (token_hex os 16 ++ hex (pbkdf2_hmac_sha256 p s 100000)).
Proof.
  intros Hp; unfold hash_password.
  destruct (encode_scalar password Hp) as [p Ep].
  destruct (encode_hex (urandom os 16)) as [s Es].
  change (hex (urandom os 16)) with (token_hex os 16) in Es.
  exists p, s; split; [exact Ep|]. split; [exact Es|].
  rewrite Ep; cbn [and_then]. rewrite Es; reflexivity.
Qed.

(** X10: for a password without surrogates [hash_password] returns 96
    lower-case hexadecimal digits: the first 32 are the salt drawn by
    [secrets.token_hex(16)], the other 64 are the PBKDF2-HMAC-SHA256 key
    of 100000 iterations over the encoded password and the encoded
    salt, in hexadecimal. *)
Theorem hash_password_format (os : os_random) (password : text) :
  Forall scalar password ->
  exists stored p s,
    encode password = inr p
    /\ encode (token_hex os 16) = inr s
    /\ hash_password os password = inr stored
    /\ length stored = 96%nat
    /\ Forall hex_char stored
    /\ firstn 32 stored = token_hex os 16
    /\ skipn 32 stored = hex (pbkdf2_hmac_sha256 p s 100000).
Proof.
  intros Hp.
  destruct (hash_password_returns os password Hp) as (p & s & Ep & Es & Hh).
  pose proof (pbkdf2_hmac_sha256_length p s 100000) as Hkey.
  remember (pbkdf2_hmac_sha256 p s 100000) as key eqn:Ekey.
  eexists; exists p, s. rewrite <- Ekey.
  split; [exact Ep|]. split; [exact Es|]. split; [exact Hh|].
  split; [|split; [|split]].
  - rewrite length_app, token_hex_length, hex_length, Hkey; reflexivity.
  - apply Forall_app; split; apply hex_chars.
  - rewrite firstn_app, token_hex_length.
    change (32 - 2 * 16)%nat with 0%nat; rewrite firstn_O, app_nil_r.
    apply firstn_all2; rewrite token_hex_length; lia.
  - rewrite skipn_app, token_hex_length.
    change (32 - 2 * 16)%nat with 0%nat; rewrite skipn_O.
    rewrite skipn_all2 by (rewrite token_hex_length; lia).
    reflexivity.
Qed.

(** X9: a password hashed by [hash_password] is verified by
    [verify_password] against the stored value, whatever salt was
    drawn. *)
Theorem hashed_password_verifies (os : os_random) (password : text) :
  Forall scalar password ->
  exists stored,
    hash_password os password = inr stored
    /\ verify_password stored password = inr true.
Proof.
  intros Hp.
  destruct (hash_password_returns os password Hp) as (p & s & Ep & Es & Hh).
  remember (pbkdf2_hmac_sha256 p s 100000) as key eqn:Ekey.
  eexists; split; [exact Hh|]. unfold verify_password.
  assert (Hlen : length (token_hex os 16) = 32%nat)
    by (rewrite token_hex_length; reflexivity).
  rewrite firstn_app, skipn_app, Hlen.
  change (32 - 32)%nat with 0%nat; rewrite firstn_O, skipn_O, app_nil_r.
  rewrite firstn_all2, skipn_all2, app_nil_l by lia.
  rewrite Ep; cbn [and_then]. rewrite Es; cbn [and_then].
  rewrite <- Ekey, str_eqb_refl; reflexivity.
Qed.

(** X11: a stored value that is not 96 characters long is never
    verified, whatever password is provided. *)
Theorem malformed_hash_never_verifies (stored provided : text) :
  length stored <> 96%nat ->
  verify_password stored provided <> inr true.
Proof.
  intros Hlen; unfold verify_password.
  pose proof (length_skipn 32 stored) as Htail.
  remember (skipn 32 stored) as stored_hash eqn:Eh; clear Eh.
  remember (firstn 32 stored) as salt eqn:Es; clear Es.
  destruct (encode provided) as [e|p]; [discriminate|]; cbn [and_then].
  destruct (encode salt) as [e|s]; [discriminate|]; cbn [and_then].
  pose proof (pbkdf2_hmac_sha256_length p s 100000) as Hkey.
  remember (pbkdf2_hmac_sha256 p s 100000) as key eqn:Ekey; clear Ekey.
  intros H; injection H as E.
  apply str_eqb_length in E.
  rewrite hex_length, Hkey in E. lia.
Qed.

Lemma encode_surrogate (s : text) :
  Exists (fun c => 55296 <= c <= 57343) s ->
  encode s = inl UnicodeEncodeError.
Proof.
  induction 1 as [c s Hc|c s _ IH]; cbn [encode].
  - assert (E : encode_char c = inl UnicodeEncodeError).
    { unfold encode_char.
      replace ((0 <=? c) && (c <? 128)) with false by lia.
      replace ((128 <=? c) && (c <? 2048)) with false by lia.
      replace (((2048 <=? c) && (c <? 55296))
               || ((57344 <=? c) && (c <? 65536))) with false by lia.
      replace ((65536 <=? c) && (c <? 1114112)) with false by lia.
      reflexivity. }
    rewrite E; reflexivity.
  - destruct (encode_char c) as [e|b] eqn:E; cbn [and_then].
    + unfold encode_char in E.
      repeat match type of E with
             | (if ?b then _ else _) = _ => destruct b; try discriminate E
             end.
      symmetry; exact E.
    + rewrite IH; reflexivity.
Qed.

(** X12: a password that holds a surrogate code point cannot be encoded:
    [hash_password] and [verify_password] raise [UnicodeEncodeError]
    instead of returning. *)
Theorem surrogate_password_is_refused
    (os : os_random) (password stored : text) :
  Exists (fun c => 55296 <= c <= 57343) password ->
  hash_password os password = inl UnicodeEncodeError
  /\ verify_password stored password = inl UnicodeEncodeError.
Proof.
  intros H; unfold hash_password, verify_password.
  rewrite (encode_surrogate password H); split; reflexivity.
Qed.

(** ** Counting categories *)

Lemma str_eqb_eq (a b : text) : str_eqb a b = true <-> a = b.
Proof.
  revert b; induction a as [|x a IH]; intros [|y b]; simpl;
    try (split; [discriminate | congruence]); [tauto|].
  rewrite andb_true_iff, Z.eqb_eq, IH; split; [intros [-> ->] | intros H; inversion H]; auto.
Qed.

Lemma str_eqb_spec (a b : text) : reflect (a = b) (str_eqb a b).
Proof. apply iff_reflect; symmetry; apply str_eqb_eq. Qed.

Lemma str_eqb_sym (a b : text) : str_eqb a b = str_eqb b a.
Proof. destruct (str_eqb_spec a b), (str_eqb_spec b a); congruence. Qed.

Lemma occurrences_app (c : text) (l1 l2 : list text) :
  occurrences c (l1 ++ l2) = occurrences c l1 + occurrences c l2.
Proof. unfold occurrences; rewrite filter_app, length_app; lia. Qed.

Lemma occurrences_nonneg (c : text) (l : list text) : 0 <= occurrences c l.
Proof. unfold occurrences; lia. Qed.

Lemma occurrences_absent (c : text) (l : list text) :
  ~ In c l -> occurrences c l = 0.
Proof.
  intros H; unfold occurrences.
  induction l as [|x l IH]; simpl; [reflexivity|].
  destruct (str_eqb_spec c x) as [->|_]; [exfalso; apply H; left; reflexivity|].
  apply IH; intros Hin; apply H; right; exact Hin.
Qed.

Lemma occurrences_present (c : text) (l : list text) :
  In c l -> 0 < occurrences c l.
Proof.
  unfold occurrences; induction l as [|x l IH]; simpl; [tauto|].
  destruct (str_eqb_spec c x) as [->|Hne]; simpl; [lia|].
  intros [E|Hin]; [congruence | exact (IH Hin)].
Qed.

Lemma In_firsts (c : text) (l : list text) : In c (firsts l) <-> In c l.
Proof.
  induction l as [|x l IH]; simpl; [tauto|].
  rewrite filter_In, IH.
  destruct (str_eqb_spec x c) as [->|Hne]; simpl; [tauto|].
  split; [intros [E|[H _]]; auto | intros [E|H]; auto].
Qed.

Lemma firsts_snoc (l : list text) (c : text) :
  firsts (l ++ [c])
  = if existsb (str_eqb c) l then firsts l else firsts l ++ [c].
Proof.
  induction l as [|x l IH]; simpl; [reflexivity|].
  rewrite IH. rewrite (str_eqb_sym c x).
  destruct (str_eqb_spec x c) as [->|Hne]; simpl.
  - destruct (existsb (str_eqb c) l); [reflexivity|].
    rewrite filter_app; simpl.
    destruct (str_eqb_spec c c); [simpl; rewrite app_nil_r; reflexivity | congruence].
  - destruct (existsb (str_eqb c) l); [reflexivity|].
    rewrite filter_app; simpl.
    destruct (str_eqb_spec x c); [congruence | reflexivity].
Qed.

Lemma existsb_str_eqb (c : text) (l : list text) :
  existsb (str_eqb c) l = true <-> In c l.
Proof.
  rewrite existsb_exists; split.
  - intros (x & Hx & E); apply str_eqb_eq in E; subst; exact Hx.
  - intros H; exists c; split; [exact H | apply str_eqb_refl].
Qed.

Lemma NoDup_firsts (l : list text) : NoDup (firsts l).
Proof.
  induction l as [|x l IH]; simpl; constructor.
  - rewrite filter_In; intros [_ H].
    rewrite str_eqb_refl in H; discriminate.
  - apply NoDup_filter; exact IH.
Qed.

Lemma loop_snoc {A B : Type} (xs : list A) (x : A) (body : B -> A -> outcome B) :
  forall acc,
    loop (xs ++ [x]) acc body = (acc' <~ loop xs acc body ;; body acc' x).
Proof.
  induction xs as [|y xs IH]; intros acc; simpl.
  - destruct (body acc x); reflexivity.
  - destruct (body acc y) as [e|acc']; simpl; [reflexivity | apply IH].
Qed.

Lemma find_tally (f : text -> Z) (c : text) (L : list text) :
  find (fun kv => key_eqb (fst kv) (VStr c)) (map (fun x => (VStr x, f x)) L)
  = if existsb (str_eqb c) L then Some (VStr c, f c) else None.
Proof.
  induction L as [|x L IH]; simpl; [reflexivity|].
  rewrite (str_eqb_sym c x).
  destruct (str_eqb_spec x c) as [->|_]; simpl; [reflexivity | exact IH].
Qed.

Lemma set_count_tally (f : text -> Z) (c : text) (n : Z) (L : list text) :
  NoDup L ->
  set_count (VStr c) n (map (fun x => (VStr x, f x)) L)
  = if existsb (str_eqb c) L
    then map (fun x => (VStr x, if str_eqb x c then n else f x)) L
    else map (fun x => (VStr x, f x)) L ++ [(VStr c, n)].
Proof.
  induction 1 as [|x L Hx HL IH]; simpl; [reflexivity|].
  rewrite (str_eqb_sym c x).
  destruct (str_eqb_spec x c) as [->|Hne]; simpl.
  - f_equal. apply map_ext_in; intros y Hy.
    destruct (str_eqb_spec y c) as [E|_]; [|reflexivity].
    exfalso; apply Hx; rewrite <- E; exact Hy.
  - rewrite IH. destruct (existsb (str_eqb c) L); reflexivity.
Qed.

Lemma occurrences_snoc (x c : text) (l : list text) :
  occurrences x (l ++ [c])
  = occurrences x l + (if str_eqb x c then 1 else 0).
Proof.
  rewrite occurrences_app; unfold occurrences at 2; simpl.
  destruct (str_eqb x c); reflexivity.
Qed.

Lemma tally_snoc (l : list text) (c : text) :
  set_count (VStr c) (occurrences c l + 1) (tally l) = tally (l ++ [c]).
Proof.
  unfold tally. rewrite set_count_tally by apply NoDup_firsts.
  rewrite firsts_snoc.
  replace (existsb (str_eqb c) (firsts l)) with (existsb (str_eqb c) l).
  2:{ apply eq_true_iff_eq; rewrite !existsb_str_eqb, In_firsts; tauto. }
  destruct (existsb (str_eqb c) l) eqn:Hc.
  - apply map_ext; intros x. rewrite occurrences_snoc.
    destruct (str_eqb_spec x c) as [->|_]; f_equal; lia.
  - assert (Hnot : ~ In c l).
    { intros H; apply existsb_str_eqb in H; congruence. }
    rewrite map_app; simpl. f_equal.
    + apply map_ext_in; intros x Hx. rewrite occurrences_snoc.
      destruct (str_eqb_spec x c) as [->|_]; [|f_equal; lia].
      apply (proj1 (In_firsts _ _)) in Hx; contradiction.
    + rewrite occurrences_snoc, str_eqb_refl; reflexivity.
Qed.

Lemma count_of_tally (l : list text) (c : text) :
  count_of (VStr c) (tally l) = inr (occurrences c l).
Proof.
  unfold count_of, tally; simpl. rewrite find_tally.
  destruct (existsb (str_eqb c) (firsts l)) eqn:Hc; [reflexivity|].
  rewrite occurrences_absent; [reflexivity|].
  intros H; apply (proj2 (In_firsts _ _)), existsb_str_eqb in H; congruence.
Qed.

(** The counting loop of [get_stats] on receipts whose categories are
    strings. *)
Lemma count_categories (receipts : list value) (cats : list text) :
  Forall2 (fun receipt c => category_of receipt = inr (VStr c))
          receipts cats ->
  loop receipts [] (fun category_counts receipt =>
    category <~ parsed_field receipt (str "category")
                  (VStr (str "Uncategorized")) ;;
    n <~ count_of category category_counts ;;
    inr (set_count category (n + 1) category_counts))
  = inr (tally cats).
Proof.
  revert cats; induction receipts as [|receipt receipts IH] using rev_ind;
    intros cats H.
  - inversion H; reflexivity.
  - apply Forall2_app_inv_l in H.
    destruct H as (cats' & last & H1 & H2 & ->).
    inversion H2 as [|? c ? ? Hc Hnil]; subst. inversion Hnil; subst.
    rewrite loop_snoc, (IH cats' H1). cbn [and_then].
    unfold category_of in Hc; rewrite Hc; cbn [and_then].
    rewrite count_of_tally; cbn [and_then]. rewrite tally_snoc; reflexivity.
Qed.

Lemma fold_best (d : counts) :
  forall pre best post,
    (forall kv, In kv pre -> snd kv < snd best) ->
    (forall kv, In kv post -> snd kv <= snd best) ->
    exists pre' best' post',
      pre ++ best :: post ++ d = pre' ++ best' :: post'
      /\ fold_left (fun best kv => if snd best <? snd kv then kv else best)
                   d best = best'
      /\ (forall kv, In kv pre' -> snd kv < snd best')
      /\ (forall kv, In kv post' -> snd kv <= snd best').
Proof.
  induction d as [|kv d IH]; intros pre best post Hpre Hpost; simpl.
  - exists pre, best, post; rewrite app_nil_r; auto.
  - destruct (Z.ltb_spec (snd best) (snd kv)) as [Hlt|Hge].
    + destruct (IH (pre ++ best :: post) kv []) as (p & b & q & E & F & Hp & Hq).
      * intros x Hx; apply in_app_iff in Hx; destruct Hx as [Hx|[<-|Hx]];
          [specialize (Hpre x Hx) | | specialize (Hpost x Hx)]; lia.
      * intros x [].
      * exists p, b, q; repeat split; try assumption.
        rewrite <- E; simpl. rewrite <- !app_assoc; reflexivity.
    + destruct (IH pre best (post ++ [kv])) as (p & b & q & E & F & Hp & Hq).
      * exact Hpre.
      * intros x Hx; apply in_app_iff in Hx; destruct Hx as [Hx|[<-|[]]];
          [exact (Hpost x Hx) | lia].
      * exists p, b, q; repeat split; try assumption.
        rewrite <- E, <- app_assoc; reflexivity.
Qed.

Lemma max_by_count_first (d : counts) (default : value * Z) :
  d <> [] ->
  exists before after,
    d = before ++ max_by_count d default :: after
    /\ (forall kv, In kv before -> snd kv < snd (max_by_count d default))
    /\ (forall kv, In kv after -> snd kv <= snd (max_by_count d default)).
Proof.
  destruct d as [|first d]; [congruence|]; intros _; simpl.
  destruct (fold_best d [] first []) as (p & b & q & E & F & Hp & Hq);
    try (intros kv []).
  simpl in E. rewrite F. exists p, q; auto.
Qed.

Lemma first_occurrence (c : text) (l : list text) :
  In c l -> exists l1 l2, l = l1 ++ c :: l2 /\ ~ In c l1.
Proof.
  induction l as [|x l IH]; [intros []|].
  destruct (str_eqb_spec x c) as [->|Hne].
  - intros _; exists [], l; split; [reflexivity | intros []].
  - intros [E|H]; [congruence|].
    destruct (IH H) as (l1 & l2 & -> & Hl1).
    exists (x :: l1), l2; split; [reflexivity|].
    intros [E|Hin]; [congruence | contradiction].
Qed.

Lemma filter_filter {A : Type} (f g : A -> bool) (l : list A) :
  filter f (filter g l) = filter (fun x => g x && f x) l.
Proof.
  induction l as [|x l IH]; simpl; [reflexivity|].
  destruct (g x); simpl; [destruct (f x)|]; rewrite IH; reflexivity.
Qed.

Lemma firsts_app (l1 l2 : list text) :
  firsts (l1 ++ l2)
  = firsts l1
    ++ filter (fun x => negb (existsb (str_eqb x) l1)) (firsts l2).
Proof.
  induction l1 as [|a l1 IH]; simpl.
  - symmetry; apply filter_true.
  - rewrite IH, filter_app. f_equal. f_equal.
    rewrite filter_filter. apply filter_ext; intros x.
    rewrite (str_eqb_sym x a), negb_orb. apply andb_comm.
Qed.

Lemma split_unique {A : Type} (c : A) (a1 a2 b1 b2 : list A) :
  a1 ++ c :: a2 = b1 ++ c :: b2 -> ~ In c a1 -> ~ In c b1 -> a1 = b1.
Proof.
  revert b1; induction a1 as [|x a1 IH]; intros [|y b1] E Ha Hb; simpl in *.
  - reflexivity.
  - inversion E; subst; exfalso; apply Hb; left; reflexivity.
  - inversion E; subst; exfalso; apply Ha; left; reflexivity.
  - inversion E; subst. f_equal.
    apply IH; [assumption | intros H; apply Ha; right; exact H
               | intros H; apply Hb; right; exact H].
Qed.

(** Among string categories the most frequent one comes out on top, the
    one seen first if several are as frequent. *)
Lemma top_of_tally (cats : list text) :
  cats <> [] ->
  exists c before after,
    fst (max_by_count (tally cats) (VStr (str "None"), 0)) = VStr c
    /\ cats = before ++ c :: after
    /\ ~ In c before
    /\ (forall x, In x before -> occurrences x cats < occurrences c cats)
    /\ (forall x, occurrences x cats <= occurrences c cats).
Proof.
  intros Hne.
  assert (Hd : tally cats <> []).
  { destruct cats; [congruence | discriminate]. }
  destruct (max_by_count_first (tally cats) (VStr (str "None"), 0) Hd)
    as (pre & post & E & Hpre & Hpost).
  unfold tally in E at 1.
  apply map_eq_app in E; destruct E as (L1 & L2c & EL & E1 & E2).
  apply map_eq_cons in E2; destruct E2 as (c & L2 & -> & Ec & E2).
  rewrite <- Ec in Hpre, Hpost |- *; cbn [fst snd] in *.
  assert (Hin : In c cats).
  { apply In_firsts; rewrite EL; apply in_elt. }
  destruct (first_occurrence c cats Hin) as (l1 & l2 & Hcats & Hl1).
  assert (HL1 : L1 = firsts l1).
  { pose proof (NoDup_firsts cats) as Hnd. rewrite EL in Hnd.
    apply NoDup_remove_2 in Hnd.
    assert (Hfa : firsts cats
                  = firsts l1
                    ++ filter (fun x => negb (existsb (str_eqb x) l1))
                              (firsts (c :: l2)))
      by (rewrite Hcats at 1; apply firsts_app).
    simpl in Hfa.
    replace (existsb (str_eqb c) l1) with false in Hfa.
    2:{ symmetry; apply not_true_is_false; intros H.
        apply existsb_str_eqb in H; contradiction. }
    simpl in Hfa. rewrite EL in Hfa.
    apply (split_unique c _ _ _ _ Hfa).
    - intros H; apply Hnd, in_or_app; left; exact H.
    - intros H; apply (proj1 (In_firsts _ _)) in H; contradiction. }
  exists c, l1, l2; split; [reflexivity|]. split; [exact Hcats|].
  split; [exact Hl1|]. split.
  - intros x Hx.
    apply (Hpre (VStr x, occurrences x cats)).
    rewrite <- E1, HL1. apply in_map_iff; exists x; split; [reflexivity|].
    apply In_firsts; exact Hx.
  - intros x.
    destruct (in_dec (list_eq_dec Z.eq_dec) x cats) as [Hx|Hx].
    + apply (proj2 (In_firsts _ _)) in Hx. rewrite EL in Hx.
      apply in_app_iff in Hx; destruct Hx as [H|[<-|H]]; [| lia |].
      * apply Z.lt_le_incl, (Hpre (VStr x, occurrences x cats)).
        rewrite <- E1; apply in_map_iff; exists x; auto.
      * apply (Hpost (VStr x, occurrences x cats)).
        rewrite <- E2; apply in_map_iff; exists x; auto.
    + rewrite (occurrences_absent x cats Hx). apply occurrences_nonneg.
Qed.

(** ** The views *)

Lemma py_add_not_number (acc : number) (v : value) :
  is_number v = false -> py_add acc v = inl TypeError.
Proof. destruct acc, v; simpl; intros H; try discriminate; reflexivity. Qed.

Lemma sum_fails (receipts : list value) :
  Exists (fun receipt =>
            match total_field receipt with
            | inr v => is_number v = false
            | inl _ => True
            end) receipts ->
  forall acc, exists e,
    loop receipts acc (fun acc receipt =>
      total <~ parsed_field receipt (str "total") (VInt 0) ;;
      py_add acc total) = inl e.
Proof.
  induction 1 as [receipt receipts H|receipt receipts _ IH]; intros acc;
    cbn [loop].
  - unfold total_field in H.
    destruct (parsed_field receipt (str "total") (VInt 0)) as [e|v];
      cbn [and_then]; [exists e; reflexivity|].
    rewrite (py_add_not_number acc v H); exists TypeError; reflexivity.
  - match goal with
    | |- context [and_then (and_then ?a ?b) _] =>
        destruct (and_then a b) as [e|acc']
    end; cbn [and_then]; [exists e; reflexivity | apply IH].
Qed.

Lemma receipt_stats_fails (receipts : list value) :
  Exists (fun receipt =>
            match total_field receipt with
            | inr v => is_number v = false
            | inl _ => True
            end) receipts ->
  exists e, receipt_stats receipts = inl e.
Proof.
  intros H; unfold receipt_stats.
  destruct (sum_fails receipts H (Int 0)) as [e ->].
  exists e; reflexivity.
Qed.

Lemma receipt_stats_top (receipts : list value) (cats : list text)
    (st : stats) :
  Forall2 (fun receipt c => category_of receipt = inr (VStr c))
          receipts cats ->
  receipt_stats receipts = inr st ->
  total_receipts st = Z.of_nat (length receipts)
  /\ top_category st
     = fst (max_by_count (tally cats) (VStr (str "None"), 0)).
Proof.
  intros Hc; unfold receipt_stats.
  destruct (loop receipts (Int 0) _) as [e|spent]; cbn [and_then];
    [discriminate|].
  rewrite (count_categories receipts cats Hc); cbn [and_then].
  match goal with
  | |- context [and_then ?m _] => destruct m as [e|avg]
  end; cbn [and_then]; [discriminate|].
  intros H; injection H as <-. split; reflexivity.
Qed.

Lemma from_fallback_fields (receipt : value) :
  from_fallback receipt ->
  (exists f, total_field receipt = inr (VFloat f) /\ fle fzero f = true)
  /\ category_of receipt = inr (VStr (str "Other")).
Proof.
  intros (db & now & txt & r & Hp & Hg).
  unfold total_field, category_of, parsed_field; rewrite Hg; cbn [and_then].
  destruct (parse_total_tax_nonneg db now txt) as (r' & t & Hp' & _ & Ht & _).
  rewrite Hp in Hp'; injection Hp' as <-.
  destruct (parse_receipt_spec db now txt) as (a & x & i & _ & _ & _ & Hs).
  rewrite Hp in Hs; injection Hs as ->.
  split; [exists (round2 (total_of a i x)); split; [reflexivity | exact Ht]|].
  reflexivity.
Qed.

Lemma sum_of_float_totals (receipts : list value) :
  Forall (fun receipt => exists f, total_field receipt = inr (VFloat f)
                                   /\ fle fzero f = true) receipts ->
  forall acc, spent_ok acc ->
    exists spent,
      loop receipts acc (fun acc receipt =>
        total <~ parsed_field receipt (str "total") (VInt 0) ;;
        py_add acc total) = inr spent
      /\ spent_ok spent.
Proof.
  induction 1 as [|receipt receipts (f & Hf & Hpos) _ IH]; intros acc Hacc;
    cbn [loop].
  - exists acc; split; [reflexivity | exact Hacc].
  - unfold total_field in Hf; rewrite Hf; cbn [and_then].
    destruct acc as [z|x]; simpl in Hacc.
    + subst z.
      assert (E : py_add (Int 0) (VFloat f) = inr (Float (fadd fzero f)))
        by reflexivity.
      rewrite E; cbn [and_then]. apply IH; cbn [spent_ok].
      apply fadd_nonneg; [reflexivity | exact Hpos].
    + cbn [py_add and_then]. apply IH; cbn [spent_ok].
      apply fadd_nonneg; assumption.
Qed.

Lemma fdiv_nonneg (x : float) (m : positive) (e : Z) :
  fle fzero x = true ->
  fle fzero (SFdiv prec emax x (S754_finite false m e)) = true.
Proof.
  destruct x as [[]|[]| |[] mx ex]; intros H; try discriminate H;
    try reflexivity.
  apply signed_nonneg. unfold SFdiv, SFdiv_core_binary; cbn [xorb].
  set (m' := match _ - _ - _ with Z0 => _ | Zpos _ => _ | Zneg _ => _ end).
  assert (Hm' : 0 <= m').
  { subst m'; destruct (_ - _ - _); try lia. apply Z.shiftl_nonneg; lia. }
  pose proof (Z.div_pos m' (Zpos m) Hm' ltac:(lia)) as Hq.
  unfold Z.div in Hq.
  destruct (Z.div_eucl m' (Zpos m)) as [q r]; simpl in Hq.
  apply binary_round_aux_signed; exact Hq.
Qed.

Lemma average_of_float_totals (spent : number) (n : positive) :
  spent_ok spent -> Zpos n < 2 ^ 63 ->
  exists avg, py_truediv spent n = inr avg /\ nonneg avg = true.
Proof.
  intros Hs Hn; destruct spent as [z|x]; simpl in Hs.
  - subst z; exists (Float fzero); split; reflexivity.
  - unfold py_truediv, float_of_int_checked.
    destruct (float_of_int_finite n Hn) as (m & e & ->); cbn [and_then].
    eexists; split; [reflexivity|]. cbn [nonneg]. apply fdiv_nonneg; exact Hs.
Qed.

Lemma spent_ok_nonneg (n : number) : spent_ok n -> nonneg n = true.
Proof. destruct n; simpl; [intros ->; reflexivity | auto]. Qed.

Lemma receipt_stats_of_fallback (receipts : list value) :
  Forall from_fallback receipts ->
  Z.of_nat (length receipts) < 2 ^ 63 ->
  exists st,
    receipt_stats receipts = inr st
    /\ total_receipts st = Z.of_nat (length receipts)
    /\ top_category st
       = VStr (str match receipts with [] => "None" | _ => "Other" end)
    /\ nonneg (total_spent st) = true
    /\ nonneg (avg_spend st) = true.
Proof.
  intros Hall Hlen.
  assert (Htot : Forall (fun receipt =>
                   exists f, total_field receipt = inr (VFloat f)
                             /\ fle fzero f = true) receipts).
  { revert Hall; apply Forall_impl; intros rc H.
    exact (proj1 (from_fallback_fields rc H)). }
  assert (Hcat : Forall2 (fun receipt c => category_of receipt = inr (VStr c))
                   receipts (map (fun _ => str "Other") receipts)).
  { clear Htot Hlen; induction Hall as [|rc rcs H _ IH]; simpl;
      constructor; [exact (proj2 (from_fallback_fields rc H)) | exact IH]. }
  destruct (sum_of_float_totals receipts Htot (Int 0) eq_refl)
    as (spent & Hsum & Hok).
  assert (Havg : exists avg,
            match Z.of_nat (length receipts) with
            | Zpos n => py_truediv spent n
            | _ => inr (Int 0)
            end = inr avg /\ nonneg avg = true).
  { destruct (Z.of_nat (length receipts)) as [|n|n] eqn:En;
      [exists (Int 0); split; reflexivity
      | apply average_of_float_totals; assumption
      | exists (Int 0); split; reflexivity]. }
  destruct Havg as (avg & Havg & Hnn).
  unfold receipt_stats. rewrite Hsum; cbn [and_then].
  rewrite (count_categories receipts _ Hcat); cbn [and_then].
  match goal with
  | |- context [and_then ?m _] =>
      assert (E : m = inr avg) by exact Havg; rewrite E; clear E
  end; cbn [and_then].
  eexists; split; [reflexivity|]. cbn [total_receipts top_category
                                       total_spent avg_spend].
  split; [reflexivity|]. split; [|split; [apply spent_ok_nonneg, Hok | exact Hnn]].
  destruct receipts as [|rc rcs]; [reflexivity|].
  destruct (top_of_tally (map (fun _ => str "Other") (rc :: rcs)))
    as (c & before & after & -> & Hcats & _); [discriminate|].
  f_equal.
  assert (Hin : In c (map (fun _ : value => str "Other") (rc :: rcs)))
    by (rewrite Hcats; apply in_elt).
  apply in_map_iff in Hin; destruct Hin as (? & <- & _); reflexivity.
Qed.

Lemma lookup_dict_set (key : text) (v : value) (d : dict) :
  lookup key (dict_set key v d) = Some v.
Proof.
  unfold lookup; induction d as [|[k w] d IH]; simpl.
  - rewrite str_eqb_refl; reflexivity.
  - destruct (str_eqb k key) eqn:E; simpl; rewrite E; [reflexivity | exact IH].
Qed.

Lemma inr_inj {A B : Type} (a b : B) : @inr A B a = inr b -> a = b.
Proof. congruence. Qed.

Lemma in_LANGUAGES_code (v : value) :
  in_LANGUAGES v = inr true ->
  exists code, v = VStr code /\ In code (map fst LANGUAGES).
Proof.
  unfold in_LANGUAGES. destruct (hashable v); [|discriminate].
  intros H; apply inr_inj in H. apply existsb_exists in H.
  destruct H as ([code table] & Hin & Heq); cbn [fst] in Heq.
  destruct v; try discriminate Heq.
  apply str_eqb_eq in Heq; subst s.
  exists code; split; [reflexivity|].
  apply in_map_iff; exists (code, table); auto.
Qed.

Lemma language_has_table (code : text) :
  In code (map fst LANGUAGES) ->
  find (fun kv => str_eqb (fst kv) code) texts
  = Some (code, get_language_text code).
Proof.
  intros [<-|[<-|[<-|[]]]]; vm_compute; reflexivity.
Qed.

Section ViewProperties.
Variable firestore : Type.
Variable stream_receipts : firestore -> value -> outcome (list value).
Variable update_user :
  firestore -> value -> dict -> firestore * outcome unit.
Variable message : exception -> text.

(** X13: when [get_stats] answers 200 for receipts whose categories are
    [str], it reports their number, and as top category "None" if there
    is no receipt, otherwise a category that no other one exceeds in
    frequency and that occurs before any other one as frequent. *)
Theorem stats_top_category_is_first_most_frequent
    (session : dict) (store : firestore) (user_id : value)
    (receipts : list value) (cats : list text) :
  lookup (str "user_id") session = Some user_id ->
  stream_receipts store user_id = inr receipts ->
  Forall2 (fun receipt c => category_of receipt = inr (VStr c))
          receipts cats ->
  status (get_stats firestore stream_receipts message session (Some store))
  = 200 ->
  exists st,
    get_stats firestore stream_receipts message session (Some store)
    = stats_response st
    /\ total_receipts st = Z.of_nat (length receipts)
    /\ match cats with
       | [] => top_category st = VStr (str "None")
       | _ :: _ =>
           exists c before after,
             top_category st = VStr c
             /\ cats = before ++ c :: after
             /\ ~ In c before
             /\ (forall x, In x before ->
                   occurrences x cats < occurrences c cats)
             /\ (forall x, occurrences x cats <= occurrences c cats)
       end.
Proof.
  intros Hu Hs Hc; unfold get_stats; rewrite Hu, Hs; cbn [and_then].
  destruct (receipt_stats receipts) as [e|st] eqn:Hst; cbn [and_then or_500];
    [discriminate|].
  intros _; exists st; split; [reflexivity|].
  destruct (receipt_stats_top receipts cats st Hc Hst) as [Hn Htop].
  split; [exact Hn|]. rewrite Htop.
  destruct cats as [|c0 cats']; [reflexivity|].
  destruct (top_of_tally (c0 :: cats')) as (c & b & a & H1 & H2 & H3 & H4 & H5);
    [discriminate|].
  exists c, b, a; auto.
Qed.

(** X14: one stored receipt whose total is not a number (a [str], [None],
    a list, a dictionary), or whose [parsedData] is not a dictionary,
    makes [get_stats] answer 500 for the whole list. *)
Theorem stats_fail_on_a_total_that_is_no_number
    (session : dict) (store : firestore) (user_id : value)
    (receipts : list value) :
  lookup (str "user_id") session = Some user_id ->
  stream_receipts store user_id = inr receipts ->
  Exists (fun receipt =>
            match total_field receipt with
            | inr v => is_number v = false
            | inl _ => True
            end) receipts ->
  status (get_stats firestore stream_receipts message session (Some store))
  = 500.
Proof.
  intros Hu Hs Hbad; unfold get_stats; rewrite Hu, Hs; cbn [and_then].
  destruct (receipt_stats_fails receipts Hbad) as [e ->]; reflexivity.
Qed.

(** X15: when every stored receipt holds a record of the fallback parser,
    [get_stats] answers 200 with the number of receipts, the top category
    "Other" ("None" without receipts), and a total and an average spend
    that are not negative. *)
Theorem stats_of_fallback_receipts
    (session : dict) (store : firestore) (user_id : value)
    (receipts : list value) :
  lookup (str "user_id") session = Some user_id ->
  stream_receipts store user_id = inr receipts ->
  Forall from_fallback receipts ->
  Z.of_nat (length receipts) < 2 ^ 63 ->
  exists st,
    get_stats firestore stream_receipts message session (Some store)
    = stats_response st
    /\ total_receipts st = Z.of_nat (length receipts)
    /\ top_category st
       = VStr (str match receipts with [] => "None" | _ => "Other" end)
    /\ nonneg (total_spent st) = true
    /\ nonneg (avg_spend st) = true.
Proof.
  intros Hu Hs Hall Hlen; unfold get_stats; rewrite Hu, Hs; cbn [and_then].
  destruct (receipt_stats_of_fallback receipts Hall Hlen) as (st & -> & H).
  exists st; split; [reflexivity | exact H].
Qed.

(** X16: [create_wallet_pass] answers 200 exactly when the request body
    is a JSON object with the key [receiptId] and the session holds a
    user; the pass then carries that receipt id as serial number and as
    barcode message. *)
Theorem wallet_pass_needs_an_object_and_a_session
    (request_json : outcome value) (session : dict) :
  (status (create_wallet_pass message request_json session) = 200
   <-> exists data receipt_id,
         request_json = inr (VDict data)
         /\ lookup (str "receiptId") data = Some receipt_id
         /\ lookup (str "user_id") session <> None)
  /\ forall data receipt_id,
       request_json = inr (VDict data) ->
       lookup (str "receiptId") data = Some receipt_id ->
       lookup (str "user_id") session <> None ->
       exists pass barcode,
         py_get (body (create_wallet_pass message request_json session))
                (str "walletPass") VNone = inr (VDict pass)
         /\ lookup (str "serialNumber") pass = Some receipt_id
         /\ lookup (str "barcode") pass = Some (VDict barcode)
         /\ lookup (str "message") barcode = Some receipt_id.
Proof.
  split.
  - unfold create_wallet_pass. split.
    + destruct request_json as [e|data]; cbn [and_then or_500];
        [discriminate|].
      destruct (truthy data) eqn:Ht; cbn [negb and_then];
        [|discriminate].
      destruct (py_in (str "receiptId") data) as [e|present] eqn:Hin;
        cbn [and_then or_500]; [discriminate|].
      destruct present; cbn [negb]; [|discriminate].
      destruct (lookup (str "user_id") session) as [uid|] eqn:Hu;
        [|discriminate].
      destruct data as [| | | | |l|d]; try discriminate Hin;
        cbn [py_getitem and_then or_500]; try discriminate.
      cbn [py_in] in Hin.
      destruct (lookup (str "receiptId") d) as [rid|] eqn:Hr;
        [|discriminate Hin].
      intros _; exists d, rid.
      split; [reflexivity|]. split; [exact Hr | discriminate].
    + intros (data & rid & -> & Hr & Hu).
      cbn [and_then truthy py_in py_getitem].
      destruct data as [|kv data]; [discriminate Hr|].
      cbn [is_nil negb and_then]. rewrite Hr; cbn [and_then negb].
      destruct (lookup (str "user_id") session); [reflexivity | congruence].
  - intros data rid -> Hr Hu. unfold create_wallet_pass.
    cbn [and_then truthy py_in py_getitem].
    destruct data as [|kv data]; [discriminate Hr|].
    cbn [is_nil negb and_then]. rewrite Hr; cbn [and_then negb].
    destruct (lookup (str "user_id") session); [|congruence].
    cbn [or_500]. do 2 eexists; repeat split.
Qed.

(** X17: [logout] answers 200 and leaves an empty session, on which
    [get_stats] and [update_language] answer 401 and [create_wallet_pass]
    never answers 200. *)
Theorem logout_ends_the_session
    (session : dict) (request_json : outcome value) (db : option firestore) :
  status (fst (logout session)) = 200
  /\ snd (logout session) = []
  /\ status (get_stats firestore stream_receipts message
               (snd (logout session)) db) = 401
  /\ status (create_wallet_pass message request_json (snd (logout session)))
     <> 200
  /\ update_language firestore update_user message request_json
       (snd (logout session)) db
     = (error_response "Not authenticated" 401, [], db).
Proof.
  split; [reflexivity|]. split; [reflexivity|]. split; [reflexivity|].
  split; [|reflexivity].
  unfold create_wallet_pass.
  destruct request_json as [e|data]; cbn [and_then or_500];
    [discriminate|].
  destruct (truthy data); cbn [negb and_then]; [|discriminate].
  destruct (py_in (str "receiptId") data) as [e|present];
    cbn [and_then or_500]; [discriminate|].
  destruct present; cbn [negb logout snd lookup find option_map];
    discriminate.
Qed.

(** X18: when [update_language] answers 200 there is a database, the
    language stored in the session is one of [LANGUAGES] and has a table
    of its own in [get_language_text]; with any other answer the session
    is left as it was. *)
Theorem update_language_stores_supported_languages_only
    (request_json : outcome value) (session : dict) (db : option firestore) :
  let '(r, session', db') :=
    update_language firestore update_user message request_json session db in
  if status r =? 200
  then exists code store store',
         db = Some store
         /\ db' = Some store'
         /\ In code (map fst LANGUAGES)
         /\ lookup (str "language") session' = Some (VStr code)
         /\ find (fun kv => str_eqb (fst kv) code) texts
            = Some (code, get_language_text code)
  else session' = session.
Proof.
  unfold update_language.
  destruct (lookup (str "user_id") session) as [uid|]; [|reflexivity].
  destruct request_json as [e|data]; cbn [and_then]; [reflexivity|].
  destruct (truthy data); cbn [negb and_then]; [|reflexivity].
  destruct (py_in (str "language") data) as [e|present]; cbn [and_then];
    [reflexivity|].
  destruct present; cbn [negb]; [|reflexivity].
  destruct (py_getitem data (str "language")) as [e|language];
    cbn [and_then]; [reflexivity|].
  destruct (in_LANGUAGES language) as [e|supported] eqn:Hl; cbn [and_then];
    [reflexivity|].
  destruct supported; cbn [negb]; [|reflexivity].
  destruct db as [store|]; [|reflexivity].
  destruct (update_user store uid [(str "language", language)])
    as [store' [e|u]]; [reflexivity|].
  cbn [status jsonify Z.eqb Pos.eqb].
  destruct (in_LANGUAGES_code language Hl) as (code & -> & Hin).
  exists code, store, store'; repeat split; try assumption.
  - apply lookup_dict_set.
  - apply language_has_table, Hin.
Qed.
End ViewProperties.

(** X19: [get_language_text] returns, for every language code, a table
    with the keys of the English one in the same order; the codes with a
    table of their own are those of [LANGUAGES], and any other code gets
    the English table. *)
Theorem language_tables_have_the_same_keys (lang : text) :
  map fst (get_language_text lang) = map fst texts_en
  /\ (In lang (map fst LANGUAGES) <-> In lang (map fst texts))
  /\ (~ In lang (map fst LANGUAGES) -> get_language_text lang = texts_en).
Proof.
  split; [|split].
  - unfold get_language_text, texts; cbn [find fst snd].
    destruct (str_eqb (str "en") lang); [reflexivity|].
    destruct (str_eqb (str "te") lang); [vm_compute; reflexivity|].
    destruct (str_eqb (str "kn") lang); [vm_compute|]; reflexivity.
  - assert (E : map fst LANGUAGES = map fst texts)
      by (vm_compute; reflexivity).
    rewrite E; tauto.
  - intros H. unfold get_language_text, texts; cbn [find fst snd].
    destruct (str_eqb_spec (str "en") lang) as [E|_]; [reflexivity|].
    destruct (str_eqb_spec (str "te") lang) as [E|_];
      [exfalso; apply H; right; left; exact E|].
    destruct (str_eqb_spec (str "kn") lang) as [E|_];
      [exfalso; apply H; right; right; left; exact E | reflexivity].
Qed.

(** ** [login] and [signup] *)

Lemma lookup_dict_set_other (key key' : text) (v : value) (d : dict) :
  key <> key' -> lookup key' (dict_set key v d) = lookup key' d.
Proof.
  intros Hk; unfold lookup; induction d as [|[k w] d IH]; simpl.
  - destruct (str_eqb_spec key key'); [contradiction | reflexivity].
  - destruct (str_eqb_spec k key) as [->|Hne]; simpl.
    + destruct (str_eqb_spec key key'); [contradiction | reflexivity].
    + destruct (str_eqb k key'); [reflexivity | exact IH].
Qed.

Lemma py_getitem_not_dict (data : value) (key : text) :
  (forall d, data <> VDict d) -> py_getitem data key = inl TypeError.
Proof. destruct data; intros H; try reflexivity. destruct (H d eq_refl). Qed.

Lemma py_eq_str_eq (v : value) (s : text) :
  py_eq_str v s = true <-> v = VStr s.
Proof.
  destruct v; simpl; try (split; [discriminate | congruence]).
  rewrite str_eqb_eq; split; [congruence | intros H; inversion H; auto].
Qed.

(** The session after the four assignments, when the user has a [sub]
    and an [email]. *)
Lemma set_session_data_fields (user_info session : dict) (sub email : value) :
  lookup (str "sub") user_info = Some sub ->
  lookup (str "email") user_info = Some email ->
  exists session',
    set_session_data user_info session = (session', inr tt)
    /\ lookup (str "user_id") session' = Some sub
    /\ lookup (str "user_email") session' = Some email
    /\ lookup (str "user_name") session'
       = Some (dict_get user_info (str "name") (VStr []))
    /\ lookup (str "user_picture") session'
       = Some (dict_get user_info (str "picture") (VStr [])).
Proof.
  intros Hs He; unfold set_session_data; cbn [py_getitem].
  rewrite Hs, He. eexists; split; [reflexivity|].
  repeat split.
  - rewrite !lookup_dict_set_other by (vm_compute; discriminate).
    apply lookup_dict_set.
  - rewrite !lookup_dict_set_other by (vm_compute; discriminate).
    apply lookup_dict_set.
  - rewrite !lookup_dict_set_other by (vm_compute; discriminate).
    apply lookup_dict_set.
  - apply lookup_dict_set.
Qed.

Section SigningIn.
Variable firestore : Type.
Variable set_user :
  firestore -> value -> dict -> firestore * outcome unit.

(** X20: [login] answers 200 exactly when the request body is a JSON
    object whose email is "user@example.com" and whose password is
    "password"; it then stores the user id "local_user_" followed by the
    token drawn, and the email, in the session.  With any other answer
    the session and the database are left as they were. *)
Theorem login_accepts_only_the_fixed_credentials
    (os : os_random) (now : text) (request_json : outcome value)
    (session : dict) (db : option firestore) :
  let '(r, session', db') :=
    login firestore set_user os now request_json session db in
  (status r = 200
   <-> exists d,
         request_json = inr (VDict d)
         /\ lookup (str "email") d = Some (VStr (str "user@example.com"))
         /\ lookup (str "password") d = Some (VStr (str "password")))
  /\ (status r = 200 ->
        lookup (str "user_id") session'
        = Some (VStr (str "local_user_" ++ token_hex os 8))
        /\ lookup (str "user_email") session'
           = Some (VStr (str "user@example.com")))
  /\ (status r <> 200 -> session' = session /\ db' = db).
Proof.
  unfold login.
  destruct request_json as [e|data]; cbn [and_then].
  { split; [split; [discriminate | intros (d & H & _); discriminate H]|].
    split; [discriminate | auto]. }
  assert (Hd : (exists d, data = VDict d) \/ forall d, data <> VDict d).
  { destruct data; try (right; discriminate). left; eexists; reflexivity. }
  destruct Hd as [[d ->]|Hd].
  2:{ destruct (missing_fields data _) as [e|[|]]; cbn [and_then];
        try rewrite (py_getitem_not_dict data _ Hd); cbn [and_then];
        (split; [split; [discriminate
                        | intros (d & H & _); inversion H; subst;
                          destruct (Hd d eq_refl)]|]);
        (split; [discriminate | auto]). }
  unfold missing_fields; cbn [truthy lacks py_in py_getitem and_then].
  destruct d as [|kv d']; cbn [is_nil negb and_then].
  { split; [split; [discriminate | intros (d & H & H1 & _); inversion H; subst;
                    discriminate H1]|].
    split; [discriminate | auto]. }
  set (d := kv :: d').
  destruct (lookup (str "email") d) as [email|] eqn:He; cbn [and_then].
  2:{ split; [split; [discriminate | intros (d0 & H & H1 & _); inversion H;
                      subst d0; congruence]|].
      split; [discriminate | auto]. }
  destruct (lookup (str "password") d) as [password|] eqn:Hp; cbn [and_then].
  2:{ split; [split; [discriminate | intros (d0 & H & _ & H1); inversion H;
                      subst d0; congruence]|].
      split; [discriminate | auto]. }
  destruct (py_eq_str email _) eqn:Ee; cbn [and_then].
  2:{ split; [split; [discriminate|]|split; [discriminate | auto]].
      intros (d0 & H & H1 & _); inversion H; subst d0.
      rewrite He in H1; inversion H1; subst email.
      vm_compute in Ee; discriminate. }
  destruct (py_eq_str password _) eqn:Ep; cbn [and_then].
  2:{ split; [split; [discriminate|]|split; [discriminate | auto]].
      intros (d0 & H & _ & H1); inversion H; subst d0.
      rewrite Hp in H1; inversion H1; subst password.
      vm_compute in Ep; discriminate. }
  apply py_eq_str_eq in Ee, Ep; subst email password.
  unfold sign_in.
  edestruct (set_session_data_fields
               [(str "sub", VStr (str "local_user_" ++ token_hex os 8));
                (str "email", VStr (str "user@example.com"));
                (str "name", VStr (str "Local User"));
                (str "picture",
                 VStr (str "https://www.gravatar.com/avatar/default?s=200"));
                (str "language", VStr (str "en"))] session)
    as (session' & -> & Hu & Hm & _); [reflexivity | reflexivity |].
  split; [split; [intros _; exists d; auto | reflexivity]|].
  split; [intros _; split; assumption | intros H; destruct (H eq_refl)].
Qed.

(** X21: [signup] answers 200 exactly when the request body is a JSON
    object with the keys email, password and name, whatever their
    values; it then stores the user id "new_user_" followed by the token
    drawn, the email and the name in the session.  With any other answer
    the session and the database are left as they were. *)
Theorem signup_accepts_any_three_fields
    (os : os_random) (now : text) (request_json : outcome value)
    (session : dict) (db : option firestore) :
  let '(r, session', db') :=
    signup firestore set_user os now request_json session db in
  (status r = 200
   <-> exists d email password name,
         request_json = inr (VDict d)
         /\ lookup (str "email") d = Some email
         /\ lookup (str "password") d = Some password
         /\ lookup (str "name") d = Some name)
  /\ (forall d email name,
        request_json = inr (VDict d) ->
        lookup (str "email") d = Some email ->
        lookup (str "name") d = Some name ->
        status r = 200 ->
        lookup (str "user_id") session'
        = Some (VStr (str "new_user_" ++ token_hex os 8))
        /\ lookup (str "user_email") session' = Some email
        /\ lookup (str "user_name") session' = Some name)
  /\ (status r <> 200 -> session' = session /\ db' = db).
Proof.
  unfold signup.
  destruct request_json as [e|data]; cbn [and_then].
  { split; [split; [discriminate | intros (d & ? & ? & ? & H & _);
                    discriminate H]|].
    split; [discriminate | auto]. }
  assert (Hd : (exists d, data = VDict d) \/ forall d, data <> VDict d).
  { destruct data; try (right; discriminate). left; eexists; reflexivity. }
  destruct Hd as [[d ->]|Hd].
  2:{ destruct (missing_fields data _) as [e|[|]]; cbn [and_then];
        try rewrite (py_getitem_not_dict data _ Hd); cbn [and_then];
        (split; [split; [discriminate
                        | intros (d & ? & ? & ? & H & _); inversion H; subst;
                          destruct (Hd d eq_refl)]|]);
        (split; [intros d ? ? H; inversion H; subst; destruct (Hd d eq_refl)
                | auto]). }
  unfold missing_fields; cbn [truthy lacks py_in py_getitem and_then].
  destruct d as [|kv d']; cbn [is_nil negb and_then].
  { split; [split; [discriminate
                   | intros (d & ? & ? & ? & H & H1 & _); inversion H; subst;
                     discriminate H1]|].
    split; [discriminate | auto]. }
  set (d := kv :: d').
  destruct (lookup (str "email") d) as [email|] eqn:He; cbn [and_then].
  2:{ split; [split; [discriminate
                     | intros (d0 & ? & ? & ? & H & H1 & _); inversion H;
                       subst d0; congruence]|].
      split; [discriminate | auto]. }
  destruct (lookup (str "password") d) as [password|] eqn:Hp;
    cbn [and_then].
  2:{ split; [split; [discriminate
                     | intros (d0 & ? & ? & ? & H & _ & H1 & _); inversion H;
                       subst d0; congruence]|].
      split; [discriminate | auto]. }
  destruct (lookup (str "name") d) as [name|] eqn:Hn; cbn [and_then].
  2:{ split; [split; [discriminate
                     | intros (d0 & ? & ? & ? & H & _ & _ & H1); inversion H;
                       subst d0; congruence]|].
      split; [discriminate | auto]. }
  unfold sign_in.
  edestruct (set_session_data_fields
               [(str "sub", VStr (str "new_user_" ++ token_hex os 8));
                (str "email", email);
                (str "name", name);
                (str "picture",
                 VStr (str "https://www.gravatar.com/avatar/default?s=200"));
                (str "language", VStr (str "en"))] session)
    as (session' & -> & Hu & Hm & Hnm & _); [reflexivity | reflexivity |].
  split; [split; [intros _; exists d, email, password, name; auto
                 | reflexivity]|].
  split; [|intros H; destruct (H eq_refl)].
  intros d0 email0 name0 H H1 H2 _; inversion H; subst d0.
  rewrite He in H1; rewrite Hn in H2; inversion H1; inversion H2; subst.
  repeat split; assumption.
Qed.

(** X22: [signup] never reads the password: with another password in
    the request body it gives the same answer and leaves the same
    session and the same database. *)
Theorem signup_never_reads_the_password
    (os : os_random) (now : text) (d : dict) (password : value)
    (session : dict) (db : option firestore) :
  lookup (str "password") d <> None ->
  signup firestore set_user os now
    (inr (VDict (dict_set (str "password") password d))) session db
  = signup firestore set_user os now (inr (VDict d)) session db.
Proof.
  intros Hp; unfold signup, missing_fields.
  cbn [truthy lacks py_in py_getitem and_then].
  rewrite lookup_dict_set.
  rewrite !lookup_dict_set_other by (vm_compute; discriminate).
  assert (Hn : is_nil (dict_set (str "password") password d) = is_nil d).
  { destruct d as [|[k w] d']; [destruct (Hp eq_refl)|]; simpl.
    destruct (str_eqb k (str "password")); reflexivity. }
  rewrite Hn.
  destruct (lookup (str "password") d) as [p|]; [reflexivity | congruence].
Qed.
End SigningIn.

(** ** Worked examples *)

Lemma a_surrogate_is_refused :
  Exists (fun c => 55296 <= c <= 57343) a_surrogate
  /\ hash_password fixed_random a_surrogate = inl UnicodeEncodeError
  /\ verify_password [] a_surrogate = inl UnicodeEncodeError.
Proof.
  assert (H : Exists (fun c => 55296 <= c <= 57343) a_surrogate).
  { unfold a_surrogate. apply Exists_app; right; constructor; lia. }
  split; [exact H|].
  exact (surrogate_password_is_refused fixed_random a_surrogate [] H).
Defined.

Lemma a_password_is_scalar : Forall scalar a_password.
Proof.
  unfold a_password, str; simpl; repeat constructor; unfold scalar; lia.
Qed.

Lemma a_hashed_password_verifies :
  Forall scalar a_password
  /\ exists stored,
       hash_password fixed_random a_password = inr stored
       /\ verify_password stored a_password = inr true.
Proof.
  split; [exact a_password_is_scalar|].
  exact (hashed_password_verifies fixed_random a_password a_password_is_scalar).
Defined.

Lemma an_empty_hash_never_verifies :
  length (@nil char) <> 96%nat
  /\ verify_password [] a_password <> inr true.
Proof.
  assert (H : length (@nil char) <> 96%nat) by discriminate.
  split; [exact H|].
  exact (malformed_hash_never_verifies [] a_password H).
Defined.

Lemma three_receipts_top_category :
  lookup (str "user_id") a_session = Some (VStr (str "u1"))
  /\ stored_receipts three_receipts tt (VStr (str "u1")) = inr three_receipts
  /\ Forall2 (fun receipt c => category_of receipt = inr (VStr c))
             three_receipts [str "Food"; str "Other"; str "Other"]
  /\ status (get_stats unit (stored_receipts three_receipts) no_message
               a_session (Some tt)) = 200
  /\ exists st,
       get_stats unit (stored_receipts three_receipts) no_message
         a_session (Some tt) = stats_response st
       /\ total_receipts st = 3
       /\ exists c before after,
            top_category st = VStr c
            /\ [str "Food"; str "Other"; str "Other"] = before ++ c :: after
            /\ ~ In c before
            /\ (forall x, In x before ->
                  occurrences x [str "Food"; str "Other"; str "Other"]
                  < occurrences c [str "Food"; str "Other"; str "Other"])
            /\ (forall x,
                  occurrences x [str "Food"; str "Other"; str "Other"]
                  <= occurrences c [str "Food"; str "Other"; str "Other"]).
Proof.
  assert (H1 : lookup (str "user_id") a_session = Some (VStr (str "u1")))
    by reflexivity.
  assert (H2 : stored_receipts three_receipts tt (VStr (str "u1"))
               = inr three_receipts) by reflexivity.
  assert (H3 : Forall2 (fun receipt c => category_of receipt = inr (VStr c))
                 three_receipts [str "Food"; str "Other"; str "Other"])
    by (repeat constructor).
  assert (H4 : status (get_stats unit (stored_receipts three_receipts)
                         no_message a_session (Some tt)) = 200)
    by (vm_compute; reflexivity).
  repeat (split; [assumption|]).
  exact (stats_top_category_is_first_most_frequent unit
           (stored_receipts three_receipts) no_message a_session tt
           (VStr (str "u1")) three_receipts
           [str "Food"; str "Other"; str "Other"] H1 H2 H3 H4).
Defined.

Lemma a_text_total_fails :
  lookup (str "user_id") a_session = Some (VStr (str "u1"))
  /\ stored_receipts receipt_with_text_total tt (VStr (str "u1"))
     = inr receipt_with_text_total
  /\ Exists (fun receipt =>
               match total_field receipt with
               | inr v => is_number v = false
               | inl _ => True
               end) receipt_with_text_total
  /\ status (get_stats unit (stored_receipts receipt_with_text_total)
               no_message a_session (Some tt)) = 500.
Proof.
  assert (H1 : lookup (str "user_id") a_session = Some (VStr (str "u1")))
    by reflexivity.
  assert (H2 : stored_receipts receipt_with_text_total tt (VStr (str "u1"))
               = inr receipt_with_text_total) by reflexivity.
  assert (H3 : Exists (fun receipt =>
                         match total_field receipt with
                         | inr v => is_number v = false
                         | inl _ => True
                         end) receipt_with_text_total)
    by (right; left; reflexivity).
  repeat (split; [assumption|]).
  exact (stats_fail_on_a_total_that_is_no_number unit
           (stored_receipts receipt_with_text_total) no_message a_session tt
           (VStr (str "u1")) receipt_with_text_total H1 H2 H3).
Defined.

Lemma a_fallback_receipt_stats :
  lookup (str "user_id") a_session = Some (VStr (str "u1"))
  /\ stored_receipts fallback_receipts tt (VStr (str "u1"))
     = inr fallback_receipts
  /\ Forall from_fallback fallback_receipts
  /\ Z.of_nat (length fallback_receipts) < 2 ^ 63
  /\ exists st,
       get_stats unit (stored_receipts fallback_receipts) no_message
         a_session (Some tt) = stats_response st
       /\ total_receipts st = Z.of_nat (length fallback_receipts)
       /\ top_category st = VStr (str "Other")
       /\ nonneg (total_spent st) = true
       /\ nonneg (avg_spend st) = true.
Proof.
  assert (H1 : lookup (str "user_id") a_session = Some (VStr (str "u1")))
    by reflexivity.
  assert (H2 : stored_receipts fallback_receipts tt (VStr (str "u1"))
               = inr fallback_receipts) by reflexivity.
  assert (H3 : Forall from_fallback fallback_receipts).
  { constructor; [|constructor].
    exists ascii_db, a_day, receipt_with_total, a_fallback_record.
    split; [vm_compute; reflexivity | reflexivity]. }
  assert (H4 : Z.of_nat (length fallback_receipts) < 2 ^ 63)
    by (vm_compute; reflexivity).
  repeat (split; [assumption|]).
  exact (stats_of_fallback_receipts unit (stored_receipts fallback_receipts)
           no_message a_session tt (VStr (str "u1")) fallback_receipts
           H1 H2 H3 H4).
Defined.

Lemma a_hashed_password_format :
  Forall scalar a_password
  /\ exists stored p s,
       encode a_password = inr p
       /\ encode (token_hex fixed_random 16) = inr s
       /\ hash_password fixed_random a_password = inr stored
       /\ length stored = 96%nat
       /\ Forall hex_char stored
       /\ firstn 32 stored = token_hex fixed_random 16
       /\ skipn 32 stored = hex (pbkdf2_hmac_sha256 p s 100000).
Proof.
  split; [exact a_password_is_scalar|].
  exact (hash_password_format fixed_random a_password a_password_is_scalar).
Defined.

Lemma a_signup_never_reads_the_password :
  lookup (str "password") a_signup <> None
  /\ signup unit keep_user fixed_random (str "2026-01-01T09:30:00")
       (inr (VDict (dict_set (str "password") (VStr (str "other")) a_signup)))
       [] (Some tt)
     = signup unit keep_user fixed_random (str "2026-01-01T09:30:00")
         (inr (VDict a_signup)) [] (Some tt).
Proof.
  assert (H : lookup (str "password") a_signup <> None)
    by (vm_compute; discriminate).
  split; [exact H|].
  exact (signup_never_reads_the_password unit keep_user fixed_random
           (str "2026-01-01T09:30:00") a_signup (VStr (str "other")) []
           (Some tt) H).
Defined.
